(** * Motion-spec extractor: a shallow embedding of the extraction core

    The development follows the ExtendScript sources of the After Effects
    extractor (easing conversion, keyframe extraction, property walker,
    shape-tree extractor, animation summary) and the TypeScript bezier
    sampling primitive of the Figma plugin.

    Numbers.  A JavaScript number is modelled by an exact rational ([Q]);
    the only non-finite value the modelled code can produce is the [NaN]
    that arithmetic on a missing array slot ([undefined]) yields, so the
    easing coordinates live in [num], rationals extended with [NaN].
    Rounding error of IEEE doubles is not modelled. *)

From Stdlib Require Import QArith Qround Qabs Qminmax Lqa ZArith List String Lia Bool Sorted.
Import ListNotations.
Local Open Scope Q_scope.

(** ** JavaScript numbers *)

Module JsNum.

Inductive num : Type :=
| NaN
| Fin (q : Q).

(** [a < b] on rationals, as a boolean. *)
Definition Qltb (a b : Q) : bool := negb (Qle_bool b a).

(** [Math.abs]. *)
Definition nabs (a : num) : num :=
  match a with
  | Fin q => Fin (Qabs q)
  | NaN => NaN
  end.

Definition nmul (a b : num) : num :=
  match a, b with
  | Fin x, Fin y => Fin (x * y)
  | _, _ => NaN
  end.

Definition nsub (a b : num) : num :=
  match a, b with
  | Fin x, Fin y => Fin (x - y)
  | _, _ => NaN
  end.

(** [a / b].  A zero divisor leaves the rationals (JavaScript answers an
    infinity or [NaN]); the model answers [NaN]. *)
Definition ndiv (a b : num) : num :=
  match a, b with
  | Fin x, Fin y => if Qeq_bool y 0 then NaN else Fin (x / y)
  | _, _ => NaN
  end.

(** [a < b]: false as soon as one side is [NaN]. *)
Definition nltb (a b : num) : bool :=
  match a, b with
  | Fin x, Fin y => Qltb x y
  | _, _ => false
  end.

(** [Math.round] of a rational: the nearest integer, ties upwards. *)
Definition Qround_js (q : Q) : Q := inject_Z (Qfloor (q + (1 # 2))).

(** [Math.round(v * 10000) / 10000]. *)
Definition Qround4 (q : Q) : Q := Qround_js (q * 10000) / 10000.

Definition nround4 (a : num) : num :=
  match a with
  | Fin q => Fin (Qround4 q)
  | NaN => NaN
  end.

(** [Math.max(0, Math.min(1, v))]. *)
Definition Qclamp01 (q : Q) : Q := Qmax 0 (Qmin 1 q).

(** A coordinate lies in the closed unit interval. *)
Definition in_unit (a : num) : Prop :=
  match a with
  | Fin q => 0 <= q /\ q <= 1
  | NaN => False
  end.

(** Equality of numbers up to the representation of rationals. *)
Definition neq (a b : num) : Prop :=
  match a, b with
  | Fin x, Fin y => x == y
  | NaN, NaN => True
  | _, _ => False
  end.

(** Indexing a JavaScript array: [undefined] outside [0 .. length-1]. *)
Definition jsIndex {A : Type} (l : list A) (i : Z) : option A :=
  if (i <? 0)%Z then None else nth_error l (Z.to_nat i).

End JsNum.
Import JsNum.

(** ** Data shared by the two versions of [extractors/easing.jsx] *)

(** One entry of [keyInTemporalEase] / [keyOutTemporalEase]. *)
Record KeyframeEase : Type := mkEase { speed : Q; influence : Q }.

(** The object the converters return.  The [css] field is the text
    rendering of the four coordinates and is left out. *)
Record CubicBezier : Type := mkBezier { x1 : num; y1 : num; x2 : num; y2 : num }.

(** A normalised property value ([normalizeKeyValue]). *)
Inductive PropertyValue : Type :=
| VNum (n : Q)
| VArr (a : list Q)
| VStr (s : string)
| VBool (b : bool)
| VNull.

Definition epsilon : Q := 1 # 10000.

(** The literal returned by the guard of [convertEasingWithValues]. *)
Definition identityBezier : CubicBezier := mkBezier (Fin 0) (Fin 0) (Fin 1) (Fin 1).

Definition bezier_eq (a b : CubicBezier) : Prop :=
  neq (x1 a) (x1 b) /\ neq (y1 a) (y1 b) /\ neq (x2 a) (x2 b) /\ neq (y2 a) (y2 b).

(** [convertEasingToCubicBezier]: the conversion without value change;
    the text is the same in both versions of the file.  [None] is the
    [TypeError] raised when an ease array is empty. *)
Definition convertEasingToCubicBezier
    (outEase inEaseNext : list KeyframeEase) (duration : Q) : option CubicBezier :=
  match jsIndex outEase 0, jsIndex inEaseNext 0 with
  | Some o, Some i =>
      let outSpeed := speed o in
      let outInfluence := influence o / 100 in
      let inSpeed := speed i in
      let inInfluence := influence i / 100 in
      let x1 := outInfluence in
      let x2 := 1 - inInfluence in
      let y1 := if Qeq_bool outSpeed 0 then 0 else x1 in
      let y2 := if Qeq_bool inSpeed 0 then 1 else x2 in
      let x1 := Qclamp01 x1 in
      let x2 := Qclamp01 x2 in
      Some (mkBezier (Fin (Qround4 x1)) (Fin (Qround4 y1))
                     (Fin (Qround4 x2)) (Fin (Qround4 y2)))
  | _, _ => None
  end.

(** The text both versions of [convertEasingWithValues] share once the
    value change and the ease entries are chosen: from
    [var linearSpeed = Math.abs(valueChange / duration)] to the [return]. *)
Definition linearSpeedOf (valueChange : num) (duration : Q) : num :=
  nabs (ndiv valueChange (Fin duration)).

Definition curveFromHandles (linearSpeed : num) (o i : KeyframeEase) : CubicBezier :=
  let outSpeed := speed o in
  let outInfluence := influence o / 100 in
  let inSpeed := speed i in
  let inInfluence := influence i / 100 in
  let x1 := outInfluence in
  let x2 := 1 - inInfluence in
  let y1 := nmul (Fin x1) (ndiv (Fin (Qabs outSpeed)) linearSpeed) in
  let y2 := nsub (Fin 1) (nmul (Fin inInfluence) (ndiv (Fin (Qabs inSpeed)) linearSpeed)) in
  let x1 := Qclamp01 x1 in
  let x2 := Qclamp01 x2 in
  mkBezier (Fin (Qround4 x1)) (nround4 y1) (Fin (Qround4 x2)) (nround4 y2).

(** The guard [Math.abs(valueChange) < 0.0001 || duration < 0.0001]. *)
Definition negligible (valueChange : num) (duration : Q) : bool :=
  nltb (nabs valueChange) (Fin epsilon) || Qltb duration epsilon.

(** ** [extractors/easing.jsx], dimension-aware version (src/unnamed/part_007) *)

Module Easing.

Record BestDimension : Type := mkBest { dimIndex : nat; valueChange : Q }.

(** The loop [for (i = 0; i < len; i++)] of [findBestDimension], with
    [len = Math.min(startValue.length, endValue.length)]. *)
Fixpoint findBestLoop (i : nat) (startValue endValue : list Q)
    (bestDim : nat) (bestChange : Q) : BestDimension :=
  match startValue, endValue with
  | s :: startValue', e :: endValue' =>
      let dimChange := Qabs (e - s) in
      if Qltb (Qabs bestChange) dimChange
      then findBestLoop (S i) startValue' endValue' i (e - s)
      else findBestLoop (S i) startValue' endValue' bestDim bestChange
  | _, _ => mkBest bestDim bestChange
  end.

Definition findBestDimension (startValue endValue : PropertyValue) : BestDimension :=
  match startValue, endValue with
  | VNum s, VNum e => mkBest 0 (e - s)
  | VArr s, VArr e => findBestLoop 0 s e 0 0
  | _, _ => mkBest 0 0
  end.

Definition convertEasingWithValues
    (outEase inEaseNext : list KeyframeEase) (duration : Q)
    (startValue endValue : PropertyValue) : option CubicBezier :=
  let best := findBestDimension startValue endValue in
  let valueChange := Fin (valueChange best) in
  let dimIndex := Z.of_nat (dimIndex best) in
  if negligible valueChange duration then Some identityBezier
  else
    let linearSpeed := linearSpeedOf valueChange duration in
    let easeDim := Z.min dimIndex (Z.of_nat (List.length outEase) - 1) in
    let easeInDim := Z.min dimIndex (Z.of_nat (List.length inEaseNext) - 1) in
    match jsIndex outEase easeDim, jsIndex inEaseNext easeInDim with
    | Some o, Some i => Some (curveFromHandles linearSpeed o i)
    | _, _ => None
    end.

End Easing.

(** ** [extractors/easing.jsx], first-dimension version
       (src/packages/ae-extendscript/src/extractors/easing.jsx) *)

Module EasingFirstDim.

(** [valueChange]: the difference of the numbers, or of the first
    array slots ([NaN] when a slot is missing), else the initial [0]. *)
Definition valueChangeOf (startValue endValue : PropertyValue) : num :=
  match startValue, endValue with
  | VNum s, VNum e => Fin (e - s)
  | VArr s, VArr e =>
      match jsIndex e 0, jsIndex s 0 with
      | Some e0, Some s0 => Fin (e0 - s0)
      | _, _ => NaN
      end
  | _, _ => Fin 0
  end.

Definition convertEasingWithValues
    (outEase inEaseNext : list KeyframeEase) (duration : Q)
    (startValue endValue : PropertyValue) : option CubicBezier :=
  let valueChange := valueChangeOf startValue endValue in
  if negligible valueChange duration then Some identityBezier
  else
    let linearSpeed := linearSpeedOf valueChange duration in
    match jsIndex outEase 0, jsIndex inEaseNext 0 with
    | Some o, Some i => Some (curveFromHandles linearSpeed o i)
    | _, _ => None
    end.

End EasingFirstDim.

(** A value change that is a number below the epsilon of the guard. *)
Definition belowEpsilon (v : num) : Prop :=
  match v with
  | Fin q => Qabs q < epsilon
  | NaN => False
  end.

(** Easy Ease handles: speed 0, influence 33.33 %. *)
Definition easyEase : KeyframeEase := mkEase 0 (3333 # 100).

(** A call returned the bezier [b], up to the representation of
    rationals. *)
Definition returns (r : option CubicBezier) (b : CubicBezier) : Prop :=
  match r with
  | Some b' => bezier_eq b' b
  | None => False
  end.


(** ** [classifyEasingPreset] (the text is the same in both versions of
       [extractors/easing.jsx]) *)

Module Preset.
Local Open Scope string_scope.

Definition EPSILON : Q := 2 # 100.

(** [near(a, b)]: [Math.abs(a - b) < EPSILON]; false for a coordinate
    that is no number.  The comparison is made on exact values; the
    code's doubles can answer otherwise only for a distance within
    rounding error of the tolerance. *)
Definition near (a : num) (b : Q) : bool :=
  nltb (nabs (nsub a (Fin b))) (Fin EPSILON).

(** [None] is the [null] of a curve that matches no preset. *)
Definition classifyEasingPreset (x1 y1 x2 y2 : num) : option string :=
  if near x1 0 && near y1 0 && near x2 1 && near y2 1 then
    Some "linear"
  else if near x1 (25 # 100) && near y1 (1 # 10) && near x2 (25 # 100) && near y2 1 then
    Some "ease"
  else if near x1 (42 # 100) && near y1 0 && near x2 1 && near y2 1 then
    Some "ease-in"
  else if near x1 0 && near y1 0 && near x2 (58 # 100) && near y2 1 then
    Some "ease-out"
  else if near x1 (42 # 100) && near y1 0 && near x2 (58 # 100) && near y2 1 then
    Some "ease-in-out"
  else if near x1 (3333 # 10000) && near y1 0 && near x2 (6667 # 10000) && near y2 1 then
    Some "easeInOut (AE default)"
  else
    None.

(** *** Vocabulary for the properties of the classifier *)

(** The presets as a table: name and control points. *)
Definition presets : list (string * (Q * Q * Q * Q)) :=
  [("linear", (0, 0, 1, 1));
   ("ease", (25 # 100, 1 # 10, 25 # 100, 1));
   ("ease-in", (42 # 100, 0, 1, 1));
   ("ease-out", (0, 0, 58 # 100, 1));
   ("ease-in-out", (42 # 100, 0, 58 # 100, 1));
   ("easeInOut (AE default)", (3333 # 10000, 0, 6667 # 10000, 1))].

(** A coordinate is a number less than [EPSILON] away from [b]. *)
Definition close (a : num) (b : Q) : Prop :=
  match a with
  | Fin q => Qabs (q - b) < EPSILON
  | NaN => False
  end.

(** The four coordinates are close to the control points [c]. *)
Definition within (c : Q * Q * Q * Q) (x1 y1 x2 y2 : num) : Prop :=
  let '(c1, d1, c2, d2) := c in
  close x1 c1 /\ close y1 d1 /\ close x2 c2 /\ close y2 d2.

(** The four coordinates are numbers no farther than [d] from the
    control points [c]. *)
Definition inside (d : Q) (c : Q * Q * Q * Q) (x1 y1 x2 y2 : num) : Prop :=
  let '(c1, d1, c2, d2) := c in
  match x1, y1, x2, y2 with
  | Fin a1, Fin b1, Fin a2, Fin b2 =>
      Qabs (a1 - c1) <= d /\ Qabs (b1 - d1) <= d /\
      Qabs (a2 - c2) <= d /\ Qabs (b2 - d2) <= d
  | _, _, _, _ => False
  end.

(** The classification of the curve a converter returned. *)
Definition classify (b : CubicBezier) : option string :=
  classifyEasingPreset (x1 b) (y1 b) (x2 b) (y2 b).

(** A flat handle in the manner of Easy Ease: speed 0, influence within
    one point of 33.33 %. *)
Definition flatHandle (e : KeyframeEase) : Prop :=
  speed e == 0 /\ Qabs (influence e - (3333 # 100)) <= 1.

End Preset.

(** ** [utils/bezier-math.ts] *)

Module BezierMath.

Record Point : Type := mkPoint { x : Q; y : Q }.

Definition sampleCubicBezier (x1 y1 x2 y2 t : Q) : Point :=
  let mt := 1 - t in
  let mt2 := mt * mt in
  let mt3 := mt2 * mt in
  let t2 := t * t in
  let t3 := t2 * t in
  {| x := mt3 * 0 + 3 * mt2 * t * x1 + 3 * mt * t2 * x2 + t3 * 1;
     y := mt3 * 0 + 3 * mt2 * t * y1 + 3 * mt * t2 * y2 + t3 * 1 |}.

(** The derivative of x with respect to t, as the loop computes it. *)
Definition dxdtAt (x1 x2 t : Q) : Q :=
  let mt := 1 - t in
  3 * mt * mt * x1 + 6 * mt * t * (x2 - x1) + 3 * t * t * (1 - x2).

(** How one run of the Newton-Raphson loop of [bezierYForX] ends. *)
Inductive Exit : Type :=
| Converged (y : Q)      (* [return point.y]: the residual is below epsilon *)
| FlatDerivative (y : Q) (* [break]: the derivative is below epsilon *)
| Exhausted (y : Q)      (* the ten iterations are used up *)
| NotFinite.             (* a division by a zero derivative, which passes
                            the test only when epsilon is not positive: the
                            quotient is no rational, the run is not followed *)

(** [for (let i = 0; i < 10; i++)] with [n] iterations left. *)
Fixpoint newtonLoop (n : nat) (x1 y1 x2 y2 targetX epsilon t : Q) : Exit :=
  match n with
  | O => Exhausted (y (sampleCubicBezier x1 y1 x2 y2 t))
  | S n' =>
      let point := sampleCubicBezier x1 y1 x2 y2 t in
      let dx := x point - targetX in
      if Qltb (Qabs dx) epsilon then Converged (y point)
      else
        let dxdt := dxdtAt x1 x2 t in
        if Qltb (Qabs dxdt) epsilon
        then FlatDerivative (y (sampleCubicBezier x1 y1 x2 y2 t))
        else if Qeq_bool dxdt 0 then NotFinite
        else
          let t := t - dx / dxdt in
          let t := Qclamp01 t in
          newtonLoop n' x1 y1 x2 y2 targetX epsilon t
  end.

Definition exitValue (e : Exit) : option Q :=
  match e with
  | Converged v | FlatDerivative v | Exhausted v => Some v
  | NotFinite => None
  end.

Definition defaultEpsilon : Q := 1 # 10000.

Definition bezierYForX (x1 y1 x2 y2 targetX epsilon : Q) : option Q :=
  exitValue (newtonLoop 10 x1 y1 x2 y2 targetX epsilon targetX).

(** [generateCurvePoints]: one sample for each [i = 0 .. numPoints].  The
    loop test [i <= numPoints] fails at once for a negative count; for the
    count 0 the single turn samples at [0 / 0], and the point it pushes
    has no numbers for coordinates: [None]. *)
Definition generateCurvePoints (x1 y1 x2 y2 numPoints : Q) : list (option Point) :=
  if Qltb numPoints 0 then []
  else
    map (fun i : nat =>
           if Qeq_bool numPoints 0 then None
           else Some (sampleCubicBezier x1 y1 x2 y2 (inject_Z (Z.of_nat i) / numPoints)))
        (seq 0 (S (Z.to_nat (Qfloor numPoints)))).

(** The default of the [numPoints] parameter. *)
Definition defaultNumPoints : Q := 64.

Definition hasOvershoot (y1 y2 : Q) : bool :=
  Qltb y1 0 || Qltb 1 y1 || Qltb y2 0 || Qltb 1 y2.

Record YRange : Type := mkRange { min : Q; max : Q }.

(** One turn of the loop of [getYRange]; a comparison with a coordinate
    that is no number is false. *)
Definition widen (r : YRange) (p : option Point) : YRange :=
  match p with
  | None => r
  | Some p =>
      let min := if Qltb (y p) (min r) then y p else min r in
      let max := if Qltb (max r) (y p) then y p else max r in
      mkRange min max
  end.

Definition getYRange (x1 y1 x2 y2 : Q) : YRange :=
  fold_left widen (generateCurvePoints x1 y1 x2 y2 100) (mkRange 0 1).


(** *** Vocabulary for the identity curve *)

(** The x (and y) coordinate of the identity curve at parameter [t]. *)
Definition identityX (t : Q) : Q := t * t * (3 - 2 * t).

(** The residual an iteration may start with so that the iterations left
    bring it under epsilon: each step divides it by four at least. *)
Fixpoint budget (n : nat) : Q :=
  match n with
  | O => defaultEpsilon
  | S n' => 4 * budget n'
  end.

(** The descent of the loop on the identity curve: from the right of the
    root on the convex half, or from the left on the concave half, with a
    residual within the budget of the [n] iterations left. *)
Definition descending (n : nat) (X t : Q) : Prop :=
  (0 < t /\ t <= 1 # 2 /\ 0 <= identityX t - X /\ identityX t - X < budget n) \/
  (1 # 2 <= t /\ t < 1 /\ 0 <= X - identityX t /\ X - identityX t < budget n).

End BezierMath.

(** ** The host: After Effects objects as the scripts read them

    Every read of a host object can throw; a read is a function into
    [option], [None] being the exception.  Objects refer to one another
    through references into a store, so that a host structure may share
    or repeat a node. *)

Module Host.

Definition ref : Type := nat.

Inductive PropertyType : Type := PROPERTY | INDEXED_GROUP | NAMED_GROUP.

Inductive PropertyValueType : Type :=
| NO_VALUE | ThreeD_SPATIAL | ThreeD | TwoD_SPATIAL | TwoD | OneD
| COLOR | CUSTOM_VALUE | MARKER | LAYER_INDEX | MASK_INDEX | SHAPE | TEXT_DOCUMENT.

Definition PropertyValueType_eqb (a b : PropertyValueType) : bool :=
  match a, b with
  | NO_VALUE, NO_VALUE | ThreeD_SPATIAL, ThreeD_SPATIAL | ThreeD, ThreeD
  | TwoD_SPATIAL, TwoD_SPATIAL | TwoD, TwoD | OneD, OneD | COLOR, COLOR
  | CUSTOM_VALUE, CUSTOM_VALUE | MARKER, MARKER | LAYER_INDEX, LAYER_INDEX
  | MASK_INDEX, MASK_INDEX | SHAPE, SHAPE | TEXT_DOCUMENT, TEXT_DOCUMENT => true
  | _, _ => false
  end.

(** A value as the host hands it over.  [RObj s] is an exotic object,
    [s] what [String(val)] gives ([None] when that throws). *)
Inductive RawValue : Type :=
| RNum (n : Q)
| RArr (a : list Q)
| RStr (s : string)
| RBool (b : bool)
| RObj (s : option string).

Record HostObject : Type := mkHost {
  name : option string;
  matchName : option string;
  (* group side *)
  numProperties : option (option Z);          (* [Some None]: not a number *)
  property : nat -> option (option ref);      (* [Some None]: null *)
  propertyByName : string -> option (option ref);
  propertyType : option PropertyType;
  (* value side *)
  propertyValueType : option PropertyValueType;
  isTimeVarying : option bool;
  value : option RawValue;
  expressionEnabled : option bool;
  expression : option string;
  (* keyframes, indices from 1 *)
  numKeys : option nat;
  keyTime : nat -> option Q;
  keyValue : nat -> option RawValue;
  keyInInterpolationType : nat -> option Z;
  keyOutInterpolationType : nat -> option Z;
  keyInTemporalEase : nat -> option (list KeyframeEase);
  keyOutTemporalEase : nat -> option (list KeyframeEase);
  keyInSpatialTangent : nat -> option (option (list Q));
  keyOutSpatialTangent : nat -> option (option (list Q));
  keyRoving : nat -> option bool;
  keyTemporalAutoBezier : nat -> option bool;
  keyTemporalContinuous : nat -> option bool;
  keySpatialAutoBezier : nat -> option bool;
  keySpatialContinuous : nat -> option bool
}.

Definition Store : Type := ref -> HostObject.

(** An object every read of which throws (a stale or missing object). *)
Definition unreadable : HostObject :=
  mkHost None None None (fun _ => None) (fun _ => None) None
         None None None None None
         None (fun _ => None) (fun _ => None) (fun _ => None) (fun _ => None)
         (fun _ => None) (fun _ => None) (fun _ => None) (fun _ => None)
         (fun _ => None) (fun _ => None) (fun _ => None) (fun _ => None)
         (fun _ => None).

End Host.

(** ** [extractors/keyframe.jsx] *)

Module Keyframes.
Import Host.

(** What a call does: it returns a value or it throws. *)
Inductive Result (A : Type) : Type :=
| Returned (a : A)
| Thrown.
Arguments Returned {A} a.
Arguments Thrown {A}.

Inductive InterpolationName : Type :=
| LINEAR | BEZIER | HOLD
| RawCode (code : Z).   (* [String(type)] of an unknown code *)

(** [interpolationTypeToString].  The enumeration members the fallback
    compares with carry the same three codes. *)
Definition interpolationTypeToString (type : Z) : InterpolationName :=
  if (type =? 6612)%Z then LINEAR
  else if (type =? 6613)%Z then BEZIER
  else if (type =? 6614)%Z then HOLD
  else RawCode type.

Definition normalizeKeyValue (val : RawValue) : PropertyValue :=
  match val with
  | RNum n => VNum n
  | RArr a => VArr a
  | RStr s => VStr s
  | RBool b => VBool b
  | RObj (Some s) => VStr s
  | RObj None => VNull
  end.

Definition getPropertyValue (property : HostObject) : PropertyValue :=
  match value property with
  | None => VNull
  | Some val => normalizeKeyValue val
  end.

Record InterpolationType : Type :=
  mkInterp { inType : InterpolationName; outType : InterpolationName }.

Record TemporalEasing : Type := mkTemporal {
  inSpeed : list Q;
  inInfluence : list Q;
  outSpeed : list Q;
  outInfluence : list Q;
  cubicBezier : option CubicBezier      (* [None]: null *)
}.

Record SpatialEasing : Type :=
  mkSpatial { inTangent : list Q; outTangent : list Q }.

(** A keyframe descriptor.  An optional field is [None] when the script
    leaves it unset or sets it to null. *)
Record Keyframe : Type := mkKeyframe {
  index : nat;
  time : Q;
  frame : Q;
  kvalue : PropertyValue;
  interpolationType : option InterpolationType;
  temporalEasing : option TemporalEasing;
  spatialEasing : option SpatialEasing;
  roving : option bool;
  temporalAutoBezier : option bool;
  temporalContinuous : option bool;
  spatialAutoBezier : option bool;
  spatialContinuous : option bool
}.

Record AnimatedProperty : Type := mkProperty {
  pname : option string;                 (* [None]: null *)
  pmatchName : option string;
  isAnimated : bool;
  dimensions : nat;
  staticValue : option PropertyValue;    (* [None]: the field is absent *)
  keyframes : option (list Keyframe);    (* [None]: the field is absent *)
  pexpression : option string
}.

Section Extract.

(** The converter of [extractors/easing.jsx] the build includes. *)
Variable convertEasingWithValues :
  list KeyframeEase -> list KeyframeEase -> Q ->
  PropertyValue -> PropertyValue -> option CubicBezier.

(** The bezier of the outgoing segment of keyframe [i]: the value-aware
    conversion, then the simplified one, then null. *)
Definition segmentBezier (property : HostObject) (i : nat) (time : Q)
    (kfValue : PropertyValue) (outEase : list KeyframeEase) : option CubicBezier :=
  let simplified :=
    match keyInTemporalEase property (i + 1), keyTime property (i + 1) with
    | Some inEaseNext, Some nextTime =>
        convertEasingToCubicBezier outEase inEaseNext (nextTime - time)
    | _, _ => None
    end in
  match keyInTemporalEase property (i + 1), keyTime property (i + 1),
        keyValue property (i + 1) with
  | Some inEaseNext, Some nextTime, Some nextValue =>
      let segmentDuration := nextTime - time in
      match convertEasingWithValues outEase inEaseNext segmentDuration
              kfValue (normalizeKeyValue nextValue) with
      | Some easing => Some easing
      | None => simplified
      end
  | _, _, _ => simplified
  end.

Definition temporalEasingAt (property : HostObject) (numKeys i : nat) (time : Q)
    (kfValue : PropertyValue) : option TemporalEasing :=
  match keyOutTemporalEase property i, keyInTemporalEase property i with
  | Some outEase, Some inEase =>
      Some (mkTemporal (map speed inEase) (map influence inEase)
                       (map speed outEase) (map influence outEase)
                       (if (i <? numKeys)%nat
                        then segmentBezier property i time kfValue outEase
                        else None))
  | _, _ => None
  end.

Definition spatialEasingAt (property : HostObject) (i : nat) : option SpatialEasing :=
  match keyInSpatialTangent property i, keyOutSpatialTangent property i with
  | Some (Some inTangent), Some (Some outTangent) => Some (mkSpatial inTangent outTangent)
  | _, _ => None
  end.

(** One turn of the loop of [extractKeyframes]: the descriptor pushed
    for host index [i], or [None] when the turn ends in [continue]. *)
Definition keyframeAt (property : HostObject) (frameRate : Q) (numKeys i : nat)
    : option Keyframe :=
  match keyTime property i with
  | None => None
  | Some time =>
      let kfValue :=
        match keyValue property i with
        | Some value => normalizeKeyValue value
        | None => VNull
        end in
      Some (mkKeyframe i time (Qround_js (time * frameRate)) kfValue
              (match keyInInterpolationType property i,
                     keyOutInterpolationType property i with
               | Some inT, Some outT =>
                   Some (mkInterp (interpolationTypeToString inT)
                                  (interpolationTypeToString outT))
               | _, _ => None
               end)
              (temporalEasingAt property numKeys i time kfValue)
              (spatialEasingAt property i)
              (keyRoving property i)
              (keyTemporalAutoBezier property i)
              (keyTemporalContinuous property i)
              (keySpatialAutoBezier property i)
              (keySpatialContinuous property i))
  end.

(** [for (i = 1; i <= numKeys; i++)] over the host indices. *)
Fixpoint keyframeLoop (property : HostObject) (frameRate : Q) (numKeys : nat)
    (indices : list nat) : list Keyframe :=
  match indices with
  | [] => []
  | i :: rest =>
      match keyframeAt property frameRate numKeys i with
      | Some kf => kf :: keyframeLoop property frameRate numKeys rest
      | None => keyframeLoop property frameRate numKeys rest
      end
  end.

(** [extractKeyframes]; reading [numKeys] is not guarded. *)
Definition extractKeyframes (property : HostObject) (frameRate : Q)
    : Result (list Keyframe) :=
  match numKeys property with
  | None => Thrown
  | Some n => Returned (keyframeLoop property frameRate n (seq 1 n))
  end.

Definition dimensionsOf (property : HostObject) : nat :=
  match propertyValueType property with
  | Some ThreeD_SPATIAL | Some ThreeD => 3
  | Some TwoD_SPATIAL | Some TwoD => 2
  | _ => 1
  end.

Definition expressionOf (property : HostObject) : option string :=
  match expressionEnabled property, expression property with
  | Some true, Some e => if String.eqb e "" then None else Some e
  | _, _ => None
  end.

(** [extractAnimatedProperty]: [Returned None] is the [return null]
    of a property that holds no value. *)
Definition extractAnimatedProperty (property : HostObject) (frameRate : Q)
    : Result (option AnimatedProperty) :=
  match propertyValueType property with
  | Some NO_VALUE => Returned None
  | _ =>
      let animated :=
        match isTimeVarying property with
        | Some b => b
        | None => false
        end in
      if animated then
        match extractKeyframes property frameRate with
        | Thrown => Thrown
        | Returned kfs =>
            Returned (Some (mkProperty (name property) (matchName property) true
                              (dimensionsOf property) None (Some kfs)
                              (expressionOf property)))
        end
      else
        Returned (Some (mkProperty (name property) (matchName property) false
                          (dimensionsOf property)
                          (Some (getPropertyValue property)) None
                          (expressionOf property)))
  end.

End Extract.

(** The time of host keyframe [i] can be read. *)
Definition readable (property : HostObject) (i : nat) : bool :=
  match keyTime property i with
  | Some _ => true
  | None => false
  end.

End Keyframes.

(** ** [utils/property-walker.jsx] *)

Module Walker.
Import Host.

Definition PROPERTY_WALK_MAX_DEPTH : nat := 20.

(** What a walk does to the outside, in order: it probes a node it has
    entered (the read of [numProperties] behind the depth guard), and it
    invokes the callback. *)
Inductive Event : Type :=
| Entered (node : ref) (depth : nat)
| Called (prop : ref) (depth : nat).

Definition eventDepth (e : Event) : nat :=
  match e with
  | Entered _ d | Called _ d => d
  end.

Section Walk.

(** The callback: it transforms the caller's state and returns
    ([true]) or throws ([false]). *)
Variable S : Type.
Variable callback : ref -> nat -> S -> S * bool.
Variable store : Store.

(** The state of a walk: the caller's state and the events so far,
    latest first. *)
Definition WalkState : Type := (S * list Event)%type.

Definition invoke (prop : ref) (depth : nat) (w : WalkState) : WalkState * bool :=
  let (s, ok) := callback prop depth (fst w) in
  ((s, Called prop depth :: snd w), ok).

(** [numProperties] read as the scripts use it: a positive number,
    or nothing to enumerate. *)
Definition childCount (node : HostObject) : option nat :=
  match numProperties node with
  | Some (Some n) => if (0 <? n)%Z then Some (Z.to_nat n) else None
  | _ => None
  end.

(** The recursive call [walkPropertyGroup(prop, callback, depth + 1)] as
    the loop body sees it; [None] when the fuel runs out below. *)
Definition Recurse : Type := ref -> nat -> WalkState -> option WalkState.

(** The [catch (e)] branch of the loop body: recurse when the node
    counts children, invoke the callback otherwise; a failure in here is
    swallowed by [catch (e2)]. *)
Definition catchBranch (recurse : Recurse) (prop : ref) (depth : nat) (w : WalkState)
    : option WalkState :=
  match numProperties (store prop) with
  | None => Some w
  | Some _ =>
      match childCount (store prop) with
      | Some _ => recurse prop (depth + 1)%nat w
      | None => Some (fst (invoke prop depth w))
      end
  end.

(** The second [try] of the loop body, for a child that was fetched. *)
Definition visitChild (recurse : Recurse) (prop : ref) (depth : nat) (w : WalkState)
    : option WalkState :=
  match propertyType (store prop) with
  | Some PROPERTY =>
      let (w1, ok) := invoke prop depth w in
      if ok then Some w1 else catchBranch recurse prop depth w1
  | Some _ => recurse prop (depth + 1)%nat w
  | None => catchBranch recurse prop depth w
  end.

(** [for (i = 1; i <= numProps; i++)] over the indices left. *)
Fixpoint walkChildren (recurse : Recurse) (group : ref) (depth : nat)
    (indices : list nat) (w : WalkState) : option WalkState :=
  match indices with
  | [] => Some w
  | i :: rest =>
      match property (store group) i with
      | Some (Some prop) =>
          match visitChild recurse prop depth w with
          | Some w1 => walkChildren recurse group depth rest w1
          | None => None
          end
      | _ => walkChildren recurse group depth rest w
      end
  end.

(** [walkPropertyGroup], [fuel] bounding the nesting of calls; [None]
    when the fuel runs out. *)
Fixpoint walkPropertyGroup (fuel : nat) (propertyGroup : option ref) (depth : nat)
    (w : WalkState) {struct fuel} : option WalkState :=
  match fuel with
  | O => None
  | Datatypes.S fuel' =>
      if (PROPERTY_WALK_MAX_DEPTH <? depth)%nat then Some w
      else
        match propertyGroup with
        | None => Some w
        | Some g =>
            let w := (fst w, Entered g depth :: snd w) in
            match childCount (store g) with
            | None => Some w
            | Some numProps =>
                walkChildren
                  (fun prop depth' w' => walkPropertyGroup fuel' (Some prop) depth' w')
                  g depth (seq 1 numProps) w
            end
        end
  end.

End Walk.

(** *** Vocabulary for the walker's properties *)

(** [w'] extends [w] by events at depths from [d] to the bound. *)
Definition extends {S : Type} (d : nat) (w w' : WalkState S) : Prop :=
  exists evs, snd w' = evs ++ snd w /\
              Forall (fun e => (d <= eventDepth e <= PROPERTY_WALK_MAX_DEPTH)%nat) evs.

(** A recursive call that returns, adding only events within the bound. *)
Definition returnsWithin {S : Type} (d : nat) (recurse : Recurse S) : Prop :=
  forall prop w, exists w', recurse prop (d + 1)%nat w = Some w' /\ extends d w w'.

(** Whatever [r1] returns, [r2] returns too. *)
Definition refines {S : Type} (r1 r2 : Recurse S) : Prop :=
  forall prop d w w', r1 prop d w = Some w' -> r2 prop d w = Some w'.

(** [getAnimatedProperties] collects through the walker; its callback
    never throws.  Here the callback records every leaf it is given. *)
Definition collect (prop : ref) (depth : nat) (found : list (ref * nat))
    : list (ref * nat) * bool :=
  (found ++ [(prop, depth)], true).

(** A self-referential structure: the only child of node 0 is node 0. *)
Definition selfLoop : Store :=
  fun _ =>
    mkHost (Some "Loop"%string) (Some "ADBE Loop"%string)
           (Some (Some 1%Z)) (fun _ => Some (Some 0%nat)) (fun _ => Some None)
           (Some NAMED_GROUP)
           None None None None None
           None (fun _ => None) (fun _ => None) (fun _ => None) (fun _ => None)
           (fun _ => None) (fun _ => None) (fun _ => None) (fun _ => None)
           (fun _ => None) (fun _ => None) (fun _ => None) (fun _ => None)
           (fun _ => None).

(** A chain of groups: node [k] has the single child [k + 1]; node [n]
    and the nodes after it are leaves. *)
Definition chain (n : nat) : Store :=
  fun k =>
    mkHost (Some "Node"%string) (Some "ADBE Node"%string)
           (if (k <? n)%nat then Some (Some 1%Z) else Some None)
           (fun _ => Some (Some (k + 1)%nat)) (fun _ => Some None)
           (if (k <? n)%nat then Some NAMED_GROUP else Some PROPERTY)
           None None None None None
           None (fun _ => None) (fun _ => None) (fun _ => None) (fun _ => None)
           (fun _ => None) (fun _ => None) (fun _ => None) (fun _ => None)
           (fun _ => None) (fun _ => None) (fun _ => None) (fun _ => None)
           (fun _ => None).

(** [isPropertyAnimated]; [None] is a null or undefined argument.  A
    [numKeys] that cannot be read, or is no number, gives false. *)
Definition isPropertyAnimated (property : option HostObject) : bool :=
  match property with
  | None => false
  | Some p =>
      match numKeys p with
      | Some n => (0 <? n)%nat
      | None => false
      end
  end.

(** The callback [getAnimatedProperties] hands to the walker: it pushes
    the property when it is animated, and never throws. *)
Definition pushIfAnimated (store : Store) (property : ref) (depth : nat)
    (results : list ref) : list ref * bool :=
  (if isPropertyAnimated (Some (store property)) then results ++ [property] else results,
   true).

(** [getAnimatedProperties]; [None] when the fuel of the walk runs out. *)
Definition getAnimatedProperties (store : Store) (fuel : nat) (propertyGroup : option ref)
    : option (list ref) :=
  option_map fst
    (walkPropertyGroup (list ref) (pushIfAnimated store) store fuel propertyGroup 0 ([], [])).

(** The leaves below a group, [d] being the depth of the group: the
    children whose type reads as a property, and the leaves below the
    children whose type reads as a group, as long as the depth stays
    within the bound. *)
Inductive reaches (store : Store) : ref -> nat -> ref -> Prop :=
| reaches_child (g : ref) (d count i : nat) (prop : ref) :
    (d <= PROPERTY_WALK_MAX_DEPTH)%nat ->
    childCount (store g) = Some count -> (1 <= i <= count)%nat ->
    property (store g) i = Some (Some prop) ->
    propertyType (store prop) = Some PROPERTY ->
    reaches store g d prop
| reaches_below (g : ref) (d count i : nat) (sub leaf : ref) :
    (d <= PROPERTY_WALK_MAX_DEPTH)%nat ->
    childCount (store g) = Some count -> (1 <= i <= count)%nat ->
    property (store g) i = Some (Some sub) ->
    propertyType (store sub) = Some INDEXED_GROUP \/
    propertyType (store sub) = Some NAMED_GROUP ->
    reaches store sub (d + 1) leaf ->
    reaches store g d leaf.

(** A recursive call keeps the property [P] of the caller's state. *)
Definition keeps {S : Type} (P : S -> Prop) (recurse : Recurse S) : Prop :=
  forall prop d (w w' : WalkState S), recurse prop d w = Some w' -> P (fst w) -> P (fst w').

(** A property with keyframes at the end of a chain of [n] groups. *)
Definition keyedChain (n : nat) : Store :=
  fun k =>
    mkHost (Some "Node"%string) (Some "ADBE Node"%string)
           (if (k <? n)%nat then Some (Some 1%Z) else Some None)
           (fun _ => Some (Some (k + 1)%nat)) (fun _ => Some None)
           (if (k <? n)%nat then Some NAMED_GROUP else Some PROPERTY)
           None None None None None
           (Some 2%nat) (fun _ => None) (fun _ => None) (fun _ => None) (fun _ => None)
           (fun _ => None) (fun _ => None) (fun _ => None) (fun _ => None)
           (fun _ => None) (fun _ => None) (fun _ => None) (fun _ => None)
           (fun _ => None).


End Walker.

(** ** [extractors/shape.jsx] *)

Module Shape.
Import Host Keyframes.
Local Open Scope string_scope.
Local Open Scope list_scope.
Local Set Warnings "-register-all".

Inductive ShapeType : Type :=
| group | path | fill | stroke | trim | transform | rectangle | ellipse
| polystar | merge | repeater | roundCorners | unknown.

Definition getShapeType (matchName : string) : ShapeType :=
  if String.eqb matchName "ADBE Vector Group" then group
  else if String.eqb matchName "ADBE Vector Shape - Group" then path
  else if String.eqb matchName "ADBE Vector Graphic - Fill" then fill
  else if String.eqb matchName "ADBE Vector Graphic - Stroke" then stroke
  else if String.eqb matchName "ADBE Vector Filter - Trim" then trim
  else if String.eqb matchName "ADBE Vector Transform Group" then transform
  else if String.eqb matchName "ADBE Vector Shape - Rect" then rectangle
  else if String.eqb matchName "ADBE Vector Shape - Ellipse" then ellipse
  else if String.eqb matchName "ADBE Vector Shape - Star" then polystar
  else if String.eqb matchName "ADBE Vector Filter - Merge" then merge
  else if String.eqb matchName "ADBE Vector Filter - Repeater" then repeater
  else if String.eqb matchName "ADBE Vector Filter - RC" then roundCorners
  else unknown.

(** One child of a shape group as the extractor reports it. *)
Inductive ShapeGroupData : Type :=
| mkShape (name matchName : string) (type : ShapeType)
          (contents : option (list ShapeGroupData))
          (properties : option (list (option AnimatedProperty))).

Definition contentsOf (d : ShapeGroupData) : option (list ShapeGroupData) :=
  match d with mkShape _ _ _ c _ => c end.

(** A call returns, throws, or cannot be made because the engine's call
    stack has no room left for it.  To a [catch] the stack overflow is an
    exception like any other. *)
Inductive Outcome (A : Type) : Type :=
| Done (a : A)
| Threw
| Overflowed.
Arguments Done {A} a.
Arguments Threw {A}.
Arguments Overflowed {A}.

Section Extract.

Variable convertEasingWithValues :
  list KeyframeEase -> list KeyframeEase -> Q ->
  PropertyValue -> PropertyValue -> option CubicBezier.
Variable store : Store.

(** [numProperties] of a group the loops enumerate: a positive number. *)
Definition childCount (node : HostObject) : option nat :=
  match numProperties node with
  | Some (Some n) => if (0 <? n)%Z then Some (Z.to_nat n) else None
  | _ => None
  end.

(** The loop body shared by [extractShapeElementProperties] and
    [extractGroupProperties] (their texts agree): what one index adds. *)
Definition valueProperty (frameRate : Q) (owner : HostObject) (i : nat)
    : list (option AnimatedProperty) :=
  match property owner i with
  | Some (Some sub) =>
      match propertyValueType (store sub) with
      | None | Some NO_VALUE | Some CUSTOM_VALUE => []
      | Some _ =>
          match extractAnimatedProperty convertEasingWithValues (store sub) frameRate with
          | Returned d => [d]
          | Thrown => []
          end
      end
  | _ => []
  end.

Definition extractShapeElementProperties (frameRate : Q) (shapeElement : HostObject)
    : list (option AnimatedProperty) :=
  match childCount shapeElement with
  | None => []
  | Some numProps => flat_map (valueProperty frameRate shapeElement) (seq 1 numProps)
  end.

Definition extractGroupProperties (frameRate : Q) (transformGroup : HostObject)
    : list (option AnimatedProperty) :=
  match childCount transformGroup with
  | None => []
  | Some numProps => flat_map (valueProperty frameRate transformGroup) (seq 1 numProps)
  end.

(** The recursive call [extractShapeGroup(subContents)] as the loop
    body sees it. *)
Definition Recurse : Type := ref -> Outcome (list ShapeGroupData).

(** The descriptor of one fetched child: the reads of [name] and
    [matchName] are not guarded; a group recurses into its contents and
    extracts its transform, each inside its own [try].  The [catch]
    around the recursive call takes whatever the call throws, the
    overflow of the stack included, and sets [contents] to the empty
    array. *)
Definition extractItem (recurse : Recurse) (frameRate : Q) (prop : ref)
    : Outcome ShapeGroupData :=
  match name (store prop), matchName (store prop) with
  | Some nm, Some mn =>
      if String.eqb mn "ADBE Vector Group" then
        let properties :=
          match propertyByName (store prop) "ADBE Vector Transform Group" with
          | None => Some []
          | Some None => None
          | Some (Some groupTransform) =>
              Some (extractGroupProperties frameRate (store groupTransform))
          end in
        match propertyByName (store prop) "ADBE Vectors Group" with
        | None => Done (mkShape nm mn (getShapeType mn) (Some []) properties)
        | Some None => Done (mkShape nm mn (getShapeType mn) None properties)
        | Some (Some subContents) =>
            match recurse subContents with
            | Done contents =>
                Done (mkShape nm mn (getShapeType mn) (Some contents) properties)
            | Threw | Overflowed =>
                Done (mkShape nm mn (getShapeType mn) (Some []) properties)
            end
        end
      else
        Done (mkShape nm mn (getShapeType mn) None
                (Some (extractShapeElementProperties frameRate (store prop))))
  | _, _ => Threw
  end.

(** [for (i = 1; i <= numProps; i++)] over the indices left, [result]
    being the array built so far. *)
Fixpoint shapeChildren (recurse : Recurse) (frameRate : Q) (propertyGroup : ref)
    (indices : list nat) (result : list ShapeGroupData)
    : Outcome (list ShapeGroupData) :=
  match indices with
  | [] => Done result
  | i :: rest =>
      match property (store propertyGroup) i with
      | Some (Some prop) =>
          match extractItem recurse frameRate prop with
          | Done item =>
              shapeChildren recurse frameRate propertyGroup rest (result ++ [item])
          | Threw => Threw
          | Overflowed => Overflowed
          end
      | _ => shapeChildren recurse frameRate propertyGroup rest result
      end
  end.

(** [extractShapeGroup]; [frameRate] is the module-level
    [_shapeExtractFrameRate] at the time of the call.  The function has
    no depth parameter and no guard: what ends a descent is the engine's
    call stack.  [room] is the number of nested calls of the function
    the stack still has room for (the frames of the helpers are not
    counted); a call made with none left overflows the stack. *)
Fixpoint extractShapeGroup (room : nat) (frameRate : Q) (propertyGroup : ref)
    {struct room} : Outcome (list ShapeGroupData) :=
  match room with
  | O => Overflowed
  | S room' =>
      match childCount (store propertyGroup) with
      | None => Done []
      | Some numProps =>
          shapeChildren (extractShapeGroup room' frameRate) frameRate propertyGroup
            (seq 1 numProps) []
      end
  end.

(** [extractShapeData]: the first component is [_shapeExtractFrameRate]
    after the call, [current] being its value before; [room] is the room
    on the stack for the calls of [extractShapeGroup]. *)
Definition extractShapeData (room : nat) (current : Q) (shapeLayer : HostObject)
    (frameRate : option Q) : Q * Outcome (list ShapeGroupData) :=
  let current :=
    match frameRate with
    | Some f => if Qltb 0 f then f else current
    | None => current
    end in
  match propertyByName shapeLayer "ADBE Root Vectors Group" with
  | None | Some None => (current, Done [])
  | Some (Some contents) => (current, extractShapeGroup room current contents)
  end.

End Extract.

(** How deep a reported list nests groups. *)
Fixpoint nestingOf (d : ShapeGroupData) : nat :=
  match d with
  | mkShape _ _ _ None _ => 1
  | mkShape _ _ _ (Some contents) _ => S (list_max (map nestingOf contents))
  end.

Definition nesting (l : list ShapeGroupData) : nat := list_max (map nestingOf l).

(** Shape content nested [n] groups deep: the contents node [2k] holds
    the single group [2k + 1], whose contents are the node [2k + 2]; the
    contents node of level [n] is empty. *)
Definition nestedGroups (n : nat) : Store :=
  fun r =>
    mkHost (Some "Group") (Some "ADBE Vector Group")
           (Some (Some (if (Nat.div2 r <? n)%nat then 1%Z else 0%Z)))
           (fun _ => Some (Some (r + 1)%nat))
           (fun s => if String.eqb s "ADBE Vectors Group"
                     then Some (Some (r + 1)%nat) else Some None)
           (Some NAMED_GROUP)
           None None None None None
           None (fun _ => None) (fun _ => None) (fun _ => None) (fun _ => None)
           (fun _ => None) (fun _ => None) (fun _ => None) (fun _ => None)
           (fun _ => None) (fun _ => None) (fun _ => None) (fun _ => None)
           (fun _ => None).

(** A nest of [m] groups, the innermost with empty contents: what the
    extractor reports for [nestedGroups n] from level [k] on, [m = n - k]
    levels being left. *)
Fixpoint nestedReport (m : nat) : list ShapeGroupData :=
  match m with
  | O => []
  | S m' => [mkShape "Group" "ADBE Vector Group" group (Some (nestedReport m')) None]
  end.

(** Self-referential shape content: the contents of the group [1] of the
    contents node [0] are the node [0] again. *)
Definition selfNested : Store :=
  fun r =>
    mkHost (Some "Group") (Some "ADBE Vector Group")
           (Some (Some 1%Z))
           (fun _ => Some (Some 1%nat))
           (fun s => if String.eqb s "ADBE Vectors Group"
                     then Some (Some 0%nat) else Some None)
           (Some NAMED_GROUP)
           None None None None None
           None (fun _ => None) (fun _ => None) (fun _ => None) (fun _ => None)
           (fun _ => None) (fun _ => None) (fun _ => None) (fun _ => None)
           (fun _ => None) (fun _ => None) (fun _ => None) (fun _ => None)
           (fun _ => None).

(** A shape layer whose root vectors group is the node [contents]. *)
Definition shapeLayerOver (contents : ref) : HostObject :=
  mkHost (Some "Shape Layer 1") (Some "ADBE Vector Layer")
         None (fun _ => None)
         (fun s => if String.eqb s "ADBE Root Vectors Group"
                   then Some (Some contents) else Some None)
         None
         None None None None None
         None (fun _ => None) (fun _ => None) (fun _ => None) (fun _ => None)
         (fun _ => None) (fun _ => None) (fun _ => None) (fun _ => None)
         (fun _ => None) (fun _ => None) (fun _ => None) (fun _ => None)
         (fun _ => None).

(** Shape content is well-founded when a measure on nodes decreases from
    a contents node to the contents of each group it enumerates. *)
Definition wellFounded (store : Store) (rank : ref -> nat) : Prop :=
  forall (g : ref) (count i : nat) (prop sub : ref),
    childCount (store g) = Some count ->
    (1 <= i <= count)%nat ->
    property (store g) i = Some (Some prop) ->
    propertyByName (store prop) "ADBE Vectors Group" = Some (Some sub) ->
    (rank sub < rank g)%nat.

(** *** Vocabulary for the properties of the reported items *)

(** An item and all the items below it are typed by their match names:
    the type is that of the match name; contents are reported for groups
    only; an item that is no group always carries its properties. *)
Fixpoint typed (d : ShapeGroupData) : Prop :=
  match d with
  | mkShape _ matchName type contents properties =>
      type = getShapeType matchName /\
      (type = group <-> matchName = "ADBE Vector Group") /\
      (contents <> None -> type = group) /\
      (type <> group -> properties <> None) /\
      match contents with
      | None => True
      | Some l =>
          (fix all (l : list ShapeGroupData) : Prop :=
             match l with
             | [] => True
             | x :: r => typed x /\ all r
             end) l
      end
  end.

(** The children a call of [extractShapeGroup] fetches, in index order:
    those of the indices [1 .. numProperties] at which the host answers
    an object. *)
Definition fetched (store : Store) (propertyGroup : ref) : list ref :=
  match childCount (store propertyGroup) with
  | None => []
  | Some numProps =>
      flat_map (fun i => match property (store propertyGroup) i with
                         | Some (Some prop) => [prop]
                         | _ => []
                         end) (seq 1 numProps)
  end.

(** The item carries the name and the match name of the host object. *)
Definition describes (store : Store) (d : ShapeGroupData) (prop : ref) : Prop :=
  match d with
  | mkShape nm mn _ _ _ => name (store prop) = Some nm /\ matchName (store prop) = Some mn
  end.

(** [_shapeExtractFrameRate] as the file initialises it. *)
Definition initialFrameRate : Q := 30.

(** [_shapeExtractFrameRate] after a run of calls of [extractShapeData],
    each given by its [frameRate] argument ([None]: not a number). *)
Definition frameRateAfter (calls : list (option Q)) (current : Q) : Q :=
  fold_left (fun current frameRate =>
               match frameRate with
               | Some f => if Qltb 0 f then f else current
               | None => current
               end) calls current.

(** The positive frame rates among the arguments of a run of calls. *)
Definition positiveRates (calls : list (option Q)) : list Q :=
  flat_map (fun frameRate =>
              match frameRate with
              | Some f => if Qltb 0 f then [f] else []
              | None => []
              end) calls.


End Shape.

(** ** [extractors/layer.jsx]: the animation summary *)

Module Summary.
Import Keyframes.

(** The [positionSeparated] object of a transform descriptor. *)
Record SeparatedPosition : Type := mkSeparated {
  sx : option AnimatedProperty;
  sy : option AnimatedProperty;
  sz : option AnimatedProperty
}.

(** The descriptor [extractTransform] builds.  A slot is [None] when the
    field is unset or null. *)
Record TransformProperties : Type := mkTransform {
  anchorPoint : option AnimatedProperty;
  position : option AnimatedProperty;
  positionSeparated : option SeparatedPosition;
  scale : option AnimatedProperty;
  rotation : option AnimatedProperty;
  rotationX : option AnimatedProperty;
  rotationY : option AnimatedProperty;
  rotationZ : option AnimatedProperty;
  orientation : option AnimatedProperty;
  opacity : option AnimatedProperty
}.

(** The part of the layer descriptor the summary reads. *)
Record LayerData : Type := mkLayer { transform : option TransformProperties }.

Record PropertySummary : Type := mkPropertySummary {
  name : option string;
  keyframeCount : nat;
  startValue : PropertyValue;
  endValue : PropertyValue;
  duration : Q;
  delay : Q;
  easing : option CubicBezier
}.

Record AnimationSummary : Type := mkSummary {
  isAnimated : bool;
  animatedPropertyCount : nat;
  totalKeyframes : nat;
  properties : list PropertySummary
}.

(** [checkProp]: the update of the enclosing [summary] object. *)
Definition checkProp (summary : AnimationSummary) (prop : option AnimatedProperty)
    : AnimationSummary :=
  match prop with
  | None => summary
  | Some prop =>
      if negb (Keyframes.isAnimated prop) then summary
      else
        match keyframes prop with
        | None => summary
        | Some kfs =>
            if (List.length kfs <? 2)%nat then summary
            else
              match kfs with
              | [] => summary
              | firstKf :: _ =>
                  let lastKf := last kfs firstKf in
                  mkSummary true
                    (animatedPropertyCount summary + 1)
                    (totalKeyframes summary + List.length kfs)
                    (properties summary ++
                     [mkPropertySummary (pname prop) (List.length kfs)
                        (kvalue firstKf) (kvalue lastKf)
                        (time lastKf - time firstKf) (time firstKf)
                        (if (2 <=? List.length kfs)%nat
                         then match temporalEasing firstKf with
                              | Some te => cubicBezier te
                              | None => None
                              end
                         else None)])
              end
        end
  end.

(** [propsToCheck]: the five standard slots, then the 3D rotation axes
    that are set. *)
Definition propsToCheck (transform : TransformProperties)
    : list (option AnimatedProperty) :=
  [anchorPoint transform; position transform; scale transform;
   rotation transform; opacity transform]
  ++ (match rotationX transform with Some p => [Some p] | None => [] end)
  ++ (match rotationY transform with Some p => [Some p] | None => [] end)
  ++ (match rotationZ transform with Some p => [Some p] | None => [] end).

Definition computeAnimationSummary (layerData : LayerData) : AnimationSummary :=
  let summary := mkSummary false 0 0 [] in
  match transform layerData with
  | None => summary
  | Some transform =>
      let summary := fold_left checkProp (propsToCheck transform) summary in
      match positionSeparated transform with
      | None => summary
      | Some sep =>
          let summary := checkProp summary (sx sep) in
          let summary := checkProp summary (sy sep) in
          match sz sep with
          | Some z => checkProp summary (Some z)
          | None => summary
          end
      end
  end.

(** *** The summary as the specification words it *)

(** The transform properties the aggregator scans, in scan order. *)
Definition scannedProperties (transform : TransformProperties)
    : list (option AnimatedProperty) :=
  [anchorPoint transform; position transform; scale transform;
   rotation transform; opacity transform;
   rotationX transform; rotationY transform; rotationZ transform]
  ++ match positionSeparated transform with
     | Some sep => [sx sep; sy sep; sz sep]
     | None => []
     end.

(** The keyframe list of a slot; an empty or missing slot has none. *)
Definition keyframeList (slot : option AnimatedProperty) : list Keyframe :=
  match slot with
  | Some prop => match keyframes prop with Some kfs => kfs | None => [] end
  | None => []
  end.

(** A property qualifies when its keyframe list has at least 2 entries. *)
Definition qualifies (slot : option AnimatedProperty) : bool :=
  (2 <=? List.length (keyframeList slot))%nat.

(** The segment bezier of a keyframe: null when it has none. *)
Definition segmentBezierOf (kf : Keyframe) : option CubicBezier :=
  match temporalEasing kf with
  | Some te => cubicBezier te
  | None => None
  end.

(** The digest of a qualifying property. *)
Definition digest (slot : option AnimatedProperty) : list PropertySummary :=
  match slot, keyframeList slot with
  | Some prop, firstKf :: rest =>
      let lastKf := last rest firstKf in
      [mkPropertySummary (pname prop) (List.length (firstKf :: rest))
         (kvalue firstKf) (kvalue lastKf)
         (time lastKf - time firstKf) (time firstKf)
         (segmentBezierOf firstKf)]
  | _, _ => []
  end.

(** A descriptor as [extractAnimatedProperty] builds it: the keyframes
    field is set exactly on the animated branch. *)
Definition wellFormed (slot : option AnimatedProperty) : Prop :=
  match slot with
  | Some prop => keyframes prop <> None -> Keyframes.isAnimated prop = true
  | None => True
  end.

(** A slot as [extractTransform] fills it: unset, or what a call of
    [extractAnimatedProperty] returned (null or a descriptor). *)
Definition extracted (slot : option AnimatedProperty) : Prop :=
  slot = None \/
  exists (convert : list KeyframeEase -> list KeyframeEase -> Q ->
                    PropertyValue -> PropertyValue -> option CubicBezier)
         (property : Host.HostObject) (frameRate : Q),
    extractAnimatedProperty convert property frameRate = Returned slot.

(** The internal consistency of a summary. *)
Definition consistent (s : AnimationSummary) : Prop :=
  animatedPropertyCount s = List.length (properties s) /\
  totalKeyframes s = list_sum (map keyframeCount (properties s)) /\
  (isAnimated s = true <-> (0 < animatedPropertyCount s)%nat).

(** What a scanned slot adds to the list of digests. *)
Definition contribution (slot : option AnimatedProperty) : list PropertySummary :=
  if qualifies slot then digest slot else [].

(** The slots the code visits, in order: [propsToCheck], then the
    separated position. *)
Definition visited (t : TransformProperties) : list (option AnimatedProperty) :=
  propsToCheck t ++
  match positionSeparated t with
  | Some sep => [sx sep; sy sep] ++ match sz sep with Some z => [Some z] | None => [] end
  | None => []
  end.

End Summary.

(** ** [extractors/transform.jsx] *)

Module Transform.
Import Host Keyframes.
Local Open Scope string_scope.

(** The transform group of a layer as [extractTransform] reads it.  A
    read throws ([None]) or yields what the host has there: a property,
    or nothing ([Some None]: undefined or null). *)
Record TransformGroup : Type := mkTransformGroup {
  anchorPoint : option (option HostObject);
  position : option (option HostObject);
  scale : option (option HostObject);
  rotation : option (option HostObject);
  opacity : option (option HostObject);
  xRotation : option (option HostObject);
  yRotation : option (option HostObject);
  zRotation : option (option HostObject);
  orientation : option (option HostObject);
  (* [transformGroup.property(name)] *)
  propertyNamed : string -> option (option HostObject);
  (* [dimensionsSeparated], read on the object [property("ADBE Position")] gave *)
  dimensionsSeparated : option bool
}.

Record Layer : Type := mkLayerHost {
  transform : option (option TransformGroup);
  threeDLayer : option bool
}.

(** The argument of a call: the object, or nothing.  Every read on
    undefined or null throws, as on [unreadable]. *)
Definition argument (o : option HostObject) : HostObject :=
  match o with
  | Some p => p
  | None => unreadable
  end.

(** The descriptor [extractTransform] leaves when no read succeeds. *)
Definition emptyTransform : Summary.TransformProperties :=
  Summary.mkTransform None None None None None None None None None None.

Section Extract.

Variable convertEasingWithValues :
  list KeyframeEase -> list KeyframeEase -> Q ->
  PropertyValue -> PropertyValue -> option CubicBezier.

(** [try { result.f = extractAnimatedProperty(read, frameRate); } catch (e) {}]:
    the field is left unset when the read or the call throws, and is
    null when the call returns null. *)
Definition slot (read : option (option HostObject)) (frameRate : Q)
    : option AnimatedProperty :=
  match read with
  | None => None
  | Some p =>
      match extractAnimatedProperty convertEasingWithValues (argument p) frameRate with
      | Returned d => d
      | Thrown => None
      end
  end.

Definition extractTransform (layer : Layer) (frameRate : Q) : Summary.TransformProperties :=
  match transform layer with
  | None => emptyTransform
  | Some None => emptyTransform   (* every read on the missing group throws *)
  | Some (Some transformGroup) =>
      let positionSeparated :=
        match propertyNamed transformGroup "ADBE Position" with
        | Some (Some _) =>
            match dimensionsSeparated transformGroup with
            | Some b => b
            | None => false
            end
        | _ => false
        end in
      let is3D :=
        match threeDLayer layer with
        | Some b => b
        | None => false
        end in
      Summary.mkTransform
        (slot (anchorPoint transformGroup) frameRate)
        (if positionSeparated then None else slot (position transformGroup) frameRate)
        (if positionSeparated
         then Some (Summary.mkSeparated
                      (slot (propertyNamed transformGroup "ADBE Position_0") frameRate)
                      (slot (propertyNamed transformGroup "ADBE Position_1") frameRate)
                      (slot (propertyNamed transformGroup "ADBE Position_2") frameRate))
         else None)
        (slot (scale transformGroup) frameRate)
        (if is3D then None else slot (rotation transformGroup) frameRate)
        (if is3D then slot (xRotation transformGroup) frameRate else None)
        (if is3D then slot (yRotation transformGroup) frameRate else None)
        (if is3D then slot (zRotation transformGroup) frameRate else None)
        (if is3D then slot (orientation transformGroup) frameRate else None)
        (slot (opacity transformGroup) frameRate)
  end.

(** The summary [extractLayer] stores when it gets to its end.  Of the
    statements of [extractLayer] two matter to it:
    [result.transform = extractTransform(layer, frameRate)] and, last,
    [result.animationSummary = computeAnimationSummary(result)]; those
    between them leave [result.transform] alone (when one of them throws,
    [extractLayer] throws and stores nothing). *)
Definition animationSummaryOf (layer : Layer) (frameRate : Q) : Summary.AnimationSummary :=
  Summary.computeAnimationSummary
    (Summary.mkLayer (Some (extractTransform layer frameRate))).

End Extract.

End Transform.

(** ** The plugin's readers of the layer descriptor *)

(** [findAnimatedProperty] of [generators/step-chart.ts] and
    [getAnimatedTransformProps], [findKeyframeAtTime] of the CSS
    generator (src/unnamed/part_005).  [None] for the result of a call on
    a layer is the [TypeError] of a layer without [transform]. *)
Module Readers.
Import Keyframes Summary.

(** The array both functions build: the five standard slots, then the
    separated position, then the 3D rotation axes that are set. *)
Definition allProps (t : TransformProperties) : list (option AnimatedProperty) :=
  [anchorPoint t; position t; scale t; rotation t; opacity t]
  ++ (match positionSeparated t with
      | Some sep =>
          [sx sep; sy sep] ++ (match sz sep with Some z => [Some z] | None => [] end)
      | None => []
      end)
  ++ (match rotationX t with Some p => [Some p] | None => [] end)
  ++ (match rotationY t with Some p => [Some p] | None => [] end)
  ++ (match rotationZ t with Some p => [Some p] | None => [] end).

Definition option_string_eqb (a b : option string) : bool :=
  match a, b with
  | Some x, Some y => String.eqb x y
  | None, None => true
  | _, _ => false
  end.

(** [findAnimatedProperty(layer, name)]: the first property of the array
    whose name is [name]. *)
Definition findAnimatedProperty (layer : LayerData) (name : option string)
    : option (option AnimatedProperty) :=
  match transform layer with
  | None => None
  | Some t =>
      Some (match find (fun p => match p with
                                 | Some d => option_string_eqb (pname d) name
                                 | None => false
                                 end) (allProps t) with
            | Some p => p
            | None => None
            end)
  end.

(** [getAnimatedTransformProps(layer)]: the properties of the array
    that are set and animated. *)
Definition getAnimatedTransformProps (layer : LayerData) : option (list AnimatedProperty) :=
  match transform layer with
  | None => None
  | Some t =>
      Some (flat_map (fun p => match p with
                               | Some d => if Keyframes.isAnimated d then [d] else []
                               | None => []
                               end) (allProps t))
  end.

(** The tolerance of [findKeyframeAtTime]. *)
Definition timeTolerance : Q := 1 # 1000.

Definition atTime (t : Q) (kf : Keyframe) : bool :=
  Qltb (Qabs (time kf - t)) timeTolerance.

(** [findKeyframeAtTime]: the loop runs from the last keyframe down to
    the first and returns at the first match. *)
Definition findKeyframeAtTime (keyframes : list Keyframe) (t : Q) : option Keyframe :=
  find (atTime t) (rev keyframes).

(** Where an entry of the summary comes from: an animated property of
    that name with at least 2 keyframes, as many as the entry counts. *)
Definition sourceOf (entry : PropertySummary) (prop : AnimatedProperty) : Prop :=
  Keyframes.isAnimated prop = true /\
  Summary.name entry = pname prop /\
  exists kfs, keyframes prop = Some kfs /\ (2 <= List.length kfs)%nat /\
              keyframeCount entry = List.length kfs.

End Readers.

(** ** The time range of the animations (the loop is the same in
       [getCompositionAnimationRange] of [generators/header-section.ts]
       and [getEffectiveTimeRange] of the timeline generator,
       src/unnamed/part_002) *)

Module TimeRange.
Import Summary.

(** The part of a composition the two functions read: the animation
    summary of each layer, and the duration. *)
Record Composition : Type := mkComposition {
  layers : list AnimationSummary;
  compDuration : Q
}.

(** [minTime] and [maxTime]: [None] before the first property is
    scanned ([Infinity] and [-Infinity]); they become numbers together,
    every delay and duration being a number. *)
Definition Bounds : Type := option (Q * Q).

Definition scanProperty (bounds : Bounds) (prop : PropertySummary) : Bounds :=
  let propStart := delay prop in
  let propEnd := delay prop + duration prop in
  match bounds with
  | None => Some (propStart, propEnd)
  | Some (minTime, maxTime) =>
      Some (if Qltb propStart minTime then propStart else minTime,
            if Qltb maxTime propEnd then propEnd else maxTime)
  end.

Definition scanLayer (bounds : Bounds) (layer : AnimationSummary) : Bounds :=
  if isAnimated layer then fold_left scanProperty (properties layer) bounds else bounds.

Definition scanLayers (layers : list AnimationSummary) : Bounds :=
  fold_left scanLayer layers None.

(** [getCompositionAnimationRange]: null when nothing was scanned. *)
Definition getCompositionAnimationRange (comp : Composition) : option (Q * Q) :=
  scanLayers (layers comp).

(** [getEffectiveTimeRange]: the range padded by 15 %, at least 0.2 s,
    and cut to the composition; the whole composition when nothing was
    scanned. *)
Definition getEffectiveTimeRange (comp : Composition) : Q * Q :=
  match scanLayers (layers comp) with
  | None => (0, compDuration comp)
  | Some (minTime, maxTime) =>
      let range := maxTime - minTime in
      let padding := Qmax (range * (15 # 100)) (2 # 10) in
      (Qmax 0 (minTime - padding), Qmin (compDuration comp) (maxTime + padding))
  end.

(** The properties the loop scans: those of the layers flagged as
    animated. *)
Definition scanned (comp : Composition) : list PropertySummary :=
  flat_map (fun layer => if isAnimated layer then properties layer else []) (layers comp).

(** The bounds fit the properties [l] exactly: nothing was scanned, or
    every property lies between the bounds and each bound is reached. *)
Definition fits (bounds : Bounds) (l : list PropertySummary) : Prop :=
  match bounds with
  | None => l = []
  | Some (minTime, maxTime) =>
      (forall p, In p l -> minTime <= delay p /\ delay p + duration p <= maxTime) /\
      (exists p, In p l /\ minTime = delay p) /\
      (exists p, In p l /\ maxTime = delay p + duration p)
  end.

End TimeRange.


(** ** Host objects and descriptors used as examples *)

Module Examples.
Import Host Keyframes Summary.

(** A one-dimensional property with [n] keyframes, Easy Ease on both
    sides of each. *)
Definition keyedProperty (timeVarying : bool) (n : nat)
    (times : nat -> option Q) (values : nat -> option RawValue)
    (expr : option string) : HostObject :=
  mkHost (Some "Opacity"%string) (Some "ADBE Opacity"%string)
         None (fun _ => None) (fun _ => None) (Some PROPERTY)
         (Some OneD) (Some timeVarying) (Some (RNum 100))
         (Some (match expr with Some _ => true | None => false end)) expr
         (Some n) times values
         (fun _ => Some 6613%Z) (fun _ => Some 6613%Z)
         (fun _ => Some [easyEase]) (fun _ => Some [easyEase])
         (fun _ => None) (fun _ => None)
         (fun _ => None) (fun _ => Some false) (fun _ => Some false)
         (fun _ => None) (fun _ => None).

(** Three keyframes, the time of the second unreadable. *)
Definition gapProperty : HostObject :=
  keyedProperty true 3
    (fun i => match i with 1%nat => Some 0 | 3%nat => Some 2 | _ => None end)
    (fun i => match i with 1%nat => Some (RNum 0) | 2%nat => Some (RNum 50)
                         | 3%nat => Some (RNum 100) | _ => None end)
    None.

(** Three keyframes, the time of the last unreadable. *)
Definition tailProperty : HostObject :=
  keyedProperty true 3
    (fun i => match i with 1%nat => Some 0 | 2%nat => Some 1 | _ => None end)
    (fun i => match i with 1%nat => Some (RNum 0) | 2%nat => Some (RNum 50)
                         | 3%nat => Some (RNum 100) | _ => None end)
    None.

(** A property driven by an expression: time-varying, no keyframe. *)
Definition expressionOnlyProperty : HostObject :=
  keyedProperty true 0 (fun _ => None) (fun _ => None) (Some "wiggle(2, 30)"%string).

(** Opacity from 0 at 0 s to 100 at 1 s. *)
Definition fadeProperty : HostObject :=
  keyedProperty true 2
    (fun i => match i with 1%nat => Some 0 | 2%nat => Some 1 | _ => None end)
    (fun i => match i with 1%nat => Some (RNum 0) | 2%nat => Some (RNum 100) | _ => None end)
    None.

(** The descriptor a call returned, if it returned one. *)
Definition returnedProperty (r : Result (option AnimatedProperty)) : option AnimatedProperty :=
  match r with
  | Returned d => d
  | Thrown => None
  end.

(** A layer whose only animated transform property is [fadeProperty]. *)
Definition fadeLayer : LayerData :=
  mkLayer
    (Some (mkTransform None None None None None None None None None
             (returnedProperty
                (extractAnimatedProperty Easing.convertEasingWithValues fadeProperty 30)))).

End Examples.

(** * Properties *)

(** ** Facts about the number model *)

Section NumberFacts.

Lemma Qltb_lt (a b : Q) : Qltb a b = true <-> a < b.
Proof.
  unfold Qltb. rewrite negb_true_iff. split; intro H.
  - apply Qnot_le_lt. intro L. apply Qle_bool_iff in L. congruence.
  - destruct (Qle_bool b a) eqn:E; [|reflexivity].
    apply Qle_bool_iff in E. exfalso. exact (Qlt_not_le _ _ H E).
Qed.

Lemma Qltb_ge (a b : Q) : Qltb a b = false <-> b <= a.
Proof.
  unfold Qltb. rewrite negb_false_iff. apply Qle_bool_iff.
Qed.

Lemma Qclamp01_unit (q : Q) : 0 <= Qclamp01 q /\ Qclamp01 q <= 1.
Proof.
  unfold Qclamp01. split.
  - apply Q.le_max_l.
  - apply Q.max_lub; [lra | apply Q.le_min_l].
Qed.

Lemma Qclamp01_id (q : Q) : 0 <= q -> q <= 1 -> Qclamp01 q == q.
Proof.
  intros H0 H1. unfold Qclamp01.
  rewrite (Q.min_r 1 q H1). apply Q.max_r. exact H0.
Qed.

Lemma Qround_js_mono (a b : Q) : a <= b -> Qround_js a <= Qround_js b.
Proof.
  intro H. unfold Qround_js. rewrite <- Zle_Qle.
  apply Qfloor_resp_le. lra.
Qed.

Lemma Qround4_mono (a b : Q) : a <= b -> Qround4 a <= Qround4 b.
Proof.
  intro H. unfold Qround4.
  assert (M : Qround_js (a * 10000) <= Qround_js (b * 10000))
    by (apply Qround_js_mono; lra).
  unfold Qdiv. apply Qmult_le_compat_r; [exact M | discriminate].
Qed.

Lemma Qround4_0 : Qround4 0 == 0.
Proof. reflexivity. Qed.

Lemma Qround4_1 : Qround4 1 == 1.
Proof. reflexivity. Qed.

Lemma Qround4_unit (q : Q) : 0 <= q -> q <= 1 -> 0 <= Qround4 q /\ Qround4 q <= 1.
Proof.
  intros H0 H1. split.
  - rewrite <- Qround4_0. apply Qround4_mono. exact H0.
  - rewrite <- Qround4_1. apply Qround4_mono. exact H1.
Qed.

Lemma Qround4_clamp_unit (q : Q) : in_unit (Fin (Qround4 (Qclamp01 q))).
Proof.
  destruct (Qclamp01_unit q) as [H0 H1]. simpl.
  apply Qround4_unit; assumption.
Qed.

(** Rounding to four places keeps a value of at least 0.00005 away
    from zero. *)
Lemma Qround4_pos (q : Q) : (1 # 20000) <= q -> (1 # 10000) <= Qround4 q.
Proof.
  intro H.
  assert (E : Qround4 (1 # 20000) == (1 # 10000)) by reflexivity.
  rewrite <- E. apply Qround4_mono. exact H.
Qed.

End NumberFacts.

(** ** The easing converters *)

Section EasingFacts.

Lemma findBestLoop_spec (s e : list Q) :
  forall (i bd : nat) (bc : Q),
    let r := Easing.findBestLoop i s e bd bc in
    Qabs bc <= Qabs (Easing.valueChange r) /\
    (forall k, (k < Nat.min (List.length s) (List.length e))%nat ->
               Qabs (nth k e 0 - nth k s 0) <= Qabs (Easing.valueChange r)) /\
    ((Easing.dimIndex r = bd /\ Easing.valueChange r = bc) \/
     (exists k, (k < Nat.min (List.length s) (List.length e))%nat /\
                Easing.dimIndex r = (i + k)%nat /\
                Easing.valueChange r = nth k e 0 - nth k s 0 /\
                Qabs bc < Qabs (Easing.valueChange r) /\
                forall j, (j < k)%nat ->
                          Qabs (nth j e 0 - nth j s 0) < Qabs (Easing.valueChange r))).
Proof.
  revert e. induction s as [|s0 s IH]; intros e i bd bc.
  - simpl. split; [lra|]. split; [intros k Hk; lia|]. left. split; reflexivity.
  - destruct e as [|e0 e].
    + simpl. split; [lra|]. split; [intros k Hk; lia|]. left. split; reflexivity.
    + cbn [Easing.findBestLoop]. cbv zeta.
      destruct (Qltb (Qabs bc) (Qabs (e0 - s0))) eqn:T.
      * apply Qltb_lt in T.
        destruct (IH e (S i) i (e0 - s0)) as (A & B & C).
        split; [lra|]. split.
        -- intros [|k] Hk; cbn [nth List.length Nat.min] in *; [exact A | apply B; lia].
        -- right. destruct C as [[C1 C2] | (k & K1 & K2 & K3 & K4 & K5)].
           ++ exists 0%nat. cbn [nth List.length Nat.min]. rewrite C1, C2.
              split; [lia|]. split; [lia|]. split; [reflexivity|]. split; [assumption|].
              intros j Hj. lia.
           ++ exists (S k). cbn [nth List.length Nat.min].
              split; [lia|]. split; [lia|]. split; [assumption|]. split; [lra|].
              intros [|j] Hj; cbn [nth]; [lra | apply K5; lia].
      * apply Qltb_ge in T.
        destruct (IH e (S i) bd bc) as (A & B & C).
        split; [assumption|]. split.
        -- intros [|k] Hk; cbn [nth List.length Nat.min] in *; [lra | apply B; lia].
        -- destruct C as [[C1 C2] | (k & K1 & K2 & K3 & K4 & K5)].
           ++ left. split; assumption.
           ++ right. exists (S k). cbn [nth List.length Nat.min].
              split; [lia|]. split; [lia|]. split; [assumption|]. split; [assumption|].
              intros [|j] Hj; cbn [nth]; [lra | apply K5; lia].
Qed.


Lemma Qabs_pos_iff (q : Q) : 0 < Qabs q <-> ~ q == 0.
Proof.
  split.
  - intros H E. rewrite E in H. simpl in H. lra.
  - intro H. apply Qabs_case; intros; lra.
Qed.

Lemma negligible_iff (vc d : Q) :
  negligible (Fin vc) d = true <-> (Qabs vc < epsilon \/ d < epsilon).
Proof.
  unfold negligible. cbn [nabs nltb]. rewrite orb_true_iff, !Qltb_lt. tauto.
Qed.

Lemma linearSpeed_pos (vc d : Q) :
  epsilon <= Qabs vc -> epsilon <= d ->
  linearSpeedOf (Fin vc) d = Fin (Qabs (vc / d)) /\ 0 < Qabs (vc / d).
Proof.
  intros Hv Hd. unfold epsilon in *.
  assert (Dpos : 0 < d) by lra.
  unfold linearSpeedOf, ndiv.
  destruct (Qeq_bool d 0) eqn:E.
  - apply Qeq_bool_iff in E. lra.
  - cbn [nabs]. split; [reflexivity|].
    apply Qabs_pos_iff. intro Z.
    assert (V : vc == 0).
    { setoid_replace vc with (vc / d * d) by (field; lra). rewrite Z. ring. }
    rewrite V in Hv. simpl in Hv. lra.
Qed.

Lemma negligible_num_iff (vc : num) (d : Q) :
  negligible vc d = true <-> (belowEpsilon vc \/ d < epsilon).
Proof.
  destruct vc as [|q].
  - unfold negligible. cbn. rewrite Qltb_lt. tauto.
  - apply negligible_iff.
Qed.

Lemma curveFromHandles_x_unit (ls : num) (o i : KeyframeEase) :
  in_unit (x1 (curveFromHandles ls o i)) /\ in_unit (x2 (curveFromHandles ls o i)).
Proof.
  unfold curveFromHandles. cbn [x1 x2]. split; apply Qround4_clamp_unit.
Qed.

Lemma identityBezier_x_unit : in_unit (x1 identityBezier) /\ in_unit (x2 identityBezier).
Proof. cbn. repeat split; lra. Qed.

Lemma not_negligible (vc d : Q) :
  ~ (Qabs vc < epsilon \/ d < epsilon) -> epsilon <= Qabs vc /\ epsilon <= d.
Proof.
  intro H. split; apply Qnot_lt_le; intro L; apply H; [left | right]; exact L.
Qed.

Lemma jsIndex_clamped {A : Type} (l : list A) (d : nat) :
  jsIndex l (Z.min (Z.of_nat d) (Z.of_nat (List.length l) - 1))
  = nth_error l (Nat.min d (List.length l - 1)).
Proof.
  unfold jsIndex. destruct l as [|a l].
  - cbn [List.length]. replace (Z.min (Z.of_nat d) (Z.of_nat 0 - 1)) with (-1)%Z by lia.
    cbn. destruct (Nat.min d 0); reflexivity.
  - assert (Hn : (1 <= List.length (a :: l))%nat) by (cbn; lia).
    generalize dependent (List.length (a :: l)). intros n Hn.
    replace (Z.min (Z.of_nat d) (Z.of_nat n - 1)) with (Z.of_nat (Nat.min d (n - 1))) by lia.
    destruct (Z.of_nat (Nat.min d (n - 1)) <? 0)%Z eqn:E; [apply Z.ltb_lt in E; lia|].
    rewrite Nat2Z.id. reflexivity.
Qed.

Lemma Qclamp01_lower (c q : Q) : 0 <= c -> c <= 1 -> c <= q -> c <= Qclamp01 q.
Proof.
  intros H0 H1 Hq. unfold Qclamp01.
  apply Qle_trans with (Qmin 1 q); [apply Q.min_glb; assumption | apply Q.le_max_r].
Qed.

Lemma curveFromHandles_not_identity (ls : num) (o i : KeyframeEase) :
  (1 # 200) <= influence o -> ~ bezier_eq (curveFromHandles ls o i) identityBezier.
Proof.
  intros H [E _]. unfold curveFromHandles in E. cbn [x1 identityBezier neq] in E.
  assert (L : (1 # 10000) <= Qround4 (Qclamp01 (influence o / 100))).
  { apply Qround4_pos. apply Qclamp01_lower; [discriminate | discriminate |].
    unfold Qdiv. setoid_replace (1 # 20000) with ((1 # 200) * / 100) by reflexivity.
    apply Qmult_le_compat_r; [exact H | discriminate]. }
  rewrite E in L. lra.
Qed.

Lemma findBest_two_dims (a a' b1 b2 : Q) :
  a' == a -> epsilon <= Qabs (b2 - b1) ->
  Easing.findBestDimension (VArr [a; b1]) (VArr [a'; b2]) = Easing.mkBest 1 (b2 - b1).
Proof.
  intros Ha Hb. cbn [Easing.findBestDimension Easing.findBestLoop]. cbv zeta.
  assert (F : Qltb (Qabs 0) (Qabs (a' - a)) = false).
  { apply Qltb_ge. setoid_replace (a' - a) with 0 by (rewrite Ha; ring). apply Qle_refl. }
  rewrite F.
  assert (T : Qltb (Qabs 0) (Qabs (b2 - b1)) = true).
  { apply Qltb_lt. unfold epsilon in Hb. cbn [Qabs Z.abs Qnum Qden] in *.
    change (Qabs 0) with 0. lra. }
  rewrite T. reflexivity.
Qed.


(** The first-dimension version of the file looks at dimension 0 only:
    a two-dimensional value whose dimension 0 is constant converts to
    the identity, whatever dimension 1 does. *)
Lemma firstDim_ignores_second_dimension
    (outEase inEaseNext : list KeyframeEase) (duration a a' b1 b2 : Q) :
  a' == a ->
  EasingFirstDim.convertEasingWithValues outEase inEaseNext duration
    (VArr [a; b1]) (VArr [a'; b2])
  = Some identityBezier.
Proof.
  intro Ha.
  unfold EasingFirstDim.convertEasingWithValues. cbv zeta.
  assert (N : negligible (EasingFirstDim.valueChangeOf (VArr [a; b1]) (VArr [a'; b2]))
                         duration = true).
  { apply negligible_num_iff. left.
    change (EasingFirstDim.valueChangeOf (VArr [a; b1]) (VArr [a'; b2]))
      with (Fin (a' - a)).
    cbn [belowEpsilon].
    setoid_replace (a' - a) with 0 by (rewrite Ha; ring). reflexivity. }
  rewrite N. reflexivity.
Qed.

End EasingFacts.

(** The presets of the specification: Easy Ease gives
    (0.3333, 0, 0.6667, 1); handles at the speed of the chord give the
    straight line. *)
Example easyEase_curve :
  returns (Easing.convertEasingWithValues [easyEase] [easyEase] 1 (VNum 0) (VNum 100))
          (mkBezier (Fin (3333 # 10000)) (Fin 0) (Fin (6667 # 10000)) (Fin 1)).
Proof. vm_compute. intuition discriminate. Qed.

Example linear_curve :
  returns (Easing.convertEasingWithValues [mkEase 100 (3333 # 100)] [mkEase 100 (3333 # 100)]
             1 (VNum 0) (VNum 100))
          (mkBezier (Fin (3333 # 10000)) (Fin (3333 # 10000))
                    (Fin (6667 # 10000)) (Fin (6667 # 10000))).
Proof. vm_compute. intuition discriminate. Qed.

(** C1 (amended): in the dimension-aware [convertEasingWithValues], for
    array values the value change used is that of the first dimension,
    over the common length, whose absolute difference is largest; the
    ease entries converted are those at index [min(dim, length - 1)] of
    each ease array; for a two-dimensional value whose dimension 0 is
    constant and whose dimension 1 changes by at least epsilon, with a
    duration of at least epsilon and non-empty ease arrays, the result is
    the curve computed from dimension 1, and it differs from (0,0,1,1)
    as soon as the outgoing influence is at least 0.005. *)
Theorem dominant_dimension_conversion :
  (forall s e : list Q,
      let best := Easing.findBestDimension (VArr s) (VArr e) in
      let n := Nat.min (List.length s) (List.length e) in
      (forall k, (k < n)%nat ->
                 Qabs (nth k e 0 - nth k s 0) <= Qabs (Easing.valueChange best)) /\
      ((Easing.dimIndex best = 0%nat /\ Easing.valueChange best = 0) \/
       ((Easing.dimIndex best < n)%nat /\
        Easing.valueChange best
        = nth (Easing.dimIndex best) e 0 - nth (Easing.dimIndex best) s 0 /\
        forall j, (j < Easing.dimIndex best)%nat ->
                  Qabs (nth j e 0 - nth j s 0) < Qabs (Easing.valueChange best)))) /\
  (forall (outEase inEaseNext : list KeyframeEase) (duration : Q) (s e : list Q),
      let best := Easing.findBestDimension (VArr s) (VArr e) in
      epsilon <= Qabs (Easing.valueChange best) -> epsilon <= duration ->
      Easing.convertEasingWithValues outEase inEaseNext duration (VArr s) (VArr e)
      = match nth_error outEase (Nat.min (Easing.dimIndex best) (List.length outEase - 1)),
              nth_error inEaseNext (Nat.min (Easing.dimIndex best) (List.length inEaseNext - 1)) with
        | Some o, Some i =>
            Some (curveFromHandles (Fin (Qabs (Easing.valueChange best / duration))) o i)
        | _, _ => None
        end) /\
  (forall (outEase inEaseNext : list KeyframeEase) (duration a a' b1 b2 : Q),
      a' == a -> epsilon <= Qabs (b2 - b1) -> epsilon <= duration ->
      outEase <> [] -> inEaseNext <> [] ->
      exists o i,
        nth_error outEase (Nat.min 1 (List.length outEase - 1)) = Some o /\
        nth_error inEaseNext (Nat.min 1 (List.length inEaseNext - 1)) = Some i /\
        Easing.convertEasingWithValues outEase inEaseNext duration
          (VArr [a; b1]) (VArr [a'; b2])
        = Some (curveFromHandles (Fin (Qabs ((b2 - b1) / duration))) o i) /\
        ((1 # 200) <= influence o ->
         ~ bezier_eq (curveFromHandles (Fin (Qabs ((b2 - b1) / duration))) o i)
                     identityBezier)).
Proof.
  split; [|split].
  - intros s e best n.
    pose proof (findBestLoop_spec s e 0 0 0) as H. cbv zeta in H.
    change (Easing.findBestLoop 0 s e 0 0) with best in H.
    destruct H as (_ & B & C). split; [exact B|].
    destruct C as [C | (k & K1 & K2 & K3 & K4 & K5)].
    + left. exact C.
    + right. cbn [Nat.add] in K2. rewrite K2. fold n in K1. auto.
  - intros outEase inEaseNext duration s e best Hv Hd.
    destruct (linearSpeed_pos _ _ Hv Hd) as [E _].
    unfold Easing.convertEasingWithValues. cbv zeta. fold best.
    destruct (negligible (Fin (Easing.valueChange best)) duration) eqn:N.
    + apply negligible_iff in N. destruct N; lra.
    + rewrite E, !jsIndex_clamped. reflexivity.
  - intros outEase inEaseNext duration a a' b1 b2 Ha Hb Hd Ho Hi.
    pose proof (findBest_two_dims a a' b1 b2 Ha Hb) as F.
    destruct (linearSpeed_pos _ _ Hb Hd) as [E _].
    destruct (nth_error outEase (Nat.min 1 (List.length outEase - 1))) as [o|] eqn:EO.
    2:{ apply nth_error_None in EO. destruct outEase; [contradiction | cbn [List.length] in EO; lia]. }
    destruct (nth_error inEaseNext (Nat.min 1 (List.length inEaseNext - 1))) as [i|] eqn:EI.
    2:{ apply nth_error_None in EI. destruct inEaseNext; [contradiction | cbn [List.length] in EI; lia]. }
    exists o, i. split; [reflexivity|]. split; [reflexivity|]. split.
    + unfold Easing.convertEasingWithValues. cbv zeta. rewrite F.
      cbn [Easing.valueChange Easing.dimIndex].
      destruct (negligible (Fin (b2 - b1)) duration) eqn:N.
      * apply negligible_iff in N. destruct N; lra.
      * rewrite E, !jsIndex_clamped, EO, EI. reflexivity.
    + apply curveFromHandles_not_identity.
Qed.

Lemma dominant_dimension_conversion_witness :
  exists o i,
    nth_error [mkEase 0 50] (Nat.min 1 (List.length [mkEase 0 50] - 1)) = Some o /\
    nth_error [mkEase 0 50] (Nat.min 1 (List.length [mkEase 0 50] - 1)) = Some i /\
    Easing.convertEasingWithValues [mkEase 0 50] [mkEase 0 50] 1
      (VArr [100; 0]) (VArr [100; 200])
    = Some (curveFromHandles (Fin (Qabs ((200 - 0) / 1))) o i) /\
    ((1 # 200) <= influence o ->
     ~ bezier_eq (curveFromHandles (Fin (Qabs ((200 - 0) / 1))) o i) identityBezier).
Proof.
  apply (proj2 (proj2 dominant_dimension_conversion)).
  - reflexivity.
  - apply Qle_bool_imp_le. reflexivity.
  - apply Qle_bool_imp_le. reflexivity.
  - discriminate.
  - discriminate.
Defined.

(** C1 (counterexample): a two-dimensional value whose dimension 0 is
    constant and whose dimension 1 changes by 200 converts to the identity
    fallback when the segment lasts 0.00005 s; with one-entry ease arrays
    the entry converted for dimension 1 is entry 0; and the
    first-dimension version of the file converts such a value to the
    identity fallback at a duration of 1 s. *)
Lemma dominant_dimension_counterexample :
  Easing.convertEasingWithValues [easyEase; easyEase] [easyEase; easyEase] (1 # 20000)
    (VArr [100; 0]) (VArr [100; 200])
  = Some identityBezier /\
  Easing.dimIndex (Easing.findBestDimension (VArr [100; 0]) (VArr [100; 200])) = 1%nat /\
  Easing.convertEasingWithValues [mkEase 0 50] [mkEase 0 50] 1
    (VArr [100; 0]) (VArr [100; 200])
  = Some (curveFromHandles (Fin (Qabs ((200 - 0) / 1))) (mkEase 0 50) (mkEase 0 50)) /\
  EasingFirstDim.convertEasingWithValues [easyEase; easyEase] [easyEase; easyEase] 1
    (VArr [100; 0]) (VArr [100; 200])
  = Some identityBezier.
Proof. split; [|split; [|split]]; reflexivity. Qed.

(** C6: both converters return [x1] and [x2] in [0, 1] for all inputs,
    negative influences and influences above 100 included, and leave
    [y1] and [y2] unclamped (they overshoot below 0 and above 1). *)
Theorem converters_x_in_unit_y_unclamped :
  (forall (outEase inEaseNext : list KeyframeEase) (duration : Q)
          (startValue endValue : PropertyValue) (b : CubicBezier),
      Easing.convertEasingWithValues outEase inEaseNext duration startValue endValue = Some b \/
      EasingFirstDim.convertEasingWithValues outEase inEaseNext duration startValue endValue = Some b \/
      convertEasingToCubicBezier outEase inEaseNext duration = Some b ->
      in_unit (x1 b) /\ in_unit (x2 b)) /\
  (exists b,
      Easing.convertEasingWithValues [mkEase 300 50] [mkEase 300 50] 1 (VNum 0) (VNum 100) = Some b /\
      EasingFirstDim.convertEasingWithValues [mkEase 300 50] [mkEase 300 50] 1 (VNum 0) (VNum 100) = Some b /\
      neq (y1 b) (Fin (3 # 2)) /\ neq (y2 b) (Fin (- (1 # 2)))) /\
  (exists b,
      convertEasingToCubicBezier [mkEase 300 150] [mkEase 300 150] 1 = Some b /\
      neq (x1 b) (Fin 1) /\ neq (y1 b) (Fin (3 # 2)) /\
      neq (x2 b) (Fin 0) /\ neq (y2 b) (Fin (- (1 # 2)))).
Proof.
  split; [|split].
  - intros outEase inEaseNext duration startValue endValue b [H | [H | H]].
    + unfold Easing.convertEasingWithValues in H. cbv zeta in H.
      destruct (negligible _ _).
      * injection H as <-. exact identityBezier_x_unit.
      * destruct (jsIndex outEase _) as [o|]; [|discriminate].
        destruct (jsIndex inEaseNext _) as [i|]; [|discriminate].
        injection H as <-. apply curveFromHandles_x_unit.
    + unfold EasingFirstDim.convertEasingWithValues in H. cbv zeta in H.
      destruct (negligible _ _).
      * injection H as <-. exact identityBezier_x_unit.
      * destruct (jsIndex outEase _) as [o|]; [|discriminate].
        destruct (jsIndex inEaseNext _) as [i|]; [|discriminate].
        injection H as <-. apply curveFromHandles_x_unit.
    + unfold convertEasingToCubicBezier in H.
      destruct (jsIndex outEase _) as [o|]; [|discriminate].
      destruct (jsIndex inEaseNext _) as [i|]; [|discriminate].
      cbv zeta in H. injection H as <-. cbn [x1 x2].
      split; apply Qround4_clamp_unit.
  - eexists. split; [reflexivity|]. split; [reflexivity|]. split; reflexivity.
  - eexists. split; [reflexivity|]. repeat split; reflexivity.
Qed.

Lemma converters_x_in_unit_y_unclamped_witness :
  in_unit (x1 (curveFromHandles (Fin 100) (mkEase 300 250) (mkEase 300 (-40)))) /\
  in_unit (x2 (curveFromHandles (Fin 100) (mkEase 300 250) (mkEase 300 (-40)))).
Proof.
  apply (proj1 converters_x_in_unit_y_unclamped
           [mkEase 300 250] [mkEase 300 (-40)] 1 (VNum 0) (VNum 100)).
  left. reflexivity.
Defined.

(** C7: [convertEasingWithValues] returns exactly the identity bezier
    when the absolute value change it selects is below 0.0001 or the
    duration is below 0.0001; otherwise the linear speed it divides by is
    positive (not a number, in the first-dimension version, when an array
    has no first slot).  Both versions of the file. *)
Theorem convertEasingWithValues_guard :
  (forall (outEase inEaseNext : list KeyframeEase) (duration : Q)
          (startValue endValue : PropertyValue),
      let vc := Easing.valueChange (Easing.findBestDimension startValue endValue) in
      let dim := Z.of_nat (Easing.dimIndex (Easing.findBestDimension startValue endValue)) in
      (Qabs vc < epsilon \/ duration < epsilon ->
       Easing.convertEasingWithValues outEase inEaseNext duration startValue endValue
       = Some identityBezier) /\
      (~ (Qabs vc < epsilon \/ duration < epsilon) ->
       exists ls, 0 < ls /\ linearSpeedOf (Fin vc) duration = Fin ls /\
         Easing.convertEasingWithValues outEase inEaseNext duration startValue endValue
         = match jsIndex outEase (Z.min dim (Z.of_nat (List.length outEase) - 1)),
                 jsIndex inEaseNext (Z.min dim (Z.of_nat (List.length inEaseNext) - 1)) with
           | Some o, Some i => Some (curveFromHandles (Fin ls) o i)
           | _, _ => None
           end)) /\
  (forall (outEase inEaseNext : list KeyframeEase) (duration : Q)
          (startValue endValue : PropertyValue),
      let vc := EasingFirstDim.valueChangeOf startValue endValue in
      (belowEpsilon vc \/ duration < epsilon ->
       EasingFirstDim.convertEasingWithValues outEase inEaseNext duration startValue endValue
       = Some identityBezier) /\
      (~ (belowEpsilon vc \/ duration < epsilon) ->
       (linearSpeedOf vc duration = NaN \/
        exists ls, 0 < ls /\ linearSpeedOf vc duration = Fin ls) /\
       EasingFirstDim.convertEasingWithValues outEase inEaseNext duration startValue endValue
       = match jsIndex outEase 0, jsIndex inEaseNext 0 with
         | Some o, Some i => Some (curveFromHandles (linearSpeedOf vc duration) o i)
         | _, _ => None
         end)).
Proof.
  split.
  - intros outEase inEaseNext duration startValue endValue vc dim. split.
    + intro H. apply negligible_iff in H.
      unfold Easing.convertEasingWithValues. cbv zeta. fold vc. rewrite H. reflexivity.
    + intro H.
      destruct (not_negligible _ _ H) as [Hv Hd].
      destruct (linearSpeed_pos vc duration Hv Hd) as [E P].
      exists (Qabs (vc / duration)). split; [exact P|]. split; [exact E|].
      unfold Easing.convertEasingWithValues. cbv zeta. fold vc. fold dim.
      destruct (negligible (Fin vc) duration) eqn:N.
      * apply negligible_iff in N. contradiction.
      * rewrite E. reflexivity.
  - intros outEase inEaseNext duration startValue endValue vc. split.
    + intro H. apply negligible_num_iff in H.
      unfold EasingFirstDim.convertEasingWithValues. cbv zeta. fold vc. rewrite H. reflexivity.
    + intro H. split.
      * destruct vc as [|q] eqn:V.
        -- left. reflexivity.
        -- right. cbn [belowEpsilon] in H.
           destruct (not_negligible _ _ H) as [Hv Hd].
           destruct (linearSpeed_pos q duration Hv Hd) as [E P].
           exists (Qabs (q / duration)). split; assumption.
      * unfold EasingFirstDim.convertEasingWithValues. cbv zeta. fold vc.
        destruct (negligible vc duration) eqn:N.
        -- apply negligible_num_iff in N. contradiction.
        -- reflexivity.
Qed.

Lemma convertEasingWithValues_guard_witness :
  Easing.convertEasingWithValues [easyEase] [easyEase] (1 # 20000) (VNum 0) (VNum 100)
  = Some identityBezier.
Proof.
  apply (proj1 (proj1 convertEasingWithValues_guard
                  [easyEase] [easyEase] (1 # 20000) (VNum 0) (VNum 100))).
  right. reflexivity.
Defined.

(** ** The keyframe extractor *)

Section KeyframeFacts.

Import Host Keyframes.

Variable convert :
  list KeyframeEase -> list KeyframeEase -> Q ->
  PropertyValue -> PropertyValue -> option CubicBezier.

Lemma keyframeAt_index_time (p : HostObject) (fr : Q) (n i : nat) (kf : Keyframe) :
  keyframeAt convert p fr n i = Some kf ->
  index kf = i /\ keyTime p i = Some (time kf).
Proof.
  unfold keyframeAt. destruct (keyTime p i) as [t|]; [|discriminate].
  intro H. injection H as <-. split; reflexivity.
Qed.

Lemma keyframeAt_none (p : HostObject) (fr : Q) (n i : nat) :
  keyframeAt convert p fr n i = None <-> keyTime p i = None.
Proof.
  unfold keyframeAt. destruct (keyTime p i); split; intro H; try discriminate; reflexivity.
Qed.

Lemma keyframeLoop_indices (p : HostObject) (fr : Q) (n : nat) (l : list nat) :
  map index (keyframeLoop convert p fr n l) = filter (readable p) l.
Proof.
  induction l as [|i l IH]; [reflexivity|].
  cbn [keyframeLoop filter]. unfold readable at 1.
  destruct (keyframeAt convert p fr n i) as [kf|] eqn:E.
  - destruct (keyframeAt_index_time _ _ _ _ _ E) as [Hi Ht].
    rewrite Ht. cbn [map]. rewrite Hi, IH. reflexivity.
  - apply keyframeAt_none in E. rewrite E. exact IH.
Qed.

Lemma keyframeLoop_times (p : HostObject) (fr : Q) (n : nat) (l : list nat) (kf : Keyframe) :
  In kf (keyframeLoop convert p fr n l) ->
  In (index kf) l /\ keyTime p (index kf) = Some (time kf).
Proof.
  induction l as [|i l IH]; [intros []|].
  cbn [keyframeLoop].
  destruct (keyframeAt convert p fr n i) as [kf'|] eqn:E.
  - intros [<- | H].
    + destruct (keyframeAt_index_time _ _ _ _ _ E) as [Hi Ht].
      split; [left; symmetry; exact Hi | rewrite Hi; exact Ht].
    + destruct (IH H). split; [right|]; assumption.
  - intro H. destruct (IH H). split; [right|]; assumption.
Qed.

Lemma filter_all {A : Type} (f : A -> bool) (l : list A) :
  (forall a, In a l -> f a = true) -> filter f l = l.
Proof.
  induction l as [|a l IH]; [reflexivity|]. intro H. cbn [filter].
  rewrite (H a (or_introl eq_refl)). f_equal. apply IH. intros b Hb. apply H. right. exact Hb.
Qed.

(** The keyframes pushed for an increasing run of host indices carry
    non-decreasing times when the host's times are non-decreasing. *)
Lemma keyframeLoop_sorted (p : HostObject) (fr : Q) (n : nat) (l : list nat) :
  StronglySorted lt l ->
  (forall i j ti tj, In i l -> In j l -> (i <= j)%nat ->
                     keyTime p i = Some ti -> keyTime p j = Some tj -> ti <= tj) ->
  StronglySorted Qle (map time (keyframeLoop convert p fr n l)).
Proof.
  induction l as [|i l IH]; intros S M; [constructor|].
  apply StronglySorted_inv in S. destruct S as [S F].
  assert (IH' : StronglySorted Qle (map time (keyframeLoop convert p fr n l))).
  { apply IH; [exact S|]. intros a b ta tb Ha Hb. apply M; right; assumption. }
  cbn [keyframeLoop].
  destruct (keyframeAt convert p fr n i) as [kf|] eqn:E; [|exact IH'].
  cbn [map]. constructor; [exact IH'|].
  apply Forall_forall. intros t Ht. apply in_map_iff in Ht. destruct Ht as (kf' & <- & Hk).
  destruct (keyframeAt_index_time _ _ _ _ _ E) as [Hi Hti].
  destruct (keyframeLoop_times _ _ _ _ _ Hk) as [Hin Htj].
  rewrite Forall_forall in F. pose proof (F _ Hin) as L.
  apply (M i (index kf')); [left; reflexivity | right; exact Hin | lia | | exact Htj].
  exact Hti.
Qed.

Lemma seq_sorted (a n : nat) : StronglySorted lt (seq a n).
Proof.
  revert a. induction n as [|n IH]; intro a; [constructor|].
  cbn [seq]. constructor; [apply IH|].
  apply Forall_forall. intros x Hx. apply in_seq in Hx. lia.
Qed.

Lemma filter_sorted {A : Type} (R : A -> A -> Prop) (f : A -> bool) (l : list A) :
  StronglySorted R l -> StronglySorted R (filter f l).
Proof.
  induction 1 as [|a l S IH F]; [constructor|].
  cbn [filter]. destruct (f a); [|exact IH].
  constructor; [exact IH|].
  rewrite Forall_forall in *. intros x Hx. apply filter_In in Hx. apply F. tauto.
Qed.

(** The indices kept of [1 .. n] are [1 .. m], [m] their number, exactly
    when each of [1 .. m] is kept. *)
Lemma filter_prefix (p : HostObject) (n : nat) :
  filter (readable p) (seq 1 n) = seq 1 (List.length (filter (readable p) (seq 1 n))) <->
  forall i, (1 <= i <= List.length (filter (readable p) (seq 1 n)))%nat ->
            keyTime p i <> None.
Proof.
  set (m := List.length (filter (readable p) (seq 1 n))).
  assert (Le : (m <= n)%nat).
  { pose proof (filter_length_le (readable p) (seq 1 n)) as X.
    rewrite length_seq in X. exact X. }
  split.
  - intros E i Hi.
    assert (M : In i (filter (readable p) (seq 1 n))) by (rewrite E; apply in_seq; lia).
    apply filter_In in M. destruct M as [_ M]. unfold readable in M.
    destruct (keyTime p i); [discriminate | discriminate M].
  - intro All.
    assert (Sp : seq 1 n = seq 1 m ++ seq (1 + m) (n - m)).
    { rewrite <- seq_app. f_equal. lia. }
    assert (F1 : filter (readable p) (seq 1 m) = seq 1 m).
    { apply filter_all. intros i Hi. apply in_seq in Hi. unfold readable.
      destruct (keyTime p i) eqn:K; [reflexivity|]. exfalso. apply (All i); [lia | exact K]. }
    assert (F : filter (readable p) (seq 1 n)
                = seq 1 m ++ filter (readable p) (seq (1 + m) (n - m))).
    { rewrite Sp at 1. rewrite filter_app, F1. reflexivity. }
    assert (Z : filter (readable p) (seq (1 + m) (n - m)) = []).
    { apply length_zero_iff_nil.
      assert (L : List.length (filter (readable p) (seq 1 n)) = m) by reflexivity.
      rewrite F, length_app, length_seq in L. lia. }
    rewrite F, Z, app_nil_r. reflexivity.
Qed.

(** The shape of a descriptor: the keyframes field goes with the
    animated flag, the static value with its absence. *)
Lemma extractAnimatedProperty_fields (property : HostObject) (frameRate : Q)
    (d : AnimatedProperty) :
  extractAnimatedProperty convert property frameRate = Returned (Some d) ->
  (Keyframes.isAnimated d = true -> keyframes d <> None /\ staticValue d = None) /\
  (Keyframes.isAnimated d = false -> staticValue d <> None /\ keyframes d = None).
Proof.
  unfold extractAnimatedProperty.
  destruct (propertyValueType property) as [[]|];
    try discriminate;
    (destruct (match isTimeVarying property with Some b => b | None => false end);
     [destruct (extractKeyframes convert property frameRate); [|discriminate] |];
     intro H; injection H as <-; cbn; split; intro E;
     try discriminate E; split; try reflexivity; discriminate).
Qed.

Lemma extractAnimatedProperty_wellFormed (property : HostObject) (frameRate : Q) :
  Summary.wellFormed
    (Examples.returnedProperty (extractAnimatedProperty convert property frameRate)).
Proof.
  destruct (extractAnimatedProperty convert property frameRate) as [[d|]|] eqn:E;
    cbn; try exact I.
  destruct (extractAnimatedProperty_fields property frameRate d E) as [A B].
  destruct (Keyframes.isAnimated d); [reflexivity|].
  intro K. destruct (B eq_refl) as [_ N]. contradiction.
Qed.

End KeyframeFacts.

Section KeyframeClaims.

Import Host Keyframes.

(** C4 (amended): the index fields of the keyframes [extractKeyframes]
    returns are the host indices, in increasing order, of the keyframes
    whose time could be read.  They are exactly 1..N, N the number of
    keyframes returned, if and only if the times of the host keyframes
    1..N could all be read: when no read fails (N is then [numKeys]) or
    when only reads past the last keyframe returned fail; a failed read
    followed by a successful one leaves a gap.  Each time is
    the host's time at that index and the list keeps the host's order,
    so for a host whose keyframe times do not decrease with the index
    the times do not decrease along the list, failed reads or not. *)
Theorem extractKeyframes_indices_times
    (convert : list KeyframeEase -> list KeyframeEase -> Q ->
               PropertyValue -> PropertyValue -> option CubicBezier)
    (property : HostObject) (frameRate : Q) (kfs : list Keyframe) :
  extractKeyframes convert property frameRate = Returned kfs ->
  exists n,
    numKeys property = Some n /\
    map index kfs = filter (readable property) (seq 1 n) /\
    StronglySorted lt (map index kfs) /\
    (forall kf, In kf kfs ->
                (1 <= index kf <= n)%nat /\
                keyTime property (index kf) = Some (time kf)) /\
    (map index kfs = seq 1 (List.length kfs) <->
     forall i, (1 <= i <= List.length kfs)%nat -> keyTime property i <> None) /\
    (forall i j, (1 <= i < j)%nat -> (j <= n)%nat ->
                 keyTime property i = None -> keyTime property j <> None ->
                 map index kfs <> seq 1 (List.length kfs)) /\
    ((forall i, (1 <= i <= n)%nat -> keyTime property i <> None) ->
     map index kfs = seq 1 (List.length kfs) /\ List.length kfs = n) /\
    ((forall i j ti tj, (1 <= i <= j)%nat -> (j <= n)%nat ->
                        keyTime property i = Some ti -> keyTime property j = Some tj ->
                        ti <= tj) ->
     StronglySorted Qle (map time kfs)).
Proof.
  unfold extractKeyframes. destruct (numKeys property) as [n|]; [|discriminate].
  intro H. injection H as <-. exists n. split; [reflexivity|].
  pose proof (keyframeLoop_indices convert property frameRate n (seq 1 n)) as I.
  split; [exact I|]. split.
  { rewrite I. apply filter_sorted. apply seq_sorted. }
  split.
  { intros kf Hk. destruct (keyframeLoop_times _ _ _ _ _ _ Hk) as [Hin Ht].
    apply in_seq in Hin. split; [lia | exact Ht]. }
  split; [|split; [|split]].
  - rewrite <- (length_map index), I. apply filter_prefix.
  - intros i j Hij Hj Ki Kj E.
    assert (J : In j (map index (keyframeLoop convert property frameRate n (seq 1 n)))).
    { rewrite I. apply filter_In. split; [apply in_seq; lia|].
      unfold readable. destruct (keyTime property j); [reflexivity | contradiction]. }
    rewrite E in J. apply in_seq in J.
    assert (J' : In i (map index (keyframeLoop convert property frameRate n (seq 1 n)))).
    { rewrite E. apply in_seq. lia. }
    rewrite I in J'. apply filter_In in J'. destruct J' as [_ R].
    unfold readable in R. rewrite Ki in R. discriminate R.
  - intro All.
    assert (E : filter (readable property) (seq 1 n) = seq 1 n).
    { apply filter_all. intros i Hi. apply in_seq in Hi. unfold readable.
      destruct (keyTime property i) eqn:K; [reflexivity|].
      exfalso. apply (All i); [lia | exact K]. }
    rewrite E in I.
    assert (L : List.length (keyframeLoop convert property frameRate n (seq 1 n)) = n).
    { rewrite <- (length_map index), I. apply length_seq. }
    rewrite L. split; [exact I | reflexivity].
  - intro Mono. apply keyframeLoop_sorted; [apply seq_sorted|].
    intros i j ti tj Hi Hj Hij. apply in_seq in Hi. apply in_seq in Hj.
    apply Mono; lia.
Qed.

Lemma extractKeyframes_indices_times_witness :
  exists n,
    numKeys Examples.gapProperty = Some n /\
    StronglySorted lt
      (map index (keyframeLoop Easing.convertEasingWithValues Examples.gapProperty 30 3
                    (seq 1 3))) /\
    StronglySorted Qle
      (map time (keyframeLoop Easing.convertEasingWithValues Examples.gapProperty 30 3
                   (seq 1 3))).
Proof.
  destruct (extractKeyframes_indices_times Easing.convertEasingWithValues
              Examples.gapProperty 30
              (keyframeLoop Easing.convertEasingWithValues Examples.gapProperty 30 3 (seq 1 3))
              eq_refl) as (n & N & _ & S & _ & _ & _ & _ & Mono).
  exists n. split; [exact N|]. split; [exact S|].
  apply Mono. injection N as <-.
  intros i j ti tj Hij Hj.
  assert (C : ((i = 1 \/ i = 2 \/ i = 3) /\ (j = 1 \/ j = 2 \/ j = 3) /\ i <= j)%nat) by lia.
  destruct C as ([-> | [-> | ->]] & [-> | [-> | ->]] & L); cbn;
    intros A B; try discriminate A; try discriminate B; try lia;
    injection A as <-; injection B as <-; discriminate.
Defined.

(** C4 (counterexample): with three host keyframes, the time of the
    second unreadable, the returned index fields are 1 and 3, not 1 and 2. *)
Lemma extractKeyframes_index_gap :
  exists kfs,
    extractKeyframes Easing.convertEasingWithValues Examples.gapProperty 30 = Returned kfs /\
    map index kfs = [1; 3]%nat /\
    seq 1 (List.length kfs) = [1; 2]%nat.
Proof.
  eexists. split; [reflexivity|]. split; reflexivity.
Qed.

(** A failed read past the last keyframe returned leaves no gap: with
    three host keyframes, the time of the third unreadable, the returned
    index fields are 1 and 2. *)
Lemma extractKeyframes_trailing_failure :
  exists kfs,
    extractKeyframes Easing.convertEasingWithValues Examples.tailProperty 30 = Returned kfs /\
    numKeys Examples.tailProperty = Some 3%nat /\
    map index kfs = [1; 2]%nat /\
    seq 1 (List.length kfs) = [1; 2]%nat.
Proof.
  eexists. split; [reflexivity|]. split; [reflexivity|]. split; reflexivity.
Qed.

(** C2 (the code at the failing input): a property that is time-varying
    through an expression and has no keyframe is reported with
    [isAnimated] true, an empty keyframes list and no static value. *)
Lemma extractAnimatedProperty_expression_only :
  exists d,
    extractAnimatedProperty Easing.convertEasingWithValues
      Examples.expressionOnlyProperty 30 = Returned (Some d) /\
    Keyframes.isAnimated d = true /\
    keyframes d = Some [] /\
    staticValue d = None.
Proof.
  eexists. split; [reflexivity|]. repeat split.
Qed.

End KeyframeClaims.

(** ** The property walker *)

Section WalkerFacts.

Import Host Walker.

Variable S : Type.
Variable callback : ref -> nat -> S -> S * bool.
Variable store : Store.

Let State := WalkState S.
Let Rec := Recurse S.

Lemma extends_refl (d : nat) (w : State) : extends d w w.
Proof. exists []. split; [reflexivity | constructor]. Qed.

Lemma extends_trans (d : nat) (w1 w2 w3 : State) :
  extends d w1 w2 -> extends d w2 w3 -> extends d w1 w3.
Proof.
  intros (e1 & E1 & F1) (e2 & E2 & F2). exists (e2 ++ e1). split.
  - rewrite E2, E1. apply app_assoc.
  - apply Forall_app. split; assumption.
Qed.

Lemma extends_weaken (d d' : nat) (w w' : State) :
  (d <= d')%nat -> extends d' w w' -> extends d w w'.
Proof.
  intros L (e & E & F). exists e. split; [exact E|].
  eapply Forall_impl; [|exact F]. cbv beta. intros a H. lia.
Qed.

Lemma invoke_extends (prop : ref) (d : nat) (w : State) :
  (d <= PROPERTY_WALK_MAX_DEPTH)%nat ->
  extends d w (fst (invoke S callback prop d w)).
Proof.
  intro L. unfold invoke. destruct (callback prop d (fst w)) as [s ok]. cbn [fst snd].
  exists [Called prop d]. split; [reflexivity|]. constructor; [cbn; lia | constructor].
Qed.

Lemma catchBranch_returns (recurse : Rec) (prop : ref) (d : nat) (w : State) :
  (d <= PROPERTY_WALK_MAX_DEPTH)%nat -> returnsWithin d recurse ->
  exists w', catchBranch S callback store recurse prop d w = Some w' /\ extends d w w'.
Proof.
  intros L R. unfold catchBranch.
  destruct (numProperties (store prop)); [|exists w; split; [reflexivity | apply extends_refl]].
  destruct (childCount (store prop)).
  - apply R.
  - eexists. split; [reflexivity|]. apply invoke_extends. exact L.
Qed.

Lemma visitChild_returns (recurse : Rec) (prop : ref) (d : nat) (w : State) :
  (d <= PROPERTY_WALK_MAX_DEPTH)%nat -> returnsWithin d recurse ->
  exists w', visitChild S callback store recurse prop d w = Some w' /\ extends d w w'.
Proof.
  intros L R. unfold visitChild.
  destruct (propertyType (store prop)) as [[| |]|].
  - pose proof (invoke_extends prop d w L) as I.
    destruct (invoke S callback prop d w) as [w1 ok]. cbn [fst] in I.
    destruct ok.
    + exists w1. split; [reflexivity | exact I].
    + destruct (catchBranch_returns recurse prop d w1 L R) as (w' & E & X).
      exists w'. split; [exact E | eapply extends_trans; eassumption].
  - apply R.
  - apply R.
  - apply catchBranch_returns; assumption.
Qed.

Lemma walkChildren_returns (recurse : Rec) (g : ref) (d : nat) (indices : list nat) :
  (d <= PROPERTY_WALK_MAX_DEPTH)%nat -> returnsWithin d recurse ->
  forall w, exists w',
    walkChildren S callback store recurse g d indices w = Some w' /\ extends d w w'.
Proof.
  intros L R. induction indices as [|i rest IH]; intro w.
  - exists w. split; [reflexivity | apply extends_refl].
  - cbn [walkChildren]. destruct (property (store g) i) as [[prop|]|]; try apply IH.
    destruct (visitChild_returns recurse prop d w L R) as (w1 & E & X). rewrite E.
    destruct (IH w1) as (w' & E' & X'). exists w'.
    split; [exact E' | eapply extends_trans; eassumption].
Qed.

(** Enough fuel: one unit per level down to the bound, and one more for
    the call the guard turns away. *)
Lemma walkPropertyGroup_returns (fuel : nat) :
  forall (root : option ref) (d : nat) (w : State),
    (1 <= fuel)%nat -> (PROPERTY_WALK_MAX_DEPTH + 2 <= fuel + d)%nat ->
    exists w', walkPropertyGroup S callback store fuel root d w = Some w' /\
               extends d w w' /\
               ((PROPERTY_WALK_MAX_DEPTH < d)%nat -> w' = w).
Proof.
  induction fuel as [|fuel IH]; intros root d w F1 F2; [lia|].
  cbn [walkPropertyGroup].
  destruct (PROPERTY_WALK_MAX_DEPTH <? d)%nat eqn:G.
  - exists w. split; [reflexivity|]. split; [apply extends_refl | reflexivity].
  - apply Nat.ltb_ge in G.
    destruct root as [g|].
    2:{ exists w. split; [reflexivity|]. split; [apply extends_refl | lia]. }
    cbv zeta.
    set (w0 := (fst w, Entered g d :: snd w)).
    assert (X0 : extends d w w0).
    { exists [Entered g d]. split; [reflexivity|]. constructor; [cbn; lia | constructor]. }
    destruct (childCount (store g)) as [n|].
    2:{ exists w0. split; [reflexivity|]. split; [exact X0 | lia]. }
    assert (R : returnsWithin d
                  (fun prop depth' w' =>
                     walkPropertyGroup S callback store fuel (Some prop) depth' w')).
    { intros prop w1. unfold PROPERTY_WALK_MAX_DEPTH in *.
      destruct (IH (Some prop) (d + 1)%nat w1) as (w' & E & X & _);
        [lia | unfold PROPERTY_WALK_MAX_DEPTH; lia |].
      exists w'. split; [exact E|]. apply extends_weaken with (d + 1)%nat; [lia | exact X]. }
    destruct (walkChildren_returns _ g d (seq 1 n) G R w0) as (w' & E & X).
    exists w'. split; [exact E|]. split; [eapply extends_trans; eassumption | lia].
Qed.


Lemma catchBranch_refines (r1 r2 : Rec) (prop : ref) (d : nat) (w w' : State) :
  refines r1 r2 ->
  catchBranch S callback store r1 prop d w = Some w' ->
  catchBranch S callback store r2 prop d w = Some w'.
Proof.
  intros R. unfold catchBranch.
  destruct (numProperties (store prop)); [|exact (fun H => H)].
  destruct (childCount (store prop)); [apply R | exact (fun H => H)].
Qed.

Lemma visitChild_refines (r1 r2 : Rec) (prop : ref) (d : nat) (w w' : State) :
  refines r1 r2 ->
  visitChild S callback store r1 prop d w = Some w' ->
  visitChild S callback store r2 prop d w = Some w'.
Proof.
  intros R. unfold visitChild.
  destruct (propertyType (store prop)) as [[| |]|].
  - destruct (invoke S callback prop d w) as [w1 ok].
    destruct ok; [exact (fun H => H) | apply catchBranch_refines; exact R].
  - apply R.
  - apply R.
  - apply catchBranch_refines; exact R.
Qed.

Lemma walkChildren_refines (r1 r2 : Rec) (g : ref) (d : nat) (indices : list nat) :
  refines r1 r2 ->
  forall w w',
    walkChildren S callback store r1 g d indices w = Some w' ->
    walkChildren S callback store r2 g d indices w = Some w'.
Proof.
  intros R. induction indices as [|i rest IH]; intros w w'; [exact (fun H => H)|].
  cbn [walkChildren]. destruct (property (store g) i) as [[prop|]|]; try apply IH.
  destruct (visitChild S callback store r1 prop d w) as [w1|] eqn:E; [|discriminate].
  rewrite (visitChild_refines r1 r2 prop d w w1 R E). apply IH.
Qed.

Lemma walkPropertyGroup_more_fuel (fuel : nat) :
  forall (root : option ref) (d : nat) (w w' : State),
    walkPropertyGroup S callback store fuel root d w = Some w' ->
    walkPropertyGroup S callback store (Datatypes.S fuel) root d w = Some w'.
Proof.
  induction fuel as [|fuel IH]; intros root d w w'; [discriminate|].
  intro H. cbn [walkPropertyGroup] in H |- *.
  destruct (PROPERTY_WALK_MAX_DEPTH <? d)%nat; [exact H|].
  destruct root as [g|]; [|exact H]. cbv zeta in H |- *.
  destruct (childCount (store g)) as [n|]; [|exact H].
  revert H. apply walkChildren_refines.
  intros prop d' w1 w1'. apply IH.
Qed.

Lemma walkPropertyGroup_fuel_le (f1 f2 : nat) (root : option ref) (d : nat) (w w' : State) :
  (f1 <= f2)%nat ->
  walkPropertyGroup S callback store f1 root d w = Some w' ->
  walkPropertyGroup S callback store f2 root d w = Some w'.
Proof.
  induction 1 as [|f2 L IH]; [exact (fun H => H)|].
  intro H. apply walkPropertyGroup_more_fuel. apply IH. exact H.
Qed.

(** C5: [walkPropertyGroup] returns on every host structure, cyclic ones
    included: a fuel of [PROPERTY_WALK_MAX_DEPTH + 2] nested calls always
    suffices and more fuel changes nothing; every node it enters and every
    invocation of the callback is at a depth of at most
    [PROPERTY_WALK_MAX_DEPTH]; a call at a greater depth returns at once,
    entering nothing and invoking nothing. *)
Theorem walkPropertyGroup_terminates_within_depth
    (root : option ref) (depth : nat) (w : State) :
  exists w',
    (forall fuel, (PROPERTY_WALK_MAX_DEPTH + 2 <= fuel)%nat ->
                  walkPropertyGroup S callback store fuel root depth w = Some w') /\
    (exists events,
        snd w' = events ++ snd w /\
        Forall (fun e => (eventDepth e <= PROPERTY_WALK_MAX_DEPTH)%nat) events) /\
    ((PROPERTY_WALK_MAX_DEPTH < depth)%nat -> w' = w).
Proof.
  destruct (walkPropertyGroup_returns (PROPERTY_WALK_MAX_DEPTH + 2) root depth w)
    as (w' & E & (evs & A & F) & G); [lia | lia |].
  exists w'. split; [|split].
  - intros fuel L. eapply walkPropertyGroup_fuel_le; eassumption.
  - exists evs. split; [exact A|]. eapply Forall_impl; [|exact F]. cbv beta. intros. lia.
  - exact G.
Qed.

End WalkerFacts.

Section WalkerExamples.

Import Host Walker.

(** On the self-referential structure the walk enters the node once per
    level, down to the bound, and stops. *)
Example walk_selfLoop :
  exists events,
    walkPropertyGroup (list (ref * nat)) collect selfLoop 22 (Some 0%nat) 0 ([], [])
    = Some ([], events) /\
    List.length events = 21%nat.
Proof. eexists. split; [vm_compute; reflexivity | reflexivity]. Qed.

(** A leaf at depth 4 is reported; a leaf nested past the bound is not. *)
Example walk_chain :
  option_map fst (walkPropertyGroup (list (ref * nat)) collect (chain 5) 22 (Some 0%nat) 0 ([], []))
  = Some [(5%nat, 4%nat)] /\
  option_map fst (walkPropertyGroup (list (ref * nat)) collect (chain 25) 22 (Some 0%nat) 0 ([], []))
  = Some [].
Proof. split; vm_compute; reflexivity. Qed.

End WalkerExamples.

(** ** The shape-tree extractor *)

Section ShapeFacts.

Import Host Keyframes Shape.
Local Open Scope nat_scope.

Variable convert :
  list KeyframeEase -> list KeyframeEase -> Q ->
  PropertyValue -> PropertyValue -> option CubicBezier.

Lemma nesting_nestedReport (m : nat) : nesting (nestedReport m) = m.
Proof.
  induction m as [|m IH]; [reflexivity|].
  unfold nesting in *. cbn [nestedReport map nestingOf list_max fold_right].
  rewrite IH. lia.
Qed.

Lemma div2_even (k : nat) : Nat.div2 (2 * k) = k.
Proof. rewrite Nat.div2_double. reflexivity. Qed.

Lemma extractShapeGroup_step (store : Store) (room : nat) (frameRate : Q) (g : ref) :
  extractShapeGroup convert store (S room) frameRate g
  = match childCount (store g) with
    | None => Done []
    | Some numProps =>
        shapeChildren convert store (extractShapeGroup convert store room frameRate)
          frameRate g (seq 1 numProps) []
    end.
Proof. reflexivity. Qed.

Lemma nestedGroups_childCount (n r : nat) :
  childCount (nestedGroups n r) = if Nat.div2 r <? n then Some 1 else None.
Proof.
  unfold childCount. cbn [nestedGroups numProperties].
  destruct (Nat.div2 r <? n); reflexivity.
Qed.

Lemma nestedGroups_item (n : nat) (recurse : Recurse) (frameRate : Q) (r : ref) :
  extractItem convert (nestedGroups n) recurse frameRate r
  = match recurse (r + 1) with
    | Done contents =>
        Done (mkShape "Group" "ADBE Vector Group" group (Some contents) None)
    | Threw | Overflowed =>
        Done (mkShape "Group" "ADBE Vector Group" group (Some []) None)
    end.
Proof. reflexivity. Qed.

(** The extractor reports the levels of [nestedGroups n] as far as the
    stack has room: all that are left, or as many as there is room for. *)
Lemma extractShapeGroup_nested_cut (n : nat) (frameRate : Q) :
  forall room k, k <= n ->
    extractShapeGroup convert (nestedGroups n) (S room) frameRate (2 * k)
    = Done (nestedReport (Nat.min (S room) (n - k))).
Proof.
  induction room as [|room IH]; intros k Hk;
    rewrite extractShapeGroup_step, nestedGroups_childCount, div2_even;
    destruct (k <? n) eqn:L;
    try (apply Nat.ltb_ge in L; replace (n - k) with 0 by lia;
         rewrite Nat.min_0_r; reflexivity);
    apply Nat.ltb_lt in L;
    cbn [seq shapeChildren]; cbn [nestedGroups property];
    rewrite nestedGroups_item;
    replace (2 * k + 1 + 1) with (2 * (k + 1)) by lia.
  - cbn [extractShapeGroup app].
    replace (Nat.min 1 (n - k)) with 1 by lia. reflexivity.
  - rewrite (IH (k + 1)) by lia. cbn [app].
    replace (Nat.min (S (S room)) (n - k)) with (S (Nat.min (S room) (n - (k + 1)))) by lia.
    reflexivity.
Qed.

(** With room for every level, every level of [nestedGroups n] is
    reported. *)
Lemma extractShapeGroup_nested (n : nat) (frameRate : Q) :
  forall m k, k + m = n ->
    extractShapeGroup convert (nestedGroups n) (S m) frameRate (2 * k)
    = Done (nestedReport m).
Proof.
  intros m k Hk. rewrite extractShapeGroup_nested_cut by lia.
  replace (Nat.min (S m) (n - k)) with m by lia. reflexivity.
Qed.

Lemma extractShapeData_nested_cut (n room : nat) (current : Q) (frameRate : option Q) :
  1 <= room ->
  snd (extractShapeData convert (nestedGroups n) room current (shapeLayerOver 0) frameRate)
  = Done (nestedReport (Nat.min room n)).
Proof.
  intro R. destruct room as [|room]; [lia|].
  unfold extractShapeData.
  change (propertyByName (shapeLayerOver 0) "ADBE Root Vectors Group")
    with (Some (Some 0)).
  cbn [snd]. rewrite (extractShapeGroup_nested_cut n _ room 0) by lia.
  rewrite Nat.sub_0_r. reflexivity.
Qed.

Lemma extractShapeData_nested (n : nat) (current : Q) (frameRate : option Q) :
  snd (extractShapeData convert (nestedGroups n) (S n) current (shapeLayerOver 0) frameRate)
  = Done (nestedReport n).
Proof.
  rewrite extractShapeData_nested_cut by lia.
  replace (Nat.min (S n) n) with n by lia. reflexivity.
Qed.

Lemma selfNested_childCount (r : nat) : childCount (selfNested r) = Some 1.
Proof. reflexivity. Qed.

Lemma selfNested_item (recurse : Recurse) (frameRate : Q) (r : ref) :
  extractItem convert selfNested recurse frameRate r
  = match recurse 0 with
    | Done contents =>
        Done (mkShape "Group" "ADBE Vector Group" group (Some contents) None)
    | Threw | Overflowed =>
        Done (mkShape "Group" "ADBE Vector Group" group (Some []) None)
    end.
Proof. reflexivity. Qed.

(** On self-referential content the descent goes on until the stack is
    full; the call returns a nest of groups as deep as the stack had
    room for. *)
Lemma extractShapeGroup_selfNested (frameRate : Q) (room : nat) :
  extractShapeGroup convert selfNested (S room) frameRate 0 = Done (nestedReport (S room)).
Proof.
  induction room as [|room IH]; [reflexivity|].
  rewrite extractShapeGroup_step, selfNested_childCount.
  cbn [seq shapeChildren]. cbn [selfNested property].
  rewrite selfNested_item, IH. reflexivity.
Qed.

(** Whatever the content, the nesting of what is reported stays within
    the room on the stack, and the overflow never leaves a call that
    could be made. *)
Section AnyContent.

Variable store : Store.

Lemma nesting_app (l : list ShapeGroupData) (item : ShapeGroupData) :
  nesting (l ++ [item]) = Nat.max (nesting l) (nestingOf item).
Proof.
  unfold nesting. rewrite map_app, list_max_app. cbn [map list_max fold_right].
  rewrite Nat.max_0_r. reflexivity.
Qed.

Lemma extractItem_not_overflowed (recurse : Recurse) (frameRate : Q) (prop : ref) :
  extractItem convert store recurse frameRate prop <> Overflowed.
Proof.
  unfold extractItem.
  destruct (name (store prop)); [|discriminate].
  destruct (matchName (store prop)) as [mn|]; [|discriminate].
  destruct (String.eqb mn "ADBE Vector Group"); [|discriminate].
  destruct (propertyByName (store prop) "ADBE Vectors Group") as [[sub|]|];
    try discriminate.
  destruct (recurse sub); discriminate.
Qed.

Lemma shapeChildren_not_overflowed (recurse : Recurse) (frameRate : Q) (g : ref)
    (indices : list nat) :
  forall result, shapeChildren convert store recurse frameRate g indices result <> Overflowed.
Proof.
  induction indices as [|i rest IH]; intro result; cbn [shapeChildren]; [discriminate|].
  destruct (property (store g) i) as [[prop|]|]; try apply IH.
  pose proof (extractItem_not_overflowed recurse frameRate prop) as N.
  destruct (extractItem convert store recurse frameRate prop);
    [apply IH | discriminate | contradiction].
Qed.

Lemma extractShapeGroup_not_overflowed (room : nat) (frameRate : Q) (g : ref) :
  extractShapeGroup convert store (S room) frameRate g <> Overflowed.
Proof.
  rewrite extractShapeGroup_step.
  destruct (childCount (store g)); [apply shapeChildren_not_overflowed | discriminate].
Qed.

Lemma extractItem_nesting (recurse : Recurse) (frameRate : Q) (prop : ref) (bound : nat)
    (item : ShapeGroupData) :
  (forall sub l, recurse sub = Done l -> nesting l <= bound) ->
  extractItem convert store recurse frameRate prop = Done item ->
  nestingOf item <= S bound.
Proof.
  intros R. unfold extractItem.
  destruct (name (store prop)); [|discriminate].
  destruct (matchName (store prop)) as [mn|]; [|discriminate].
  destruct (String.eqb mn "ADBE Vector Group");
    [|intro H; injection H as <-; cbn [nestingOf]; lia].
  destruct (propertyByName (store prop) "ADBE Vectors Group") as [[sub|]|];
    try (intro H; injection H as <-; cbn [nestingOf map list_max fold_right]; lia).
  destruct (recurse sub) as [contents| |] eqn:E;
    intro H; injection H as <-; cbn [nestingOf map list_max fold_right]; try lia.
  pose proof (R sub contents E) as B. unfold nesting in B. lia.
Qed.

Lemma shapeChildren_nesting (recurse : Recurse) (frameRate : Q) (g : ref) (bound : nat)
    (indices : list nat) :
  (forall sub l, recurse sub = Done l -> nesting l <= bound) ->
  forall result l,
    nesting result <= S bound ->
    shapeChildren convert store recurse frameRate g indices result = Done l ->
    nesting l <= S bound.
Proof.
  intro R. induction indices as [|i rest IH]; intros result l B; cbn [shapeChildren].
  - intro H. injection H as <-. exact B.
  - destruct (property (store g) i) as [[prop|]|]; try (apply IH; exact B).
    destruct (extractItem convert store recurse frameRate prop) as [item| |] eqn:E;
      try discriminate.
    apply IH. rewrite nesting_app.
    pose proof (extractItem_nesting recurse frameRate prop bound item R E). lia.
Qed.

Lemma extractShapeGroup_nesting (frameRate : Q) (room : nat) :
  forall g l,
    extractShapeGroup convert store room frameRate g = Done l -> nesting l <= room.
Proof.
  induction room as [|room IH]; intros g l; [discriminate|].
  rewrite extractShapeGroup_step.
  destruct (childCount (store g)) as [n|].
  - apply shapeChildren_nesting; [exact IH | cbn; lia].
  - intro H. injection H as <-. cbn. lia.
Qed.

End AnyContent.

(** On well-founded content, room for the rank of the root is room
    enough: more room changes nothing. *)
Section WellFounded.

Variable store : Store.
Variable rank : ref -> nat.
Hypothesis WF : wellFounded store rank.

Lemma extractItem_settled (r1 r2 : Recurse) (frameRate : Q) (g : ref) (count i : nat)
    (prop : ref) :
  childCount (store g) = Some count -> 1 <= i <= count ->
  property (store g) i = Some (Some prop) ->
  (forall sub, rank sub < rank g -> r2 sub = r1 sub) ->
  extractItem convert store r2 frameRate prop = extractItem convert store r1 frameRate prop.
Proof.
  intros C I P R. unfold extractItem.
  destruct (name (store prop)); [|reflexivity].
  destruct (matchName (store prop)) as [mn|]; [|reflexivity].
  destruct (String.eqb mn "ADBE Vector Group"); [|reflexivity].
  destruct (propertyByName (store prop) "ADBE Vectors Group") as [[sub|]|] eqn:B;
    try reflexivity.
  rewrite (R sub (WF g count i prop sub C I P B)). reflexivity.
Qed.

Lemma shapeChildren_settled (r1 r2 : Recurse) (frameRate : Q) (g : ref) (count : nat)
    (indices : list nat) :
  childCount (store g) = Some count ->
  Forall (fun i => 1 <= i <= count) indices ->
  (forall sub, rank sub < rank g -> r2 sub = r1 sub) ->
  forall result,
    shapeChildren convert store r2 frameRate g indices result
    = shapeChildren convert store r1 frameRate g indices result.
Proof.
  intros C F R. induction F as [|i rest I F IH]; intro result; [reflexivity|].
  cbn [shapeChildren].
  destruct (property (store g) i) as [[prop|]|] eqn:P; try apply IH.
  rewrite (extractItem_settled r1 r2 frameRate g count i prop C I P R).
  destruct (extractItem convert store r1 frameRate prop); [apply IH | reflexivity ..].
Qed.

Lemma extractShapeGroup_settled (frameRate : Q) (room : nat) :
  forall g, rank g < room ->
    extractShapeGroup convert store (S room) frameRate g
    = extractShapeGroup convert store room frameRate g.
Proof.
  induction room as [|room IH]; intros g L; [lia|].
  rewrite !extractShapeGroup_step.
  destruct (childCount (store g)) as [n|] eqn:C; [|reflexivity].
  apply shapeChildren_settled with (count := n); [exact C | |].
  - apply Forall_forall. intros i Hi. apply in_seq in Hi. lia.
  - intros sub Hs. apply IH. lia.
Qed.

Lemma extractShapeGroup_room (frameRate : Q) (g : ref) (room : nat) :
  rank g < room ->
  extractShapeGroup convert store room frameRate g
  = extractShapeGroup convert store (S (rank g)) frameRate g.
Proof.
  intro L. induction room as [|room IH]; [lia|].
  destruct (Nat.eq_dec room (rank g)) as [-> | N]; [reflexivity|].
  rewrite <- IH by lia. apply extractShapeGroup_settled. lia.
Qed.

End WellFounded.

Lemma nestedGroups_wellFounded (n : nat) :
  wellFounded (nestedGroups n) (fun r => n - Nat.div2 r).
Proof.
  intros g count i prop sub C I P B.
  rewrite nestedGroups_childCount in C.
  destruct (Nat.div2 g <? n) eqn:L; [|discriminate]. apply Nat.ltb_lt in L.
  cbn [nestedGroups property] in P. injection P as <-.
  cbn [nestedGroups propertyByName] in B.
  change (String.eqb "ADBE Vectors Group" "ADBE Vectors Group") with true in B.
  injection B as <-.
  replace (g + 1 + 1) with (S (S g)) by lia. cbn [Nat.div2]. lia.
Qed.

End ShapeFacts.

Section ShapeClaims.

Import Host Keyframes Shape.
Local Open Scope nat_scope.




End ShapeClaims.

(** ** The bezier sampling primitive *)

Section BezierFacts.

Import BezierMath.

Lemma sample_identity_x (t : Q) : x (sampleCubicBezier 0 0 1 1 t) == identityX t.
Proof. unfold sampleCubicBezier, identityX. cbn [x]. ring. Qed.

Lemma sample_identity_y (t : Q) :
  y (sampleCubicBezier 0 0 1 1 t) = x (sampleCubicBezier 0 0 1 1 t).
Proof. reflexivity. Qed.

Lemma dxdt_identity (t : Q) : dxdtAt 0 1 t == 6 * t * (1 - t).
Proof. unfold dxdtAt. ring. Qed.

(** One Newton step from the right of the root, on the convex half. *)
Lemma newton_step_lower (t h X : Q) :
  0 < t -> t <= 1 # 2 -> 0 <= X -> 0 < h ->
  h * (6 * t * (1 - t)) == identityX t - X ->
  0 < t - h /\ t - h <= 1 # 2 /\
  0 <= identityX (t - h) - X /\
  4 * (identityX (t - h) - X) <= identityX t - X.
Proof.
  intros T0 T1 X0 H0 E. unfold identityX in *.
  assert (U : 6 * (1 - t) * h <= t * (3 - 2 * t)).
  { assert (A : t * (6 * (1 - t) * h) <= t * (t * (3 - 2 * t))) by nra.
    nra. }
  assert (Hlt : h < t) by nra.
  split; [lra|]. split; [lra|].
  assert (R : (t - h) * (t - h) * (3 - 2 * (t - h)) - X == h * h * (3 - 6 * t + 2 * h)).
  { setoid_replace X with (t * t * (3 - 2 * t) - h * (6 * t * (1 - t))) by (rewrite E; ring).
    ring. }
  rewrite R. split.
  - assert (0 <= h * h) by nra. nra.
  - rewrite <- E.
    assert (K : 2 * h * (3 - 6 * t + 2 * h) <= 3 * t * (1 - t)).
    { nra. }
    nra.
Qed.

Lemma identityX_mirror (t : Q) : identityX (1 - t) == 1 - identityX t.
Proof. unfold identityX. ring. Qed.

(** The mirrored step, from the left of the root on the concave half. *)
Lemma newton_step_upper (t h X : Q) :
  1 # 2 <= t -> t < 1 -> X <= 1 -> 0 < h ->
  h * (6 * t * (1 - t)) == X - identityX t ->
  t + h < 1 /\ 1 # 2 <= t + h /\
  0 <= X - identityX (t + h) /\
  4 * (X - identityX (t + h)) <= X - identityX t.
Proof.
  intros T0 T1 X1 H0 E.
  destruct (newton_step_lower (1 - t) h (1 - X)) as (A & B & C & D); try lra.
  { unfold identityX in *. lra. }
  assert (M : identityX (1 - t - h) == 1 - identityX (t + h)).
  { unfold identityX. ring. }
  pose proof (identityX_mirror t) as M'.
  repeat split; lra.
Qed.

(** The first step, from the initial guess [t = targetX]. *)
Lemma first_step_value (X : Q) :
  0 < X -> X < 1 ->
  X - (identityX X - X) / (6 * X * (1 - X)) == (1 # 6) + (2 # 3) * X.
Proof.
  intros X0 X1. unfold identityX. field. nra.
Qed.

Lemma first_step_error (X : Q) :
  identityX ((1 # 6) + (2 # 3) * X) - X == (2 # 27) * ((1 - 2 * X) * (1 - 2 * X) * (1 - 2 * X)).
Proof. unfold identityX. ring. Qed.

Lemma identityX_eq (a b : Q) : a == b -> identityX a == identityX b.
Proof. intro H. unfold identityX. rewrite H. reflexivity. Qed.

Lemma newtonLoop_unfold (n : nat) (x1 y1 x2 y2 targetX eps t : Q) :
  newtonLoop (S n) x1 y1 x2 y2 targetX eps t
  = if Qltb (Qabs (x (sampleCubicBezier x1 y1 x2 y2 t) - targetX)) eps
    then Converged (y (sampleCubicBezier x1 y1 x2 y2 t))
    else if Qltb (Qabs (dxdtAt x1 x2 t)) eps
         then FlatDerivative (y (sampleCubicBezier x1 y1 x2 y2 t))
         else if Qeq_bool (dxdtAt x1 x2 t) 0 then NotFinite
              else newtonLoop n x1 y1 x2 y2 targetX eps
                     (Qclamp01 (t - (x (sampleCubicBezier x1 y1 x2 y2 t) - targetX)
                                    / dxdtAt x1 x2 t)).
Proof. reflexivity. Qed.

Lemma budget_pos (n : nat) : 0 < budget n.
Proof. induction n as [|n IH]; cbn [budget]; [reflexivity | lra]. Qed.

Lemma newtonLoop_descends (n : nat) :
  forall t X : Q,
    0 <= X -> X <= 1 -> descending n X t ->
    exists v, exitValue (newtonLoop n 0 0 1 1 X defaultEpsilon t) = Some v /\
              Qabs (v - X) < defaultEpsilon.
Proof.
  induction n as [|n IH]; intros t X X0 X1 D.
  - cbn [newtonLoop exitValue]. eexists. split; [reflexivity|].
    rewrite sample_identity_y, sample_identity_x.
    apply Qabs_Qlt_condition. unfold descending in D. cbn [budget] in D.
    unfold defaultEpsilon in *.
    destruct D as [(A & B & C & E) | (A & B & C & E)]; split;
      lra.
  - rewrite newtonLoop_unfold.
    pose proof (sample_identity_x t) as SX.
    pose proof (dxdt_identity t) as DX.
    set (dx := x (sampleCubicBezier 0 0 1 1 t) - X) in *.
    set (dxdt := dxdtAt 0 1 t) in *.
    destruct (Qltb (Qabs dx) defaultEpsilon) eqn:C.
    { cbn [exitValue]. eexists. split; [reflexivity|].
      rewrite sample_identity_y. apply Qltb_lt in C. exact C. }
    apply Qltb_ge in C. unfold defaultEpsilon in C.
    assert (P : (1 # 10000) <= dxdt).
    { rewrite DX. unfold descending in D. unfold identityX, dx in *.
      destruct D as [(A & B & G & E) | (A & B & G & E)].
      - assert (K : (1 # 10000) <= identityX t - X).
        { revert C. apply Qabs_case; unfold identityX; intros; lra. }
        unfold identityX in *. nra.
      - assert (K : (1 # 10000) <= X - identityX t).
        { revert C. apply Qabs_case; unfold identityX; intros; lra. }
        unfold identityX in *. nra. }
    destruct (Qltb (Qabs dxdt) defaultEpsilon) eqn:F.
    { apply Qltb_lt in F. unfold defaultEpsilon in F. exfalso.
      revert F. apply Qabs_case; intros; lra. }
    destruct (Qeq_bool dxdt 0) eqn:Z.
    { apply Qeq_bool_iff in Z. lra. }
    apply IH; [exact X0 | exact X1 |].
    assert (Dpos : 0 < 6 * t * (1 - t)) by lra.
    destruct D as [(A & B & G & E) | (A & B & G & E)].
    + (* lower half *)
      assert (K : (1 # 10000) <= identityX t - X).
      { revert C. unfold dx. apply Qabs_case; intros; lra. }
      set (h := dx / dxdt).
      assert (Hh : h * (6 * t * (1 - t)) == identityX t - X).
      { unfold h, dx. rewrite <- DX, <- SX. field. lra. }
      assert (H0 : 0 < h) by nra.
      destruct (newton_step_lower t h X A B X0 H0 Hh) as (S1 & S2 & S3 & S4).
      assert (Ec : Qclamp01 (t - h) == t - h) by (apply Qclamp01_id; lra).
      pose proof (identityX_eq _ _ Ec) as Ei.
      left. cbn [budget] in E. repeat split; lra.
    + (* upper half *)
      assert (K : (1 # 10000) <= X - identityX t).
      { revert C. unfold dx. apply Qabs_case; intros; lra. }
      set (h := dx / dxdt).
      assert (Hh : (- h) * (6 * t * (1 - t)) == X - identityX t).
      { unfold h, dx. rewrite <- DX, <- SX. field. lra. }
      assert (H0 : 0 < - h) by nra.
      destruct (newton_step_upper t (- h) X A B X1 H0 Hh) as (S1 & S2 & S3 & S4).
      assert (Ec : Qclamp01 (t - h) == t + - h) by (rewrite Qclamp01_id; lra).
      pose proof (identityX_eq _ _ Ec) as Ei.
      right. cbn [budget] in E. repeat split; lra.
Qed.

Lemma budget_9 : budget 9 == 262144 # 10000.
Proof. reflexivity. Qed.

Lemma identity_residual (X : Q) :
  identityX X - X == - (X * (1 - X) * (1 - 2 * X)).
Proof. unfold identityX. ring. Qed.

(** With a positive epsilon the loop never divides by zero. *)
Lemma newtonLoop_finite (n : nat) (x1 y1 x2 y2 targetX eps : Q) :
  0 < eps -> forall t, newtonLoop n x1 y1 x2 y2 targetX eps t <> NotFinite.
Proof.
  intro P. induction n as [|n IH]; intro t; [discriminate|].
  rewrite newtonLoop_unfold.
  destruct (Qltb _ eps); [discriminate|].
  destruct (Qltb (Qabs (dxdtAt x1 x2 t)) eps) eqn:F; [discriminate|].
  destruct (Qeq_bool (dxdtAt x1 x2 t) 0) eqn:Z; [|apply IH].
  exfalso. apply Qltb_ge in F. apply Qeq_bool_iff in Z.
  rewrite Z in F. cbn in F. lra.
Qed.

(** C9 (amended): for every [t] in [0, 1], [bezierYForX] on the identity
    curve (0,0,1,1) returns a value within epsilon (0.0001) of [t]; and
    with any positive epsilon the Newton-Raphson loop returns a value for
    every curve and target: after at most ten iterations, each clamping
    [t] to [0, 1], it never divides by a derivative below epsilon. *)
Theorem bezierYForX_identity_within_epsilon :
  (forall t : Q, 0 <= t -> t <= 1 ->
     exists v, bezierYForX 0 0 1 1 t defaultEpsilon = Some v /\
               Qabs (v - t) < defaultEpsilon) /\
  (forall x1 y1 x2 y2 targetX eps : Q, 0 < eps ->
     exists v, bezierYForX x1 y1 x2 y2 targetX eps = Some v).
Proof.
  split.
  - intros X X0 X1. unfold bezierYForX.
    rewrite newtonLoop_unfold.
    pose proof (sample_identity_x X) as SX.
    pose proof (dxdt_identity X) as DX.
    pose proof (identity_residual X) as R.
    set (dx := x (sampleCubicBezier 0 0 1 1 X) - X) in *.
    set (dxdt := dxdtAt 0 1 X) in *.
    destruct (Qltb (Qabs dx) defaultEpsilon) eqn:C.
    { cbn [exitValue]. eexists. split; [reflexivity|].
      rewrite sample_identity_y. apply Qltb_lt in C. exact C. }
    apply Qltb_ge in C. unfold defaultEpsilon in C.
    assert (N : (1 # 10000) <= X * (1 - X) /\ ~ X == 1 # 2).
    { split.
      - assert (W0 : 0 <= X * (1 - X)) by nra.
        assert (W1 : X * (1 - X) * (2 * X - 1) <= X * (1 - X)).
        { assert (0 <= X * (1 - X) * (1 - X)) by nra. nra. }
        assert (W2 : X * (1 - X) * (1 - 2 * X) <= X * (1 - X)).
        { assert (0 <= X * (1 - X) * X) by nra. nra. }
        unfold dx in C. revert C. apply Qabs_case; intros; lra.
      - intro Half.
        assert (Z0 : identityX X - X == 0) by (rewrite R, Half; reflexivity).
        unfold dx in C. revert C. apply Qabs_case; intros; lra. }
    destruct N as [N Half].
    assert (P : (6 # 10000) <= dxdt) by (rewrite DX; lra).
    destruct (Qltb (Qabs dxdt) defaultEpsilon) eqn:F.
    { apply Qltb_lt in F. unfold defaultEpsilon in F. exfalso.
      revert F. apply Qabs_case; intros; lra. }
    destruct (Qeq_bool dxdt 0) eqn:Z.
    { apply Qeq_bool_iff in Z. lra. }
    apply newtonLoop_descends; [exact X0 | exact X1 |].
    assert (Xpos : 0 < X) by nra.
    assert (Xlt : X < 1) by nra.
    assert (T1 : X - dx / dxdt == (1 # 6) + (2 # 3) * X).
    { rewrite <- (first_step_value X Xpos Xlt). unfold dx.
      rewrite DX, SX. reflexivity. }
    assert (Ec : Qclamp01 (X - dx / dxdt) == (1 # 6) + (2 # 3) * X).
    { rewrite Qclamp01_id; lra. }
    pose proof (identityX_eq _ _ Ec) as Ei.
    pose proof (first_step_error X) as FE.
    pose proof budget_9 as B9.
    set (c := (1 - 2 * X) * (1 - 2 * X) * (1 - 2 * X)) in *.
    unfold descending.
    destruct (Qlt_le_dec X (1 # 2)) as [Lo | Hi].
    + left.
      assert (A2 : 0 <= (1 - 2 * X) * (1 - 2 * X) /\ (1 - 2 * X) * (1 - 2 * X) <= 1) by nra.
      assert (0 <= c /\ c <= 1) by (unfold c; nra).
      repeat split; lra.
    + right.
      assert (A2 : 0 <= (1 - 2 * X) * (1 - 2 * X) /\ (1 - 2 * X) * (1 - 2 * X) <= 1) by nra.
      assert (- 1 <= c /\ c <= 0) by (unfold c; nra).
      repeat split; lra.
  - intros x1 y1 x2 y2 targetX eps P. unfold bezierYForX.
    pose proof (newtonLoop_finite 10 x1 y1 x2 y2 targetX eps P targetX) as NF.
    destruct (newtonLoop 10 x1 y1 x2 y2 targetX eps targetX);
      cbn [exitValue]; try (eexists; reflexivity).
    contradiction.
Qed.


Lemma bezierYForX_identity_within_epsilon_witness :
  exists v, bezierYForX 0 0 1 1 (1 # 4) defaultEpsilon = Some v /\
            Qabs (v - (1 # 4)) < defaultEpsilon.
Proof.
  apply (proj1 bezierYForX_identity_within_epsilon (1 # 4)).
  - apply Qle_bool_imp_le. reflexivity.
  - apply Qle_bool_imp_le. reflexivity.
Defined.

(** C9 (counterexample): at [t = 1/4] the value returned for the
    identity curve is above 1/4 (about 0.25005), not 1/4. *)
Lemma bezierYForX_identity_quarter :
  exists v, bezierYForX 0 0 1 1 (1 # 4) defaultEpsilon = Some v /\ (1 # 4) < v.
Proof. eexists. split; [vm_compute; reflexivity | reflexivity]. Qed.

End BezierFacts.

(** ** The animation summary *)

Section SummaryFacts.

Import Keyframes Summary.
Local Open Scope nat_scope.

Lemma checkProp_cases (s : AnimationSummary) (slot : option AnimatedProperty) :
  checkProp s slot = s \/
  exists entry,
    checkProp s slot
    = mkSummary true (animatedPropertyCount s + 1)
                (totalKeyframes s + keyframeCount entry) (properties s ++ [entry]).
Proof.
  unfold checkProp. destruct slot as [prop|]; [|left; reflexivity].
  destruct (negb (Keyframes.isAnimated prop)); [left; reflexivity|].
  destruct (keyframes prop) as [kfs|]; [|left; reflexivity].
  destruct (List.length kfs <? 2); [left; reflexivity|].
  destruct kfs as [|firstKf rest]; [left; reflexivity|].
  right. eexists (mkPropertySummary _ _ _ _ _ _ _). reflexivity.
Qed.

Lemma checkProp_consistent (s : AnimationSummary) (slot : option AnimatedProperty) :
  consistent s -> consistent (checkProp s slot).
Proof.
  intros (A & B & C).
  destruct (checkProp_cases s slot) as [-> | (entry & ->)]; [repeat split; tauto|].
  unfold consistent. cbn [animatedPropertyCount totalKeyframes properties Summary.isAnimated].
  rewrite length_app, map_app, list_sum_app. cbn [List.length map list_sum].
  split; [lia|]. split; [cbn [list_sum fold_right]; lia|]. split; [lia | reflexivity].
Qed.

Lemma fold_checkProp_consistent (l : list (option AnimatedProperty)) :
  forall s, consistent s -> consistent (fold_left checkProp l s).
Proof.
  induction l as [|slot l IH]; intros s H; [exact H|].
  cbn [fold_left]. apply IH. apply checkProp_consistent. exact H.
Qed.

Lemma summary_consistent (layerData : LayerData) :
  consistent (computeAnimationSummary layerData).
Proof.
  unfold computeAnimationSummary.
  assert (I : consistent (mkSummary false 0 0 [])).
  { unfold consistent. cbn. split; [reflexivity|]. split; [reflexivity|].
    split; [discriminate | lia]. }
  destruct (transform layerData) as [t|]; [|exact I].
  pose proof (fold_checkProp_consistent (propsToCheck t) _ I) as F.
  destruct (positionSeparated t) as [sep|]; [|exact F].
  destruct (sz sep); repeat apply checkProp_consistent; exact F.
Qed.


Lemma checkProp_contribution (s : AnimationSummary) (slot : option AnimatedProperty) :
  wellFormed slot ->
  properties (checkProp s slot) = properties s ++ contribution slot /\
  (Summary.isAnimated (checkProp s slot) = true <->
   Summary.isAnimated s = true \/ qualifies slot = true).
Proof.
  intro W. unfold checkProp, contribution, qualifies, digest, keyframeList.
  destruct slot as [prop|].
  2:{ cbn. rewrite app_nil_r. intuition discriminate. }
  cbn [wellFormed] in W.
  destruct (keyframes prop) as [kfs|] eqn:K.
  2:{ cbn. destruct (negb (Keyframes.isAnimated prop));
        rewrite app_nil_r; intuition discriminate. }
  rewrite (W ltac:(discriminate)). cbn [negb].
  destruct kfs as [|firstKf [|second rest]].
  - cbn. rewrite app_nil_r. intuition discriminate.
  - cbn. rewrite app_nil_r. intuition discriminate.
  - cbn [List.length Nat.ltb Nat.leb properties Summary.isAnimated].
    split; [|intuition reflexivity].
    f_equal.
Qed.

Lemma fold_checkProp_contribution (l : list (option AnimatedProperty)) :
  Forall wellFormed l ->
  forall s,
    properties (fold_left checkProp l s) = properties s ++ flat_map contribution l /\
    (Summary.isAnimated (fold_left checkProp l s) = true <->
     Summary.isAnimated s = true \/ exists slot, In slot l /\ qualifies slot = true).
Proof.
  induction 1 as [|slot l W F IH]; intro s.
  - cbn. rewrite app_nil_r. split; [reflexivity|].
    split; [tauto | intros [H | (x & [] & _)]; exact H].
  - cbn [fold_left flat_map].
    destruct (IH (checkProp s slot)) as [P A].
    destruct (checkProp_contribution s slot W) as [P1 A1].
    split.
    + rewrite P, P1, app_assoc. reflexivity.
    + rewrite A, A1. split.
      * intros [[H | H] | (x & I & Q)]; [left; exact H | right | right].
        -- exists slot. split; [left; reflexivity | exact H].
        -- exists x. split; [right; exact I | exact Q].
      * intros [H | (x & [<- | I] & Q)]; [tauto | tauto |].
        right. exists x. split; assumption.
Qed.

Lemma contribution_filter (l : list (option AnimatedProperty)) :
  flat_map contribution l = flat_map digest (filter qualifies l).
Proof.
  induction l as [|slot l IH]; [reflexivity|].
  cbn [flat_map filter]. unfold contribution at 1.
  destruct (qualifies slot); cbn [flat_map app]; rewrite IH; reflexivity.
Qed.

Lemma contribution_none : contribution None = [].
Proof. reflexivity. Qed.

Lemma option_slot (o : option AnimatedProperty) :
  flat_map contribution (match o with Some p => [Some p] | None => [] end)
  = contribution o.
Proof. destruct o; cbn; rewrite ?app_nil_r; reflexivity. Qed.

Lemma option_slot_In (o : option AnimatedProperty) (x : option AnimatedProperty) :
  In x (match o with Some p => [Some p] | None => [] end) -> x = o.
Proof. destruct o; cbn; [intros [H | []]; symmetry; exact H | intros []]. Qed.

Lemma computeAnimationSummary_fold (layerData : LayerData) (t : TransformProperties) :
  transform layerData = Some t ->
  computeAnimationSummary layerData = fold_left checkProp (visited t) (mkSummary false 0 0 []).
Proof.
  intro T. unfold computeAnimationSummary, visited. rewrite T. rewrite fold_left_app.
  destruct (positionSeparated t) as [sep|]; [|reflexivity].
  destruct (sz sep); reflexivity.
Qed.

Lemma visited_In (t : TransformProperties) (x : option AnimatedProperty) :
  In x (visited t) -> In x (scannedProperties t).
Proof.
  unfold visited, propsToCheck, scannedProperties. rewrite !in_app_iff.
  intros [[H | [H | [H | H]]] | H].
  - left. cbn in H |- *. intuition.
  - apply option_slot_In in H. subst. left. cbn. intuition.
  - apply option_slot_In in H. subst. left. cbn. intuition.
  - apply option_slot_In in H. subst. left. cbn. intuition.
  - right. destruct (positionSeparated t) as [sep|]; [|exact H].
    cbn [app] in H. destruct H as [H | [H | H]]; [left; exact H | right; left; exact H |].
    apply option_slot_In in H. subst. right. right. left. reflexivity.
Qed.

Lemma visited_contribution (t : TransformProperties) :
  flat_map contribution (visited t) = flat_map contribution (scannedProperties t).
Proof.
  unfold visited, propsToCheck, scannedProperties.
  rewrite !flat_map_app, !option_slot.
  destruct (positionSeparated t) as [sep|].
  - rewrite flat_map_app, option_slot. cbn [flat_map]. rewrite !app_nil_r, <- !app_assoc.
    reflexivity.
  - cbn [flat_map]. rewrite !app_nil_r, <- !app_assoc. reflexivity.
Qed.


Lemma digest_qualifying (slot : option AnimatedProperty) :
  qualifies slot = true ->
  exists prop kfs firstKf,
    slot = Some prop /\ keyframes prop = Some kfs /\ 2 <= List.length kfs /\
    hd_error kfs = Some firstKf /\
    digest slot
    = [mkPropertySummary (pname prop) (List.length kfs)
         (kvalue firstKf) (kvalue (last kfs firstKf))
         (time (last kfs firstKf) - time firstKf)%Q (time firstKf)
         (segmentBezierOf firstKf)].
Proof.
  unfold qualifies, digest, keyframeList. intro Q.
  destruct slot as [prop|]; [|discriminate].
  destruct (keyframes prop) as [kfs|] eqn:K; [|discriminate].
  apply Nat.leb_le in Q.
  destruct kfs as [|firstKf [|second rest]]; cbn [List.length] in Q; try lia.
  exists prop, (firstKf :: second :: rest), firstKf.
  split; [reflexivity|]. split; [exact K|]. split; [cbn [List.length]; lia|].
  split; reflexivity.
Qed.

Lemma digests_length (l : list (option AnimatedProperty)) :
  List.length (flat_map digest (filter qualifies l)) = List.length (filter qualifies l).
Proof.
  induction l as [|slot l IH]; [reflexivity|].
  cbn [filter]. destruct (qualifies slot) eqn:Q; [|exact IH].
  cbn [flat_map]. rewrite length_app, IH.
  destruct (digest_qualifying slot Q) as (p & k & f & _ & _ & _ & _ & ->). reflexivity.
Qed.

Lemma filter_nonempty {A : Type} (f : A -> bool) (l : list A) :
  0 < List.length (filter f l) <-> exists a, In a l /\ f a = true.
Proof.
  split.
  - destruct (filter f l) as [|a r] eqn:E; [cbn; lia|]. intros _.
    exists a. apply filter_In. rewrite E. left. reflexivity.
  - intros (a & I & F).
    assert (M : In a (filter f l)) by (apply filter_In; split; assumption).
    destruct (filter f l); [contradiction | cbn; lia].
Qed.

Lemma extracted_wellFormed (slot : option AnimatedProperty) :
  extracted slot -> wellFormed slot.
Proof.
  intros [-> | (convert & property & frameRate & E)]; [exact I|].
  pose proof (extractAnimatedProperty_wellFormed convert property frameRate) as W.
  rewrite E in W. exact W.
Qed.

(** C10: every summary is internally consistent: the property count is
    the length of the properties list, the keyframe total is the sum of
    the entries' keyframe counts, and [isAnimated] holds exactly when the
    count is positive. *)
Theorem computeAnimationSummary_consistent (layerData : LayerData) :
  consistent (computeAnimationSummary layerData).
Proof. exact (summary_consistent layerData). Qed.

(** C8: on a transform descriptor built by [extractTransform] (every
    slot as [extractAnimatedProperty] returns it), the summary lists, in
    scan order, one entry for each scanned property whose keyframe list
    has at least 2 entries, with the count, first and last value, duration,
    delay and first segment bezier of that property; [isAnimated] holds
    exactly when one qualifies, and with none qualifying the flag is false
    and the list empty. *)
Theorem computeAnimationSummary_digests (layerData : LayerData) :
  (transform layerData = None ->
   Summary.isAnimated (computeAnimationSummary layerData) = false /\
   properties (computeAnimationSummary layerData) = []) /\
  (forall t : TransformProperties,
      transform layerData = Some t ->
      (forall slot, In slot (scannedProperties t) -> extracted slot) ->
      properties (computeAnimationSummary layerData)
      = flat_map digest (filter qualifies (scannedProperties t)) /\
      (Summary.isAnimated (computeAnimationSummary layerData) = true <->
       exists slot, In slot (scannedProperties t) /\ qualifies slot = true) /\
      ((forall slot, In slot (scannedProperties t) -> qualifies slot = false) ->
       Summary.isAnimated (computeAnimationSummary layerData) = false /\
       properties (computeAnimationSummary layerData) = []) /\
      (forall entry, In entry (properties (computeAnimationSummary layerData)) ->
         exists prop kfs firstKf,
           In (Some prop) (scannedProperties t) /\
           keyframes prop = Some kfs /\ 2 <= List.length kfs /\
           hd_error kfs = Some firstKf /\
           Summary.name entry = pname prop /\
           keyframeCount entry = List.length kfs /\
           startValue entry = kvalue firstKf /\
           endValue entry = kvalue (last kfs firstKf) /\
           duration entry = (time (last kfs firstKf) - time firstKf)%Q /\
           delay entry = time firstKf /\
           easing entry = segmentBezierOf firstKf)).
Proof.
  split.
  - intro T. unfold computeAnimationSummary. rewrite T. split; reflexivity.
  - intros t T X.
    assert (W : forall slot, In slot (scannedProperties t) -> wellFormed slot)
      by (intros slot H; apply extracted_wellFormed, X, H).
    assert (P : properties (computeAnimationSummary layerData)
                = flat_map digest (filter qualifies (scannedProperties t))).
    { rewrite (computeAnimationSummary_fold layerData t T).
      destruct (fold_checkProp_contribution (visited t)) with (s := mkSummary false 0 0 [])
        as [P _].
      { apply Forall_forall. intros x Hx. apply W. apply visited_In. exact Hx. }
      rewrite P. cbn [properties app].
      rewrite visited_contribution. apply contribution_filter. }
    destruct (summary_consistent layerData) as (C1 & _ & C3).
    assert (A : Summary.isAnimated (computeAnimationSummary layerData) = true <->
                exists slot, In slot (scannedProperties t) /\ qualifies slot = true).
    { rewrite C3, C1, P, digests_length. apply filter_nonempty. }
    split; [exact P|]. split; [exact A|]. split.
    + intro Non.
      assert (F : filter qualifies (scannedProperties t) = []).
      { destruct (filter qualifies (scannedProperties t)) as [|a r] eqn:E; [reflexivity|].
        assert (M : In a (filter qualifies (scannedProperties t))) by (rewrite E; left; reflexivity).
        apply filter_In in M. destruct M as [I Q]. rewrite (Non a I) in Q. discriminate. }
      split.
      * destruct (Summary.isAnimated (computeAnimationSummary layerData)) eqn:E; [|reflexivity].
        destruct (proj1 A eq_refl) as (slot & I & Q). rewrite (Non slot I) in Q. discriminate.
      * rewrite P, F. reflexivity.
    + intros entry I. rewrite P in I. apply in_flat_map in I.
      destruct I as (slot & S & D). apply filter_In in S. destruct S as [S Q].
      destruct (digest_qualifying slot Q) as (prop & kfs & firstKf & -> & K & L & Hd & E).
      rewrite E in D. destruct D as [<- | []].
      exists prop, kfs, firstKf. cbn. repeat split; assumption.
Qed.

Lemma computeAnimationSummary_digests_witness :
  properties (computeAnimationSummary Examples.fadeLayer)
  = flat_map digest
      (filter qualifies
         (scannedProperties
            (mkTransform None None None None None None None None None
               (Examples.returnedProperty
                  (extractAnimatedProperty Easing.convertEasingWithValues
                     Examples.fadeProperty 30%Q))))).
Proof.
  apply (proj2 (computeAnimationSummary_digests Examples.fadeLayer) _ eq_refl).
  intros slot H. unfold scannedProperties in H. cbn [app In] in H.
  cbn [anchorPoint position scale rotation opacity rotationX rotationY rotationZ
       positionSeparated] in H.
  repeat (destruct H as [<- | H];
          [first [left; reflexivity
                 | right; exists Easing.convertEasingWithValues, Examples.fadeProperty, 30%Q;
                   reflexivity]|]).
  destruct H.
Defined.

End SummaryFacts.

(** The end-to-end example of the specification: opacity from 0 at 0 s
    to 100 at 1 s, Easy Ease on both sides. *)
Example fadeLayer_summary :
  exists entry,
    Summary.properties (Summary.computeAnimationSummary Examples.fadeLayer) = [entry] /\
    Summary.keyframeCount entry = 2%nat /\
    Summary.startValue entry = VNum 0 /\
    Summary.endValue entry = VNum 100 /\
    Summary.duration entry == 1 /\
    Summary.delay entry == 0 /\
    returns (Summary.easing entry)
            (mkBezier (Fin (3333 # 10000)) (Fin 0) (Fin (6667 # 10000)) (Fin 1)).
Proof.
  eexists. split; [vm_compute; reflexivity|]. cbn.
  repeat split; try reflexivity; vm_compute; intuition discriminate.
Qed.

(** ** Sampled curves: [generateCurvePoints], [getYRange], [hasOvershoot] *)

Section CurveFacts.

Import BezierMath.

Lemma sample_start (x1 y1 x2 y2 t : Q) :
  t == 0 ->
  x (sampleCubicBezier x1 y1 x2 y2 t) == 0 /\ y (sampleCubicBezier x1 y1 x2 y2 t) == 0.
Proof.
  intro H. unfold sampleCubicBezier. cbn [x y]. rewrite H. split; ring.
Qed.

Lemma sample_end (x1 y1 x2 y2 t : Q) :
  t == 1 ->
  x (sampleCubicBezier x1 y1 x2 y2 t) == 1 /\ y (sampleCubicBezier x1 y1 x2 y2 t) == 1.
Proof.
  intro H. unfold sampleCubicBezier. cbn [x y]. rewrite H. split; ring.
Qed.

(** With both control ordinates in [0, 1] the curve stays in [0, 1]
    over the whole parameter range. *)
Lemma sample_y_unit (x1 y1 x2 y2 t : Q) :
  0 <= t -> t <= 1 -> 0 <= y1 -> y1 <= 1 -> 0 <= y2 -> y2 <= 1 ->
  0 <= y (sampleCubicBezier x1 y1 x2 y2 t) /\ y (sampleCubicBezier x1 y1 x2 y2 t) <= 1.
Proof.
  intros T0 T1 A0 A1 B0 B1. unfold sampleCubicBezier. cbn [y].
  pose (a := (1 - t) * (1 - t) * t).
  pose (b := (1 - t) * (t * t)).
  pose (c := t * t * t).
  pose (d := (1 - t) * (1 - t) * (1 - t)).
  assert (M : 0 <= 1 - t) by lra.
  assert (MM : 0 <= (1 - t) * (1 - t)) by (apply Qmult_le_0_compat; exact M).
  assert (TT : 0 <= t * t) by (apply Qmult_le_0_compat; exact T0).
  assert (Ha : 0 <= a) by (unfold a; apply Qmult_le_0_compat; assumption).
  assert (Hb : 0 <= b) by (unfold b; apply Qmult_le_0_compat; assumption).
  assert (Hc : 0 <= c) by (unfold c; apply Qmult_le_0_compat; assumption).
  assert (Hd : 0 <= d) by (unfold d; apply Qmult_le_0_compat; assumption).
  assert (S : d + 3 * a + 3 * b + c == 1) by (unfold a, b, c, d; ring).
  assert (E : (1 - t) * (1 - t) * (1 - t) * 0 + 3 * ((1 - t) * (1 - t)) * t * y1
              + 3 * (1 - t) * (t * t) * y2 + t * t * t * 1
              == 3 * (a * y1) + 3 * (b * y2) + c) by (unfold a, b, c; ring).
  rewrite E.
  assert (P1 : 0 <= a * y1 /\ a * y1 <= a) by nra.
  assert (P2 : 0 <= b * y2 /\ b * y2 <= b) by nra.
  split; lra.
Qed.

Lemma hasOvershoot_false (y1 y2 : Q) :
  hasOvershoot y1 y2 = false <-> (0 <= y1 /\ y1 <= 1 /\ 0 <= y2 /\ y2 <= 1).
Proof.
  unfold hasOvershoot. rewrite !orb_false_iff, !Qltb_ge. tauto.
Qed.

Lemma inject_nat_nonneg (i : nat) : 0 <= inject_Z (Z.of_nat i).
Proof. change 0 with (inject_Z 0). rewrite <- Zle_Qle. lia. Qed.

Lemma inject_nat_pos (n : nat) : (1 <= n)%nat -> 1 <= inject_Z (Z.of_nat n).
Proof. intro H. change 1 with (inject_Z 1). rewrite <- Zle_Qle. lia. Qed.

Lemma inject_nat_le (i n : nat) : (i <= n)%nat -> inject_Z (Z.of_nat i) <= inject_Z (Z.of_nat n).
Proof. intro H. rewrite <- Zle_Qle. lia. Qed.

Lemma fraction_unit (i n : nat) :
  (1 <= n)%nat -> (i <= n)%nat ->
  0 <= inject_Z (Z.of_nat i) / inject_Z (Z.of_nat n) /\
  inject_Z (Z.of_nat i) / inject_Z (Z.of_nat n) <= 1.
Proof.
  intros N L.
  pose proof (inject_nat_nonneg i) as I0.
  pose proof (inject_nat_pos n N) as N1.
  pose proof (inject_nat_le i n L) as IL.
  set (a := inject_Z (Z.of_nat i)) in *. set (b := inject_Z (Z.of_nat n)) in *.
  assert (B : 0 < b) by lra.
  split.
  - apply Qle_shift_div_l; [exact B | lra].
  - apply Qle_shift_div_r; [exact B | lra].
Qed.

(** The samples of a positive whole count. *)
Lemma generateCurvePoints_whole (x1 y1 x2 y2 : Q) (n : nat) :
  (1 <= n)%nat ->
  generateCurvePoints x1 y1 x2 y2 (inject_Z (Z.of_nat n))
  = map (fun i : nat =>
           Some (sampleCubicBezier x1 y1 x2 y2
                   (inject_Z (Z.of_nat i) / inject_Z (Z.of_nat n))))
        (seq 0 (S n)).
Proof.
  intro N. unfold generateCurvePoints.
  pose proof (inject_nat_pos n N) as N1.
  assert (F : Qltb (inject_Z (Z.of_nat n)) 0 = false) by (apply Qltb_ge; lra).
  rewrite F. rewrite Qfloor_Z, Nat2Z.id.
  assert (Z : Qeq_bool (inject_Z (Z.of_nat n)) 0 = false).
  { destruct (Qeq_bool (inject_Z (Z.of_nat n)) 0) eqn:E; [|reflexivity].
    apply Qeq_bool_iff in E. lra. }
  apply map_ext. intro i. rewrite Z. reflexivity.
Qed.

Lemma widen_bounds (r : YRange) (p : option Point) :
  min (widen r p) <= min r /\ max r <= max (widen r p) /\
  (forall q, p = Some q -> min (widen r p) <= y q /\ y q <= max (widen r p)) /\
  (min (widen r p) = min r \/ exists q, p = Some q /\ min (widen r p) = y q) /\
  (max (widen r p) = max r \/ exists q, p = Some q /\ max (widen r p) = y q).
Proof.
  destruct p as [q|]; cbn [widen].
  2:{ split; [lra|]. split; [lra|]. split; [discriminate|]. split; left; reflexivity. }
  cbv zeta. cbn [min max].
  destruct (Qltb (y q) (min r)) eqn:A; destruct (Qltb (max r) (y q)) eqn:B;
    try apply Qltb_lt in A; try apply Qltb_ge in A;
    try apply Qltb_lt in B; try apply Qltb_ge in B.
  all: split; [lra|]; split; [lra|]; split;
    [intros q' E; injection E as <-; split; lra|].
  all: split; first [left; reflexivity | right; exists q; split; reflexivity].
Qed.

Lemma fold_widen_bounds (l : list (option Point)) :
  forall r,
    let r' := fold_left widen l r in
    min r' <= min r /\ max r <= max r' /\
    (forall q, In (Some q) l -> min r' <= y q /\ y q <= max r') /\
    (min r' = min r \/ exists q, In (Some q) l /\ min r' = y q) /\
    (max r' = max r \/ exists q, In (Some q) l /\ max r' = y q).
Proof.
  induction l as [|p l IH]; intro r; cbv zeta.
  - cbn [fold_left]. split; [lra|]. split; [lra|]. split; [intros q []|].
    split; left; reflexivity.
  - cbn [fold_left].
    destruct (IH (widen r p)) as (A & B & C & D & E).
    destruct (widen_bounds r p) as (A' & B' & C' & D' & E').
    split; [lra|]. split; [lra|]. split; [|split].
    + intros q [-> | H]; [|apply C; exact H].
      destruct (C' q eq_refl). split; lra.
    + destruct D as [D | (q & I & D)].
      * rewrite D. destruct D' as [D' | (q & -> & D')].
        -- left. exact D'.
        -- right. exists q. split; [left; reflexivity | exact D'].
      * right. exists q. split; [right; exact I | exact D].
    + destruct E as [E | (q & I & E)].
      * rewrite E. destruct E' as [E' | (q & -> & E')].
        -- left. exact E'.
        -- right. exists q. split; [left; reflexivity | exact E'].
      * right. exists q. split; [right; exact I | exact E].
Qed.

Lemma fold_widen_unit (l : list (option Point)) :
  (forall q, In (Some q) l -> 0 <= y q /\ y q <= 1) ->
  fold_left widen l (mkRange 0 1) = mkRange 0 1.
Proof.
  induction l as [|p l IH]; intro H; [reflexivity|].
  cbn [fold_left].
  assert (W : widen (mkRange 0 1) p = mkRange 0 1).
  { destruct p as [q|]; [|reflexivity]. cbn [widen min max]. cbv zeta.
    destruct (H q (or_introl eq_refl)) as [L U].
    assert (A : Qltb (y q) 0 = false) by (apply Qltb_ge; exact L).
    assert (B : Qltb 1 (y q) = false) by (apply Qltb_ge; exact U).
    rewrite A, B. reflexivity. }
  rewrite W. apply IH. intros q I. apply H. right. exact I.
Qed.

Lemma hundred : 100 = inject_Z (Z.of_nat 100).
Proof. reflexivity. Qed.

(** The samples [getYRange] scans lie at parameters in [0, 1]. *)
Lemma getYRange_samples (x1 y1 x2 y2 : Q) (q : Point) :
  In (Some q) (generateCurvePoints x1 y1 x2 y2 100) ->
  exists t, 0 <= t /\ t <= 1 /\ q = sampleCubicBezier x1 y1 x2 y2 t.
Proof.
  rewrite hundred, generateCurvePoints_whole by lia.
  intro H. apply in_map_iff in H. destruct H as (i & E & I).
  apply in_seq in I. injection E as <-.
  destruct (fraction_unit i 100) as [A B]; [lia | lia |].
  eexists. split; [exact A|]. split; [exact B | reflexivity].
Qed.

(** The loop of [bezierYForX] started inside [0, 1] on a curve without
    overshoot ends on an ordinate in [0, 1]. *)
Lemma newtonLoop_unit (n : nat) (x1 y1 x2 y2 targetX eps : Q) :
  0 < eps -> 0 <= y1 -> y1 <= 1 -> 0 <= y2 -> y2 <= 1 ->
  forall t, 0 <= t -> t <= 1 ->
    exists v, exitValue (newtonLoop n x1 y1 x2 y2 targetX eps t) = Some v /\
              0 <= v /\ v <= 1.
Proof.
  intros P A0 A1 B0 B1.
  induction n as [|n IH]; intros t T0 T1.
  - cbn [newtonLoop exitValue]. eexists. split; [reflexivity|].
    apply sample_y_unit; assumption.
  - rewrite newtonLoop_unfold.
    destruct (Qltb _ eps).
    { cbn [exitValue]. eexists. split; [reflexivity|]. apply sample_y_unit; assumption. }
    destruct (Qltb (Qabs (dxdtAt x1 x2 t)) eps) eqn:F.
    { cbn [exitValue]. eexists. split; [reflexivity|]. apply sample_y_unit; assumption. }
    destruct (Qeq_bool (dxdtAt x1 x2 t) 0) eqn:Z.
    { exfalso. apply Qltb_ge in F. apply Qeq_bool_iff in Z.
      rewrite Z in F. cbn in F. lra. }
    apply IH; apply Qclamp01_unit.
Qed.

End CurveFacts.

Section CurveProperties.

Import BezierMath.

(** X1: [generateCurvePoints] with a whole count [n >= 1] returns [n + 1]
    samples, the one of index [i] taken at [i / n]: the first is the
    curve's start (0, 0), the last its end (1, 1), whatever the control
    points.  The count 0 gives one point without coordinates, a negative
    count none. *)
Theorem generateCurvePoints_samples (x1 y1 x2 y2 : Q) :
  (forall n : nat, (1 <= n)%nat ->
     let points := generateCurvePoints x1 y1 x2 y2 (inject_Z (Z.of_nat n)) in
     List.length points = S n /\
     (forall i, (i <= n)%nat ->
        nth_error points i
        = Some (Some (sampleCubicBezier x1 y1 x2 y2
                        (inject_Z (Z.of_nat i) / inject_Z (Z.of_nat n))))) /\
     (exists first, nth_error points 0 = Some (Some first) /\
                    x first == 0 /\ y first == 0) /\
     (exists last, nth_error points n = Some (Some last) /\
                   x last == 1 /\ y last == 1)) /\
  generateCurvePoints x1 y1 x2 y2 0 = [None] /\
  (forall numPoints : Q, numPoints < 0 -> generateCurvePoints x1 y1 x2 y2 numPoints = []).
Proof.
  split; [|split].
  - intros n N points.
    assert (E : points = map (fun i : nat =>
                   Some (sampleCubicBezier x1 y1 x2 y2
                           (inject_Z (Z.of_nat i) / inject_Z (Z.of_nat n))))
                  (seq 0 (S n)))
      by (apply generateCurvePoints_whole; exact N).
    assert (Nth : forall i, (i <= n)%nat ->
              nth_error points i
              = Some (Some (sampleCubicBezier x1 y1 x2 y2
                              (inject_Z (Z.of_nat i) / inject_Z (Z.of_nat n))))).
    { intros i L. rewrite E, nth_error_map.
      rewrite (nth_error_nth' (seq 0 (S n)) 0%nat) by (rewrite length_seq; lia).
      rewrite seq_nth by lia. reflexivity. }
    pose proof (inject_nat_pos n N) as N1.
    split; [rewrite E, length_map, length_seq; reflexivity|].
    split; [exact Nth|]. split.
    + eexists. split; [apply Nth; lia|]. apply sample_start.
      change (inject_Z (Z.of_nat 0)) with 0. unfold Qdiv. ring.
    + eexists. split; [apply Nth; lia|]. apply sample_end.
      field. lra.
  - reflexivity.
  - intros numPoints H. unfold generateCurvePoints.
    apply Qltb_lt in H. rewrite H. reflexivity.
Qed.

Lemma generateCurvePoints_samples_witness :
  List.length (generateCurvePoints 0 0 1 1 (inject_Z (Z.of_nat 4))) = 5%nat.
Proof.
  apply (proj1 (generateCurvePoints_samples 0 0 1 1) 4%nat). lia.
Defined.

(** X2: The range [getYRange] returns always contains [0, 1] and the
    ordinate of each of the 101 samples, and each of its bounds is either
    the initial one (0 below, 1 above) or the ordinate of a sample. *)
Theorem getYRange_encloses (x1 y1 x2 y2 : Q) :
  let r := getYRange x1 y1 x2 y2 in
  let points := generateCurvePoints x1 y1 x2 y2 100 in
  min r <= 0 /\ 1 <= max r /\
  List.length points = 101%nat /\
  (forall p, In (Some p) points -> min r <= y p /\ y p <= max r) /\
  (min r = 0 \/ exists p, In (Some p) points /\ min r = y p) /\
  (max r = 1 \/ exists p, In (Some p) points /\ max r = y p).
Proof.
  cbv zeta. unfold getYRange.
  destruct (fold_widen_bounds (generateCurvePoints x1 y1 x2 y2 100) (mkRange 0 1))
    as (A & B & C & D & E).
  cbn [min max] in A, B, D, E.
  split; [exact A|]. split; [exact B|]. split.
  { rewrite hundred, generateCurvePoints_whole by lia.
    rewrite length_map, length_seq. reflexivity. }
  split; [exact C|]. split; [exact D | exact E].
Qed.

(** X3: For a curve [hasOvershoot] reports none on (both control ordinates
    in [0, 1]), [getYRange] returns exactly the default range: min 0 and
    max 1, whatever the abscissas of the control points. *)
Theorem getYRange_no_overshoot (x1 y1 x2 y2 : Q) :
  hasOvershoot y1 y2 = false ->
  getYRange x1 y1 x2 y2 = mkRange 0 1.
Proof.
  intro H. apply hasOvershoot_false in H. destruct H as (A0 & A1 & B0 & B1).
  unfold getYRange. apply fold_widen_unit.
  intros q I. destruct (getYRange_samples _ _ _ _ _ I) as (t & T0 & T1 & ->).
  apply sample_y_unit; assumption.
Qed.

Lemma getYRange_no_overshoot_witness :
  getYRange (42 # 100) 0 (58 # 100) 1 = mkRange 0 1.
Proof.
  apply getYRange_no_overshoot. reflexivity.
Defined.

(** X4: At the two ends of the curve [bezierYForX] answers exactly: 0 for
    the target 0 and 1 for the target 1, for every curve and every
    positive epsilon (the first iteration already converges). *)
Theorem bezierYForX_endpoints (x1 y1 x2 y2 eps : Q) :
  0 < eps ->
  (exists v, bezierYForX x1 y1 x2 y2 0 eps = Some v /\ v == 0) /\
  (exists v, bezierYForX x1 y1 x2 y2 1 eps = Some v /\ v == 1).
Proof.
  intro P. unfold bezierYForX. rewrite !newtonLoop_unfold.
  destruct (sample_start x1 y1 x2 y2 0 (Qeq_refl 0)) as [X0 Y0].
  destruct (sample_end x1 y1 x2 y2 1 (Qeq_refl 1)) as [X1 Y1].
  assert (C0 : Qltb (Qabs (x (sampleCubicBezier x1 y1 x2 y2 0) - 0)) eps = true).
  { apply Qltb_lt. rewrite X0. exact P. }
  assert (C1 : Qltb (Qabs (x (sampleCubicBezier x1 y1 x2 y2 1) - 1)) eps = true).
  { apply Qltb_lt. rewrite X1. exact P. }
  rewrite C0, C1. cbn [exitValue]. split; eexists; (split; [reflexivity|]); assumption.
Qed.

Lemma bezierYForX_endpoints_witness :
  (exists v, bezierYForX (1 # 4) (1 # 10) (1 # 4) 1 0 defaultEpsilon = Some v /\ v == 0) /\
  (exists v, bezierYForX (1 # 4) (1 # 10) (1 # 4) 1 1 defaultEpsilon = Some v /\ v == 1).
Proof.
  apply bezierYForX_endpoints. reflexivity.
Defined.

(** X5: On a curve without overshoot, for a target in [0, 1] and a positive
    epsilon, [bezierYForX] returns a value in [0, 1], however the
    iteration ends (converged, flat derivative, or the ten iterations
    used up). *)
Theorem bezierYForX_unit_range (x1 y1 x2 y2 targetX eps : Q) :
  0 < eps -> 0 <= targetX -> targetX <= 1 -> hasOvershoot y1 y2 = false ->
  exists v, bezierYForX x1 y1 x2 y2 targetX eps = Some v /\ 0 <= v /\ v <= 1.
Proof.
  intros P T0 T1 H. apply hasOvershoot_false in H. destruct H as (A0 & A1 & B0 & B1).
  unfold bezierYForX. apply newtonLoop_unit; assumption.
Qed.

Lemma bezierYForX_unit_range_witness :
  exists v, bezierYForX (42 # 100) 0 (58 # 100) 1 (3 # 10) defaultEpsilon = Some v /\
            0 <= v /\ v <= 1.
Proof.
  apply bezierYForX_unit_range.
  - reflexivity.
  - apply Qle_bool_imp_le. reflexivity.
  - apply Qle_bool_imp_le. reflexivity.
  - reflexivity.
Defined.

End CurveProperties.

(** ** The preset classifier and the curves the converters return *)

Section PresetFacts.

Import Preset.

Lemma near_iff (a : num) (b : Q) : near a b = true <-> close a b.
Proof.
  unfold near, close. destruct a as [|q]; cbn [nsub nabs nltb].
  - split; [discriminate | intros []].
  - apply Qltb_lt.
Qed.

(** A coordinate close to [b] is not near a value at least two epsilons
    away from [b]. *)
Lemma near_far (a : num) (b b' : Q) :
  close a b -> 2 * EPSILON <= Qabs (b - b') -> near a b' = false.
Proof.
  unfold near, close, EPSILON. destruct a as [|q]; [intros []|].
  intros C G. cbn [nsub nabs nltb]. apply Qltb_ge.
  revert C G. apply Qabs_case; intros; revert G; apply Qabs_case; intros;
    apply Qabs_case; intros; lra.
Qed.

Lemma Qround4_comp (a b : Q) : a == b -> Qround4 a == Qround4 b.
Proof.
  intro H. apply Qle_antisym; apply Qround4_mono; lra.
Qed.

Lemma Qround4_between (lo hi q : Q) :
  lo <= q -> q <= hi -> Qround4 lo <= Qround4 q /\ Qround4 q <= Qround4 hi.
Proof. intros A B. split; apply Qround4_mono; assumption. Qed.

Lemma Qclamp01_between (lo hi q : Q) :
  0 <= lo -> hi <= 1 -> lo <= q -> q <= hi -> lo <= Qclamp01 q /\ Qclamp01 q <= hi.
Proof.
  intros L H A B. rewrite Qclamp01_id by lra. split; assumption.
Qed.

(** The abscissas a flat handle gives: within 0.0101 of 0.3333 on the
    outgoing side, of 0.6667 on the incoming side. *)
Lemma flatHandle_x1 (e : KeyframeEase) :
  flatHandle e -> close (Fin (Qround4 (Qclamp01 (influence e / 100)))) (3333 # 10000).
Proof.
  intros [_ I]. cbn [close]. unfold EPSILON.
  assert (B : (3233 # 100) <= influence e /\ influence e <= (3433 # 100)).
  { revert I. apply Qabs_case; intros; split; lra. }
  destruct B as [B1 B2].
  assert (D : influence e / 100 == influence e * (1 # 100)) by field.
  destruct (Qclamp01_between (3233 # 10000) (3433 # 10000) (influence e / 100))
    as [C1 C2]; try (rewrite D; lra); try lra.
  destruct (Qround4_between _ _ _ C1 C2) as [R1 R2].
  assert (E1 : Qround4 (3233 # 10000) == 3233 # 10000) by reflexivity.
  assert (E2 : Qround4 (3433 # 10000) == 3433 # 10000) by reflexivity.
  apply Qabs_case; intros; lra.
Qed.

Lemma flatHandle_x2 (e : KeyframeEase) :
  flatHandle e -> close (Fin (Qround4 (Qclamp01 (1 - influence e / 100)))) (6667 # 10000).
Proof.
  intros [_ I]. cbn [close]. unfold EPSILON.
  assert (B : (3233 # 100) <= influence e /\ influence e <= (3433 # 100)).
  { revert I. apply Qabs_case; intros; split; lra. }
  destruct B as [B1 B2].
  assert (D : influence e / 100 == influence e * (1 # 100)) by field.
  destruct (Qclamp01_between (6567 # 10000) (6767 # 10000) (1 - influence e / 100))
    as [C1 C2]; try (rewrite D; lra); try lra.
  destruct (Qround4_between _ _ _ C1 C2) as [R1 R2].
  assert (E1 : Qround4 (6567 # 10000) == 6567 # 10000) by reflexivity.
  assert (E2 : Qround4 (6767 # 10000) == 6767 # 10000) by reflexivity.
  apply Qabs_case; intros; lra.
Qed.

Lemma close_eq (q b : Q) : q == b -> close (Fin q) b.
Proof.
  intro H. cbn [close]. unfold EPSILON.
  setoid_replace (q - b) with 0 by (rewrite H; ring). reflexivity.
Qed.

(** The ordinates of a curve computed from handles of speed 0 at a
    positive linear speed: exactly 0 and 1. *)
Lemma curveFromHandles_flat (ls : Q) (o i : KeyframeEase) :
  0 < ls -> speed o == 0 -> speed i == 0 ->
  exists q1 q2,
    y1 (curveFromHandles (Fin ls) o i) = Fin q1 /\ q1 == 0 /\
    y2 (curveFromHandles (Fin ls) o i) = Fin q2 /\ q2 == 1.
Proof.
  intros L So Si. unfold curveFromHandles. cbn [y1 y2]. unfold ndiv.
  assert (Z : Qeq_bool ls 0 = false).
  { destruct (Qeq_bool ls 0) eqn:E; [|reflexivity]. apply Qeq_bool_iff in E. lra. }
  rewrite Z. cbn [nmul nsub nround4].
  eexists. eexists. split; [reflexivity|]. split; [|split; [reflexivity|]].
  - apply Qeq_trans with (Qround4 0); [|exact Qround4_0].
    apply Qround4_comp. rewrite So. change (Qabs 0) with 0. field. lra.
  - apply Qeq_trans with (Qround4 1); [|exact Qround4_1].
    apply Qround4_comp. rewrite Si. change (Qabs 0) with 0. field. lra.
Qed.

Lemma nth_error_Forall {A : Type} (P : A -> Prop) (l : list A) (n : nat) (a : A) :
  Forall P l -> nth_error l n = Some a -> P a.
Proof.
  intros F E. rewrite Forall_forall in F. apply F. eapply nth_error_In. exact E.
Qed.

Lemma jsIndex_Forall {A : Type} (P : A -> Prop) (l : list A) (z : Z) (a : A) :
  Forall P l -> jsIndex l z = Some a -> P a.
Proof.
  unfold jsIndex. destruct (z <? 0)%Z; [discriminate|]. apply nth_error_Forall.
Qed.

(** What the dimension-aware converter returns past its guard. *)
Lemma convertEasingWithValues_past_guard
    (outEase inEaseNext : list KeyframeEase) (duration : Q)
    (startValue endValue : PropertyValue) (b : CubicBezier) :
  negligible (Fin (Easing.valueChange (Easing.findBestDimension startValue endValue)))
             duration = false ->
  Easing.convertEasingWithValues outEase inEaseNext duration startValue endValue = Some b ->
  exists ls o i,
    0 < ls /\ In o outEase /\ In i inEaseNext /\ b = curveFromHandles (Fin ls) o i.
Proof.
  intros N H. unfold Easing.convertEasingWithValues in H. cbv zeta in H.
  rewrite N in H.
  assert (G : ~ (Qabs (Easing.valueChange (Easing.findBestDimension startValue endValue))
                 < epsilon \/ duration < epsilon)).
  { intro C. apply negligible_iff in C. congruence. }
  destruct (not_negligible _ _ G) as [Hv Hd].
  destruct (linearSpeed_pos _ _ Hv Hd) as [E P]. rewrite E in H.
  destruct (jsIndex outEase _) as [o|] eqn:EO; [|discriminate].
  destruct (jsIndex inEaseNext _) as [i|] eqn:EI; [|discriminate].
  injection H as <-.
  eexists. exists o, i. split; [exact P|].
  split; [|split; [|reflexivity]].
  - eapply (jsIndex_Forall (fun a => In a outEase)); [|exact EO].
    apply Forall_forall. auto.
  - eapply (jsIndex_Forall (fun a => In a inEaseNext)); [|exact EI].
    apply Forall_forall. auto.
Qed.

(** The ordinates of a curve computed at a positive linear speed are
    numbers; the first is not negative when the outgoing influence is
    not, the second not above 1 when the incoming influence is not
    negative. *)
Lemma curveFromHandles_ordinates (ls : Q) (o i : KeyframeEase) :
  0 < ls ->
  exists q1 q2,
    y1 (curveFromHandles (Fin ls) o i) = Fin q1 /\
    y2 (curveFromHandles (Fin ls) o i) = Fin q2 /\
    (0 <= influence o -> 0 <= q1) /\ (0 <= influence i -> q2 <= 1).
Proof.
  intro L. unfold curveFromHandles. cbn [y1 y2]. unfold ndiv.
  assert (Z : Qeq_bool ls 0 = false).
  { destruct (Qeq_bool ls 0) eqn:E; [|reflexivity]. apply Qeq_bool_iff in E. lra. }
  rewrite Z. cbn [nmul nsub nround4].
  eexists. eexists. split; [reflexivity|]. split; [reflexivity|].
  assert (R : forall s : Q, 0 <= Qabs s / ls).
  { intro s. apply Qle_shift_div_l; [exact L|]. pose proof (Qabs_nonneg s). lra. }
  split; intro I.
  - apply Qle_trans with (Qround4 0); [rewrite Qround4_0; lra|].
    apply Qround4_mono. apply Qmult_le_0_compat; [|apply R].
    apply Qle_shift_div_l; [reflexivity | lra].
  - apply Qle_trans with (Qround4 1); [|rewrite Qround4_1; lra].
    apply Qround4_mono.
    assert (P : 0 <= influence i / 100 * (Qabs (speed i) / ls)).
    { apply Qmult_le_0_compat; [|apply R]. apply Qle_shift_div_l; [reflexivity | lra]. }
    lra.
Qed.

Local Ltac settle_near :=
  repeat match goal with
         | H : close ?a ?b |- context [near ?a ?b] =>
             rewrite (proj2 (near_iff a b) H)
         | H : close ?a ?b |- context [near ?a ?b'] =>
             rewrite (near_far a b b' H) by (apply Qle_bool_imp_le; reflexivity)
         end.

Lemma classified_within (x1 y1 x2 y2 : num) (name : string) :
  classifyEasingPreset x1 y1 x2 y2 = Some name ->
  exists c, In (name, c) presets /\ within c x1 y1 x2 y2.
Proof.
  unfold classifyEasingPreset.
  repeat match goal with
         | |- context [if ?c then _ else _] => destruct c eqn:?
         end;
    intro H; try discriminate H; injection H as <-;
    match goal with
    | E : _ = true |- _ =>
        apply andb_true_iff in E; destruct E as [E D];
        apply andb_true_iff in E; destruct E as [E C];
        apply andb_true_iff in E; destruct E as [A B];
        apply near_iff in A; apply near_iff in B;
        apply near_iff in C; apply near_iff in D
    end;
    eexists (_, _, _, _); (split; [cbn; tauto|]); cbn [within]; tauto.
Qed.

Lemma within_classified (x1 y1 x2 y2 : num) (name : string) (c : Q * Q * Q * Q) :
  In (name, c) presets -> within c x1 y1 x2 y2 ->
  classifyEasingPreset x1 y1 x2 y2 = Some name.
Proof.
  intros I W. cbn [presets In] in I.
  repeat (destruct I as [I | I];
          [injection I as <- <-; cbn [within] in W; destruct W as (A & B & C & D);
           unfold classifyEasingPreset; settle_near; reflexivity|]).
  destruct I.
Qed.

Lemma inside_within (d : Q) (c : Q * Q * Q * Q) (x1 y1 x2 y2 : num) :
  d < EPSILON -> inside d c x1 y1 x2 y2 -> within c x1 y1 x2 y2.
Proof.
  destruct c as [[[c1 d1] c2] d2]. intro D. unfold inside, within, close.
  destruct x1, y1, x2, y2; cbv beta iota; try tauto.
  intros (A & B & C & E). repeat split; lra.
Qed.

Lemma within_inside (d : Q) (c : Q * Q * Q * Q) (x1 y1 x2 y2 : num) :
  EPSILON <= d -> within c x1 y1 x2 y2 -> inside d c x1 y1 x2 y2.
Proof.
  destruct c as [[[c1 d1] c2] d2]. intro D. unfold inside, within, close.
  destruct x1, y1, x2, y2; cbv beta iota; try tauto.
  intros (A & B & C & E). repeat split; lra.
Qed.

End PresetFacts.

Section PresetProperties.

Import Preset.

(** X6: [classifyEasingPreset] names a curve by the preset it lies next
    to, whatever the order of the six tests (the presets are too far
    apart for two of them to match one curve).  The tolerance of the
    tests is 0.02; stated with a margin of 0.001 on either side of it:
    a curve with all four coordinates within 0.019 of a preset's control
    points gets that preset's name; a curve that gets a name has all
    four coordinates within 0.021 of that preset's control points; and a
    curve with, for each preset, a coordinate that is no number or is
    farther than 0.021 from it gets null. *)
Theorem classifyEasingPreset_table (x1 y1 x2 y2 : num) :
  (forall (name : string) (c : Q * Q * Q * Q),
      In (name, c) presets -> inside (19 # 1000) c x1 y1 x2 y2 ->
      classifyEasingPreset x1 y1 x2 y2 = Some name) /\
  (forall name : string,
      classifyEasingPreset x1 y1 x2 y2 = Some name ->
      exists c, In (name, c) presets /\ inside (21 # 1000) c x1 y1 x2 y2) /\
  (classifyEasingPreset x1 y1 x2 y2 = None ->
   forall name c, In (name, c) presets -> ~ inside (19 # 1000) c x1 y1 x2 y2) /\
  ((forall name c, In (name, c) presets -> ~ inside (21 # 1000) c x1 y1 x2 y2) ->
   classifyEasingPreset x1 y1 x2 y2 = None).
Proof.
  assert (Near : forall name c, In (name, c) presets -> inside (19 # 1000) c x1 y1 x2 y2 ->
                   classifyEasingPreset x1 y1 x2 y2 = Some name).
  { intros name c I W. apply (within_classified _ _ _ _ name c I).
    apply (inside_within (19 # 1000)); [reflexivity | exact W]. }
  assert (Far : forall name, classifyEasingPreset x1 y1 x2 y2 = Some name ->
                  exists c, In (name, c) presets /\ inside (21 # 1000) c x1 y1 x2 y2).
  { intros name E. destruct (classified_within _ _ _ _ name E) as (c & I & W).
    exists c. split; [exact I|]. apply within_inside; [discriminate | exact W]. }
  split; [exact Near|]. split; [exact Far|]. split.
  - intros N name c I W. rewrite (Near name c I W) in N. discriminate.
  - intro H. destruct (classifyEasingPreset x1 y1 x2 y2) as [name|] eqn:E; [|reflexivity].
    destruct (Far name eq_refl) as (c & I & W). exfalso. exact (H name c I W).
Qed.

(** X7: Handles of speed 0 and an influence within one point of 33.33 %
    (Easy Ease) convert to a curve the classifier names: "linear" when
    the guard of [convertEasingWithValues] returns the identity,
    "easeInOut (AE default)" otherwise, and always the latter with
    [convertEasingToCubicBezier]. *)
Theorem flat_handles_classified
    (outEase inEaseNext : list KeyframeEase) (duration : Q) (b : CubicBezier) :
  Forall flatHandle outEase -> Forall flatHandle inEaseNext ->
  (forall startValue endValue : PropertyValue,
      Easing.convertEasingWithValues outEase inEaseNext duration startValue endValue
      = Some b ->
      classify b
      = if negligible
             (Fin (Easing.valueChange (Easing.findBestDimension startValue endValue)))
             duration
        then Some "linear"%string
        else Some "easeInOut (AE default)"%string) /\
  (convertEasingToCubicBezier outEase inEaseNext duration = Some b ->
   classify b = Some "easeInOut (AE default)"%string).
Proof.
  intros Fo Fi. split.
  - intros startValue endValue H.
    destruct (negligible _ duration) eqn:N.
    + unfold Easing.convertEasingWithValues in H. cbv zeta in H. rewrite N in H.
      injection H as <-. reflexivity.
    + destruct (convertEasingWithValues_past_guard _ _ _ _ _ _ N H)
        as (ls & o & i & L & Io & Ii & ->).
      rewrite Forall_forall in Fo, Fi.
      pose proof (Fo o Io) as Ho. pose proof (Fi i Ii) as Hi.
      destruct (curveFromHandles_flat ls o i L (proj1 Ho) (proj1 Hi))
        as (q1 & q2 & E1 & Z1 & E2 & Z2).
      unfold classify.
      apply within_classified with (c := (3333 # 10000, 0, 6667 # 10000, 1));
        [cbn; tauto|].
      cbn [within]. rewrite E1, E2.
      split; [apply flatHandle_x1; exact Ho|].
      split; [apply close_eq; exact Z1|].
      split; [apply flatHandle_x2; exact Hi | apply close_eq; exact Z2].
  - unfold convertEasingToCubicBezier.
    destruct (jsIndex outEase 0) as [o|] eqn:EO; [|discriminate].
    destruct (jsIndex inEaseNext 0) as [i|] eqn:EI; [|discriminate].
    cbv zeta. intro H. injection H as <-.
    pose proof (jsIndex_Forall _ _ _ _ Fo EO) as Ho.
    pose proof (jsIndex_Forall _ _ _ _ Fi EI) as Hi.
    unfold classify. cbn [x1 y1 x2 y2].
    apply within_classified with (c := (3333 # 10000, 0, 6667 # 10000, 1));
      [cbn; tauto|].
    cbn [within].
    assert (So : Qeq_bool (speed o) 0 = true) by (apply Qeq_bool_iff; exact (proj1 Ho)).
    assert (Si : Qeq_bool (speed i) 0 = true) by (apply Qeq_bool_iff; exact (proj1 Hi)).
    rewrite So, Si.
    split; [apply flatHandle_x1; exact Ho|].
    split; [apply close_eq; reflexivity|].
    split; [apply flatHandle_x2; exact Hi | apply close_eq; reflexivity].
Qed.

Lemma flat_handles_classified_witness :
  classify (curveFromHandles (Fin (Qabs (100 / 1))) easyEase easyEase)
  = Some "easeInOut (AE default)"%string.
Proof.
  apply (proj1 (flat_handles_classified [easyEase] [easyEase] 1
                  (curveFromHandles (Fin (Qabs (100 / 1))) easyEase easyEase)
                  ltac:(repeat constructor; apply Qle_bool_imp_le; reflexivity)
                  ltac:(repeat constructor; apply Qle_bool_imp_le; reflexivity))
           (VNum 0) (VNum 100)).
  reflexivity.
Defined.

End PresetProperties.

Section ConverterProperties.

(** X8: The dimension-aware [convertEasingWithValues] takes the handles'
    speeds in absolute value: with no negative influence among the
    outgoing handles [y1] is never a number below 0, and with none among
    the incoming ones [y2] is never a number above 1 (the curve does not
    leave the start downwards, nor reach the end from above).  The
    first-dimension version returns ordinates that are no numbers for
    array values without a first slot. *)
Theorem convertEasingWithValues_ordinates :
  (forall (outEase inEaseNext : list KeyframeEase) (duration : Q)
          (startValue endValue : PropertyValue) (b : CubicBezier),
      Easing.convertEasingWithValues outEase inEaseNext duration startValue endValue
      = Some b ->
      (Forall (fun h => 0 <= influence h) outEase ->
       forall q1, y1 b = Fin q1 -> 0 <= q1) /\
      (Forall (fun h => 0 <= influence h) inEaseNext ->
       forall q2, y2 b = Fin q2 -> q2 <= 1)) /\
  (exists b,
      EasingFirstDim.convertEasingWithValues [easyEase] [easyEase] 1 (VArr []) (VArr [])
      = Some b /\ y1 b = NaN /\ y2 b = NaN).
Proof.
  split.
  - intros outEase inEaseNext duration startValue endValue b H.
    destruct (negligible (Fin (Easing.valueChange
                (Easing.findBestDimension startValue endValue))) duration) eqn:N.
    + unfold Easing.convertEasingWithValues in H. cbv zeta in H. rewrite N in H.
      injection H as <-. cbn [identityBezier y1 y2].
      split; intros _ q E; injection E as <-; lra.
    + destruct (convertEasingWithValues_past_guard _ _ _ _ _ _ N H)
        as (ls & o & i & L & Io & Ii & ->).
      destruct (curveFromHandles_ordinates ls o i L) as (q1 & q2 & E1 & E2 & A & B).
      rewrite E1, E2. split; intros F q E; injection E as <-.
      * apply A. rewrite Forall_forall in F. apply F. exact Io.
      * apply B. rewrite Forall_forall in F. apply F. exact Ii.
  - eexists. split; [reflexivity|]. split; reflexivity.
Qed.

Lemma convertEasingWithValues_ordinates_witness :
  0 <= Qround4 ((50 / 100) * (Qabs (-300) / Qabs (100 / 1))).
Proof.
  apply (proj1 (proj1 convertEasingWithValues_ordinates
                  [mkEase (-300) 50] [mkEase 300 50] 1 (VNum 0) (VNum 100)
                  (curveFromHandles (Fin (Qabs (100 / 1))) (mkEase (-300) 50) (mkEase 300 50))
                  eq_refl)).
  - repeat constructor. discriminate.
  - reflexivity.
Defined.

(** X10: The two versions of [convertEasingWithValues] differ on
    multi-dimensional values only: they return the same result for every
    pair of values that is not a pair of arrays (numbers in particular),
    and for arrays, each with a first slot, whenever the dimension the
    dimension-aware version selects is dimension 0. *)
Theorem converters_agree_on_first_dimension
    (outEase inEaseNext : list KeyframeEase) (duration : Q) :
  (forall startValue endValue : PropertyValue,
      (forall a b, ~ (startValue = VArr a /\ endValue = VArr b)) ->
      Easing.convertEasingWithValues outEase inEaseNext duration startValue endValue
      = EasingFirstDim.convertEasingWithValues outEase inEaseNext duration
          startValue endValue) /\
  (forall (s0 e0 : Q) (s e : list Q),
      Easing.dimIndex (Easing.findBestDimension (VArr (s0 :: s)) (VArr (e0 :: e))) = 0%nat ->
      Easing.convertEasingWithValues outEase inEaseNext duration
        (VArr (s0 :: s)) (VArr (e0 :: e))
      = EasingFirstDim.convertEasingWithValues outEase inEaseNext duration
          (VArr (s0 :: s)) (VArr (e0 :: e))).
Proof.
  assert (J : forall l : list KeyframeEase,
             jsIndex l (Z.min (Z.of_nat 0) (Z.of_nat (List.length l) - 1)) = jsIndex l 0).
  { intro l. rewrite jsIndex_clamped. unfold jsIndex. cbn.
    destruct (List.length l - 0)%nat; reflexivity. }
  assert (Same : forall (startValue endValue : PropertyValue) (vc : Q),
             Easing.findBestDimension startValue endValue = Easing.mkBest 0 vc ->
             EasingFirstDim.valueChangeOf startValue endValue = Fin vc ->
             Easing.convertEasingWithValues outEase inEaseNext duration startValue endValue
             = EasingFirstDim.convertEasingWithValues outEase inEaseNext duration
                 startValue endValue).
  { intros startValue endValue vc B V.
    unfold Easing.convertEasingWithValues, EasingFirstDim.convertEasingWithValues.
    cbv zeta. rewrite B, V. cbn [Easing.valueChange Easing.dimIndex].
    rewrite !J. reflexivity. }
  split.
  - intros startValue endValue N.
    destruct startValue as [s|s|s|s|], endValue as [e|e|e|e|];
      try (apply Same with (vc := 0); reflexivity);
      try (apply Same with (vc := e - s); reflexivity).
    exfalso. apply (N s e). split; reflexivity.
  - intros s0 e0 s e D.
    pose proof (findBestLoop_spec (s0 :: s) (e0 :: e) 0 0 0) as H. cbv zeta in H.
    change (Easing.findBestLoop 0 (s0 :: s) (e0 :: e) 0 0)
      with (Easing.findBestDimension (VArr (s0 :: s)) (VArr (e0 :: e))) in H.
    destruct H as (_ & B & [[_ C] | (k & K & Ki & Kv & _)]).
    + assert (Z0 : Qabs (e0 - s0) <= 0).
      { specialize (B 0%nat). cbn [List.length Nat.min nth] in B.
        rewrite C in B. apply B. lia. }
      assert (N1 : negligible (Fin (Easing.valueChange
                      (Easing.findBestDimension (VArr (s0 :: s)) (VArr (e0 :: e)))))
                     duration = true).
      { rewrite C. reflexivity. }
      assert (N2 : negligible (EasingFirstDim.valueChangeOf (VArr (s0 :: s)) (VArr (e0 :: e)))
                     duration = true).
      { apply negligible_num_iff. left.
        change (EasingFirstDim.valueChangeOf (VArr (s0 :: s)) (VArr (e0 :: e)))
          with (Fin (e0 - s0)).
        cbn [belowEpsilon]. unfold epsilon. lra. }
      unfold Easing.convertEasingWithValues, EasingFirstDim.convertEasingWithValues.
      cbv zeta. rewrite N1, N2. reflexivity.
    + rewrite D in Ki. assert (k = 0%nat) by lia. subst k. cbn [nth] in Kv.
      apply Same with (vc := e0 - s0); [|reflexivity].
      destruct (Easing.findBestDimension (VArr (s0 :: s)) (VArr (e0 :: e))) as [d v].
      cbn [Easing.dimIndex Easing.valueChange] in D, Kv. subst. reflexivity.
Qed.

Lemma converters_agree_on_first_dimension_witness :
  Easing.convertEasingWithValues [mkEase 300 50] [mkEase 0 75] 2 (VArr [0; 5]) (VArr [200; 105])
  = EasingFirstDim.convertEasingWithValues [mkEase 300 50] [mkEase 0 75] 2
      (VArr [0; 5]) (VArr [200; 105]).
Proof.
  apply (proj2 (converters_agree_on_first_dimension [mkEase 300 50] [mkEase 0 75] 2)).
  reflexivity.
Defined.

End ConverterProperties.

(** ** [getAnimatedProperties] *)

Section WalkInvariants.

Import Host Walker.

Variable S : Type.
Variable callback : ref -> nat -> S -> S * bool.
Variable store : Store.

(** A property of the caller's state every invocation of the callback
    keeps. *)
Variable P : S -> Prop.
Hypothesis callback_keeps : forall prop d s, P s -> P (fst (callback prop d s)).

Let State := WalkState S.
Let Rec := Recurse S.

Lemma invoke_keeps (prop : ref) (d : nat) (w : State) :
  P (fst w) -> P (fst (fst (invoke S callback prop d w))).
Proof.
  intro H. unfold invoke.
  pose proof (callback_keeps prop d (fst w) H) as K.
  destruct (callback prop d (fst w)) as [s ok]. exact K.
Qed.

Lemma catchBranch_keeps (recurse : Rec) (prop : ref) (d : nat) (w w' : State) :
  keeps P recurse ->
  catchBranch S callback store recurse prop d w = Some w' -> P (fst w) -> P (fst w').
Proof.
  intros R. unfold catchBranch.
  destruct (numProperties (store prop)).
  - destruct (childCount (store prop)); [apply R|].
    intros E H. injection E as <-. apply invoke_keeps. exact H.
  - intros E H. injection E as <-. exact H.
Qed.

Lemma visitChild_keeps (recurse : Rec) (prop : ref) (d : nat) (w w' : State) :
  keeps P recurse ->
  visitChild S callback store recurse prop d w = Some w' -> P (fst w) -> P (fst w').
Proof.
  intros R. unfold visitChild.
  destruct (propertyType (store prop)) as [[| |]|].
  - pose proof (invoke_keeps prop d w) as K.
    destruct (invoke S callback prop d w) as [w1 ok]. cbn [fst] in K.
    destruct ok.
    + intros E H. injection E as <-. apply K. exact H.
    + intros E H. apply (catchBranch_keeps recurse prop d w1 w' R E). apply K. exact H.
  - apply R.
  - apply R.
  - apply catchBranch_keeps. exact R.
Qed.

Lemma walkChildren_keeps (recurse : Rec) (g : ref) (d : nat) (indices : list nat) :
  keeps P recurse ->
  forall w w' : State,
    walkChildren S callback store recurse g d indices w = Some w' -> P (fst w) -> P (fst w').
Proof.
  intro R. induction indices as [|i rest IH]; intros w w'.
  - intros E H. injection E as <-. exact H.
  - cbn [walkChildren]. destruct (property (store g) i) as [[prop|]|]; try apply IH.
    destruct (visitChild S callback store recurse prop d w) as [w1|] eqn:V; [|discriminate].
    intros E H. apply (IH w1 w' E). exact (visitChild_keeps recurse prop d w w1 R V H).
Qed.

Lemma walkPropertyGroup_keeps (fuel : nat) :
  forall (root : option ref) (d : nat) (w w' : State),
    walkPropertyGroup S callback store fuel root d w = Some w' -> P (fst w) -> P (fst w').
Proof.
  induction fuel as [|fuel IH]; intros root d w w'; [discriminate|].
  cbn [walkPropertyGroup].
  destruct (PROPERTY_WALK_MAX_DEPTH <? d)%nat.
  { intros E H. injection E as <-. exact H. }
  destruct root as [g|].
  2:{ intros E H. injection E as <-. exact H. }
  cbv zeta. destruct (childCount (store g)) as [n|].
  2:{ intros E H. injection E as <-. exact H. }
  intros E H. revert E. intro E.
  apply (walkChildren_keeps _ g d (seq 1 n)
           (fun prop d' w1 w1' => IH (Some prop) d' w1 w1') _ w' E).
  exact H.
Qed.

(** A child the loop fetches is visited: what its visit establishes,
    and the rest of the loop keeps, holds at the end. *)
Lemma walkChildren_visits (recurse : Rec) (g : ref) (d : nat) (indices : list nat)
    (i : nat) (prop : ref) :
  keeps P recurse ->
  In i indices -> property (store g) i = Some (Some prop) ->
  (forall w1 w2 : State,
      visitChild S callback store recurse prop d w1 = Some w2 -> P (fst w2)) ->
  forall w w' : State,
    walkChildren S callback store recurse g d indices w = Some w' -> P (fst w').
Proof.
  intros R I G V. induction indices as [|j rest IH]; intros w w'; [destruct I|].
  cbn [walkChildren]. destruct I as [-> | I].
  - rewrite G.
    destruct (visitChild S callback store recurse prop d w) as [w1|] eqn:E; [|discriminate].
    intro W. apply (walkChildren_keeps recurse g d rest R w1 w' W).
    exact (V w w1 E).
  - destruct (property (store g) j) as [[q|]|]; try (apply IH; exact I).
    destruct (visitChild S callback store recurse q d w) as [w1|]; [|discriminate].
    apply IH. exact I.
Qed.

End WalkInvariants.

Section AnimatedFacts.

Import Host Walker.

Variable store : Store.

Lemma pushIfAnimated_sound (prop : ref) (d : nat) (results : list ref) :
  Forall (fun r => isPropertyAnimated (Some (store r)) = true) results ->
  Forall (fun r => isPropertyAnimated (Some (store r)) = true)
         (fst (pushIfAnimated store prop d results)).
Proof.
  intro F. unfold pushIfAnimated. cbn [fst].
  destruct (isPropertyAnimated (Some (store prop))) eqn:A; [|exact F].
  apply Forall_app. split; [exact F|]. constructor; [exact A | constructor].
Qed.

Lemma pushIfAnimated_grows (leaf prop : ref) (d : nat) (results : list ref) :
  In leaf results -> In leaf (fst (pushIfAnimated store prop d results)).
Proof.
  intro H. unfold pushIfAnimated. cbn [fst].
  destruct (isPropertyAnimated (Some (store prop))); [|exact H].
  apply in_or_app. left. exact H.
Qed.

Lemma isPropertyAnimated_numKeys (p : HostObject) :
  isPropertyAnimated (Some p) = true <-> exists n, numKeys p = Some n /\ (0 < n)%nat.
Proof.
  unfold isPropertyAnimated. destruct (numKeys p) as [n|].
  - rewrite Nat.ltb_lt. split; [intro H; exists n; split; [reflexivity | exact H]|].
    intros (m & E & H). injection E as ->. exact H.
  - split; [discriminate | intros (m & E & _); discriminate].
Qed.

(** The walk from a group reports every animated leaf below it. *)
Lemma walk_reaches (g : ref) (d : nat) (leaf : ref) :
  reaches store g d leaf ->
  isPropertyAnimated (Some (store leaf)) = true ->
  forall (fuel : nat) (w w' : WalkState (list ref)),
    walkPropertyGroup (list ref) (pushIfAnimated store) store fuel (Some g) d w = Some w' ->
    In leaf (fst w').
Proof.
  intros R A. induction R as [g d count i prop D C I G T | g d count i sub leaf D C I G T R IH];
    intros fuel w w'; (destruct fuel as [|fuel]; [discriminate|]);
    cbn [walkPropertyGroup];
    (replace (PROPERTY_WALK_MAX_DEPTH <? d)%nat with false
       by (symmetry; apply Nat.ltb_ge; exact D));
    cbv zeta; rewrite C.
  - apply (walkChildren_visits (list ref) (pushIfAnimated store) store (fun s => In prop s)
             (pushIfAnimated_grows prop) _ g d (seq 1 count) i prop).
    + intros q d' w1 w1'.
      apply (walkPropertyGroup_keeps (list ref) (pushIfAnimated store) store
               (fun s => In prop s) (pushIfAnimated_grows prop)).
    + apply in_seq. lia.
    + exact G.
    + intros w1 w2. unfold visitChild. rewrite T. unfold invoke, pushIfAnimated.
      rewrite A. cbn [fst snd]. intro E. injection E as <-. cbn [fst].
      apply in_or_app. right. left. reflexivity.
  - apply (walkChildren_visits (list ref) (pushIfAnimated store) store (fun s => In leaf s)
             (pushIfAnimated_grows leaf) _ g d (seq 1 count) i sub).
    + intros q d' w1 w1'.
      apply (walkPropertyGroup_keeps (list ref) (pushIfAnimated store) store
               (fun s => In leaf s) (pushIfAnimated_grows leaf)).
    + apply in_seq. lia.
    + exact G.
    + intros w1 w2. unfold visitChild.
      destruct T as [T | T]; rewrite T; apply IH; exact A.
Qed.

End AnimatedFacts.

Section AnimatedProperties.

Import Host Walker.

(** X11: [getAnimatedProperties] returns on every host structure, cyclic ones
    included (a fuel of [PROPERTY_WALK_MAX_DEPTH + 2] nested calls
    suffices and more changes nothing), and every property it returns has
    a readable, positive number of keyframes. *)
Theorem getAnimatedProperties_sound (store : Store) (propertyGroup : option ref) :
  exists results,
    (forall fuel, (PROPERTY_WALK_MAX_DEPTH + 2 <= fuel)%nat ->
                  getAnimatedProperties store fuel propertyGroup = Some results) /\
    Forall (fun r => exists n, numKeys (store r) = Some n /\ (0 < n)%nat) results.
Proof.
  destruct (walkPropertyGroup_returns (list ref) (pushIfAnimated store) store
              (PROPERTY_WALK_MAX_DEPTH + 2) propertyGroup 0 ([], []))
    as (w' & E & _); [lia | lia |].
  exists (fst w'). split.
  - intros fuel L. unfold getAnimatedProperties.
    rewrite (walkPropertyGroup_fuel_le _ _ _ _ fuel _ _ _ _ L E). reflexivity.
  - pose proof (walkPropertyGroup_keeps (list ref) (pushIfAnimated store) store
                  (Forall (fun r => isPropertyAnimated (Some (store r)) = true))
                  (pushIfAnimated_sound store) _ _ _ _ _ E (Forall_nil _)) as F.
    eapply Forall_impl; [|exact F]. cbv beta.
    intros r H. apply isPropertyAnimated_numKeys. exact H.
Qed.

(** X12: [getAnimatedProperties] misses no animated leaf within the depth
    bound: a property with keyframes that is a child of the group, or
    lies below it through at most [PROPERTY_WALK_MAX_DEPTH] nested groups
    whose type can be read, is among the properties returned. *)
Theorem getAnimatedProperties_complete
    (store : Store) (propertyGroup leaf : ref) (fuel : nat) (results : list ref) :
  reaches store propertyGroup 0 leaf ->
  isPropertyAnimated (Some (store leaf)) = true ->
  getAnimatedProperties store fuel (Some propertyGroup) = Some results ->
  In leaf results.
Proof.
  intros R A. unfold getAnimatedProperties.
  destruct (walkPropertyGroup _ _ _ fuel (Some propertyGroup) 0 ([], [])) as [w'|] eqn:E;
    [|discriminate].
  cbn [option_map]. intro H. injection H as <-.
  exact (walk_reaches store propertyGroup 0 leaf R A fuel _ w' E).
Qed.

Lemma getAnimatedProperties_complete_witness :
  getAnimatedProperties (keyedChain 3) 22 (Some 0%nat) = Some [3%nat] /\ In 3%nat [3%nat].
Proof.
  split; [vm_compute; reflexivity|].
  apply (getAnimatedProperties_complete (keyedChain 3) 0%nat 3%nat 22%nat [3%nat]).
  - apply reaches_below with (count := 1%nat) (i := 1%nat) (sub := 1%nat);
      [unfold PROPERTY_WALK_MAX_DEPTH; lia | reflexivity | lia | reflexivity
      | right; reflexivity |].
    apply reaches_below with (count := 1%nat) (i := 1%nat) (sub := 2%nat);
      [unfold PROPERTY_WALK_MAX_DEPTH; lia | reflexivity | lia | reflexivity
      | right; reflexivity |].
    apply reaches_child with (count := 1%nat) (i := 1%nat);
      [unfold PROPERTY_WALK_MAX_DEPTH; lia | reflexivity | lia | reflexivity | reflexivity].
  - reflexivity.
  - vm_compute. reflexivity.
Defined.

End AnimatedProperties.

(** ** More on the keyframe extractor *)

Section SegmentFacts.

Import Host Keyframes.

Variable convert :
  list KeyframeEase -> list KeyframeEase -> Q ->
  PropertyValue -> PropertyValue -> option CubicBezier.

Lemma keyframeLoop_In (p : HostObject) (fr : Q) (n : nat) (l : list nat) (kf : Keyframe) :
  In kf (keyframeLoop convert p fr n l) ->
  exists i, In i l /\ keyframeAt convert p fr n i = Some kf.
Proof.
  induction l as [|i l IH]; [intros []|].
  cbn [keyframeLoop].
  destruct (keyframeAt convert p fr n i) as [kf'|] eqn:E.
  - intros [<- | H].
    + exists i. split; [left; reflexivity | exact E].
    + destruct (IH H) as (j & I & K). exists j. split; [right; exact I | exact K].
  - intro H. destruct (IH H) as (j & I & K). exists j. split; [right; exact I | exact K].
Qed.

(** How the bezier of a segment comes about: the next keyframe's
    incoming ease and time were read, and one of the two converters
    returned the curve. *)
Lemma segmentBezier_cases (p : HostObject) (i : nat) (t : Q) (v : PropertyValue)
    (outEase : list KeyframeEase) (b : CubicBezier) :
  segmentBezier convert p i t v outEase = Some b ->
  exists inEaseNext nextTime,
    keyInTemporalEase p (i + 1) = Some inEaseNext /\
    keyTime p (i + 1) = Some nextTime /\
    ((exists nextValue, convert outEase inEaseNext (nextTime - t) v nextValue = Some b) \/
     convertEasingToCubicBezier outEase inEaseNext (nextTime - t) = Some b).
Proof.
  unfold segmentBezier.
  destruct (keyInTemporalEase p (i + 1)) as [inEaseNext|]; [|discriminate].
  destruct (keyTime p (i + 1)) as [nextTime|]; [|discriminate].
  intro H. exists inEaseNext, nextTime. split; [reflexivity|]. split; [reflexivity|].
  destruct (keyValue p (i + 1)) as [nextValue|]; [|right; exact H].
  destruct (convert outEase inEaseNext (nextTime - t) v (normalizeKeyValue nextValue))
    as [easing|] eqn:E; [|right; exact H].
  left. exists (normalizeKeyValue nextValue). rewrite E. exact H.
Qed.

(** With ease arrays that are not empty the segment has a bezier as soon
    as the next keyframe's incoming ease and time can be read: the
    simplified converter stands in when the value-aware one throws. *)
Lemma segmentBezier_some (p : HostObject) (i : nat) (t : Q) (v : PropertyValue)
    (outEase inEaseNext : list KeyframeEase) (nextTime : Q) :
  keyInTemporalEase p (i + 1) = Some inEaseNext ->
  keyTime p (i + 1) = Some nextTime ->
  outEase <> [] -> inEaseNext <> [] ->
  segmentBezier convert p i t v outEase <> None.
Proof.
  intros EI ET No Ni. unfold segmentBezier. rewrite EI, ET.
  assert (S : convertEasingToCubicBezier outEase inEaseNext (nextTime - t) <> None).
  { unfold convertEasingToCubicBezier.
    destruct outEase as [|o ro]; [contradiction|].
    destruct inEaseNext as [|e re]; [contradiction|].
    cbn. discriminate. }
  destruct (keyValue p (i + 1)) as [nextValue|]; [|exact S].
  destruct (convert outEase inEaseNext (nextTime - t) v (normalizeKeyValue nextValue));
    [discriminate | exact S].
Qed.

Lemma keyframeAt_easing (p : HostObject) (fr : Q) (n i : nat) (kf : Keyframe)
    (te : TemporalEasing) :
  keyframeAt convert p fr n i = Some kf ->
  temporalEasing kf = Some te ->
  exists outEase inEase,
    keyOutTemporalEase p i = Some outEase /\ keyInTemporalEase p i = Some inEase /\
    cubicBezier te
    = if (i <? n)%nat then segmentBezier convert p i (time kf) (kvalue kf) outEase else None.
Proof.
  unfold keyframeAt. destruct (keyTime p i) as [t|]; [|discriminate].
  intro H. injection H as <-. cbn [temporalEasing time kvalue].
  unfold temporalEasingAt.
  destruct (keyOutTemporalEase p i) as [outEase|]; [|discriminate].
  destruct (keyInTemporalEase p i) as [inEase|]; [|discriminate].
  intro E. injection E as <-. cbn [cubicBezier].
  exists outEase, inEase. split; [reflexivity|]. split; reflexivity.
Qed.

Lemma keyframeAt_frame (p : HostObject) (fr : Q) (n i : nat) (kf : Keyframe) :
  keyframeAt convert p fr n i = Some kf -> frame kf = Qround_js (time kf * fr).
Proof.
  unfold keyframeAt. destruct (keyTime p i) as [t|]; [|discriminate].
  intro H. injection H as <-. reflexivity.
Qed.

Lemma keyframeLoop_frames (p : HostObject) (fr : Q) (n : nat) (l : list nat) :
  map frame (keyframeLoop convert p fr n l)
  = map (fun kf => Qround_js (time kf * fr)) (keyframeLoop convert p fr n l).
Proof.
  apply map_ext_in. intros kf H.
  destruct (keyframeLoop_In _ _ _ _ _ H) as (i & _ & K).
  exact (keyframeAt_frame _ _ _ _ _ K).
Qed.

End SegmentFacts.

Section RoundingFacts.

Lemma sorted_map_mono {A : Type} (f g : A -> Q) (l : list A) :
  (forall a b, f a <= f b -> g a <= g b) ->
  StronglySorted Qle (map f l) -> StronglySorted Qle (map g l).
Proof.
  intro M. induction l as [|a l IH]; [constructor|].
  cbn [map]. intro S. apply StronglySorted_inv in S. destruct S as [S F].
  constructor; [apply IH; exact S|].
  rewrite Forall_forall in *. intros y Hy. apply in_map_iff in Hy.
  destruct Hy as (b & <- & Hb). apply M. apply F. apply in_map. exact Hb.
Qed.

Lemma simplified_x_unit (outEase inEaseNext : list KeyframeEase) (duration : Q)
    (b : CubicBezier) :
  convertEasingToCubicBezier outEase inEaseNext duration = Some b ->
  in_unit (x1 b) /\ in_unit (x2 b).
Proof.
  unfold convertEasingToCubicBezier.
  destruct (jsIndex outEase _) as [o|]; [|discriminate].
  destruct (jsIndex inEaseNext _) as [i|]; [|discriminate].
  cbv zeta. intro H. injection H as <-. cbn [x1 x2].
  split; apply Qround4_clamp_unit.
Qed.

Lemma valueAware_x_unit (outEase inEaseNext : list KeyframeEase) (duration : Q)
    (startValue endValue : PropertyValue) (b : CubicBezier) :
  Easing.convertEasingWithValues outEase inEaseNext duration startValue endValue = Some b \/
  EasingFirstDim.convertEasingWithValues outEase inEaseNext duration startValue endValue
  = Some b ->
  in_unit (x1 b) /\ in_unit (x2 b).
Proof.
  intros [H | H].
  - unfold Easing.convertEasingWithValues in H. cbv zeta in H.
    destruct (negligible _ _).
    + injection H as <-. exact identityBezier_x_unit.
    + destruct (jsIndex outEase _) as [o|]; [|discriminate].
      destruct (jsIndex inEaseNext _) as [i|]; [|discriminate].
      injection H as <-. apply curveFromHandles_x_unit.
  - unfold EasingFirstDim.convertEasingWithValues in H. cbv zeta in H.
    destruct (negligible _ _).
    + injection H as <-. exact identityBezier_x_unit.
    + destruct (jsIndex outEase _) as [o|]; [|discriminate].
      destruct (jsIndex inEaseNext _) as [i|]; [|discriminate].
      injection H as <-. apply curveFromHandles_x_unit.
Qed.

End RoundingFacts.

Section KeyframeProperties.

Import Host Keyframes.

(** X14: Every segment bezier in the output of [extractKeyframes] has both
    abscissas in [0, 1], whichever version of [convertEasingWithValues]
    the build includes and whether the curve comes from it or from the
    simplified fallback. *)
Theorem extractKeyframes_bezier_abscissas
    (property : HostObject) (frameRate : Q) (kfs : list Keyframe)
    (kf : Keyframe) (te : TemporalEasing) (b : CubicBezier) :
  extractKeyframes Easing.convertEasingWithValues property frameRate = Returned kfs \/
  extractKeyframes EasingFirstDim.convertEasingWithValues property frameRate = Returned kfs ->
  In kf kfs -> temporalEasing kf = Some te -> cubicBezier te = Some b ->
  in_unit (x1 b) /\ in_unit (x2 b).
Proof.
  intros H I T C. unfold extractKeyframes in H.
  destruct (numKeys property) as [n|]; [|destruct H; discriminate].
  destruct H as [H | H]; injection H as <-;
    destruct (keyframeLoop_In _ _ _ _ _ _ I) as (i & _ & K);
    destruct (keyframeAt_easing _ _ _ _ _ _ _ K T) as (outEase & inEase & _ & _ & E);
    rewrite C in E; (destruct (i <? n)%nat; [|discriminate]);
    symmetry in E;
    destruct (segmentBezier_cases _ _ _ _ _ _ _ E)
      as (inEaseNext & nextTime & _ & _ & [(nextValue & V) | V]);
    first [ exact (simplified_x_unit _ _ _ _ V)
          | apply (valueAware_x_unit outEase inEaseNext (nextTime - time kf)
                     (kvalue kf) nextValue b); auto ].
Qed.

Lemma extractKeyframes_bezier_abscissas_witness :
  in_unit (Fin (3333 # 10000)) /\ in_unit (Fin (6667 # 10000)).
Proof.
  apply (extractKeyframes_bezier_abscissas Examples.fadeProperty 30
           (keyframeLoop Easing.convertEasingWithValues Examples.fadeProperty 30 2 (seq 1 2))
           (mkKeyframe 1 0 0 (VNum 0) (Some (mkInterp BEZIER BEZIER))
              (Some (mkTemporal [0] [3333 # 100] [0] [3333 # 100]
                       (Some (mkBezier (Fin (3333 # 10000)) (Fin (0 # 10000))
                                (Fin (6667 # 10000)) (Fin (10000 # 10000))))))
              None None (Some false) (Some false) None None)
           (mkTemporal [0] [3333 # 100] [0] [3333 # 100]
              (Some (mkBezier (Fin (3333 # 10000)) (Fin (0 # 10000))
                       (Fin (6667 # 10000)) (Fin (10000 # 10000)))))
           (mkBezier (Fin (3333 # 10000)) (Fin (0 # 10000))
              (Fin (6667 # 10000)) (Fin (10000 # 10000)))).
  - left. reflexivity.
  - left. vm_compute. reflexivity.
  - reflexivity.
  - reflexivity.
Defined.

(** X15: A keyframe's segment bezier describes the segment to the next host
    keyframe: it is present only below the last host index and only if
    the next keyframe's incoming ease and time could be read, so the
    last keyframe never carries one; below the last index it is present
    whenever those two reads succeed and neither ease array is empty. *)
Theorem extractKeyframes_segment_bezier
    (convert : list KeyframeEase -> list KeyframeEase -> Q ->
               PropertyValue -> PropertyValue -> option CubicBezier)
    (property : HostObject) (frameRate : Q) (kfs : list Keyframe)
    (kf : Keyframe) (te : TemporalEasing) :
  extractKeyframes convert property frameRate = Returned kfs ->
  In kf kfs -> temporalEasing kf = Some te ->
  exists n outEase,
    numKeys property = Some n /\
    keyOutTemporalEase property (index kf) = Some outEase /\
    (cubicBezier te <> None ->
     (index kf < n)%nat /\
     keyInTemporalEase property (index kf + 1) <> None /\
     keyTime property (index kf + 1) <> None) /\
    (index kf = n -> cubicBezier te = None) /\
    (forall inEaseNext nextTime,
        (index kf < n)%nat ->
        keyInTemporalEase property (index kf + 1) = Some inEaseNext ->
        keyTime property (index kf + 1) = Some nextTime ->
        outEase <> [] -> inEaseNext <> [] ->
        cubicBezier te <> None).
Proof.
  intros H I T. unfold extractKeyframes in H.
  destruct (numKeys property) as [n|]; [|discriminate]. injection H as <-.
  destruct (keyframeLoop_In _ _ _ _ _ _ I) as (i & _ & K).
  destruct (keyframeAt_index_time _ _ _ _ _ _ K) as [Hi _].
  destruct (keyframeAt_easing _ _ _ _ _ _ _ K T) as (outEase & inEase & O & _ & E).
  rewrite Hi. exists n, outEase. split; [reflexivity|]. split; [exact O|].
  split; [|split].
  - intro C. destruct (i <? n)%nat eqn:L; [|rewrite E in C; contradiction].
    apply Nat.ltb_lt in L. split; [exact L|].
    destruct (cubicBezier te) as [b|]; [|contradiction].
    symmetry in E.
    destruct (segmentBezier_cases _ _ _ _ _ _ _ E) as (inEaseNext & nextTime & A & B & _).
    rewrite A, B. split; discriminate.
  - intros ->. rewrite Nat.ltb_irrefl in E. exact E.
  - intros inEaseNext nextTime L A B No Ni.
    apply Nat.ltb_lt in L. rewrite L in E. rewrite E.
    exact (segmentBezier_some convert property i (time kf) (kvalue kf) outEase
             inEaseNext nextTime A B No Ni).
Qed.

Lemma extractKeyframes_segment_bezier_witness :
  exists n outEase,
    numKeys Examples.fadeProperty = Some n /\
    keyOutTemporalEase Examples.fadeProperty 2 = Some outEase /\
    (2%nat = n -> @None CubicBezier = None).
Proof.
  destruct (extractKeyframes_segment_bezier Easing.convertEasingWithValues
              Examples.fadeProperty 30
              (keyframeLoop Easing.convertEasingWithValues Examples.fadeProperty 30 2 (seq 1 2))
              (mkKeyframe 2 1 30 (VNum 100) (Some (mkInterp BEZIER BEZIER))
                 (Some (mkTemporal [0] [3333 # 100] [0] [3333 # 100] None))
                 None None (Some false) (Some false) None None)
              (mkTemporal [0] [3333 # 100] [0] [3333 # 100] None)
              eq_refl
              ltac:(right; left; vm_compute; reflexivity)
              eq_refl)
    as (n & outEase & N & O & _ & L & _).
  exists n, outEase. split; [exact N|]. split; [exact O | exact L].
Defined.

(** X16: The frame numbers [extractKeyframes] reports follow the times:
    with a frame rate that is not negative, frames do not decrease along
    keyframes whose times do not decrease. *)
Theorem extractKeyframes_frames
    (convert : list KeyframeEase -> list KeyframeEase -> Q ->
               PropertyValue -> PropertyValue -> option CubicBezier)
    (property : HostObject) (frameRate : Q) (kfs : list Keyframe) :
  extractKeyframes convert property frameRate = Returned kfs ->
  0 <= frameRate -> StronglySorted Qle (map time kfs) ->
  StronglySorted Qle (map frame kfs).
Proof.
  intro H. unfold extractKeyframes in H.
  destruct (numKeys property) as [n|]; [|discriminate]. injection H as <-.
  intros F S. rewrite keyframeLoop_frames.
  revert S. apply sorted_map_mono. intros a b L.
  apply Qround_js_mono. apply Qmult_le_compat_r; assumption.
Qed.

Lemma extractKeyframes_frames_witness :
  StronglySorted Qle
    (map frame (keyframeLoop Easing.convertEasingWithValues Examples.fadeProperty 30 2
                  (seq 1 2))).
Proof.
  apply (extractKeyframes_frames Easing.convertEasingWithValues
           Examples.fadeProperty 30 _ eq_refl).
  - discriminate.
  - vm_compute. repeat constructor; discriminate.
Defined.

(** X17: [extractAnimatedProperty] throws in one situation only: the property
    holds a value, reads as time-varying, and its [numKeys] cannot be
    read (every other read is guarded); it returns null exactly for a
    property whose value type reads as [NO_VALUE]. *)
Theorem extractAnimatedProperty_outcomes
    (convert : list KeyframeEase -> list KeyframeEase -> Q ->
               PropertyValue -> PropertyValue -> option CubicBezier)
    (property : HostObject) (frameRate : Q) :
  (extractAnimatedProperty convert property frameRate = Thrown <->
   propertyValueType property <> Some NO_VALUE /\
   isTimeVarying property = Some true /\
   numKeys property = None) /\
  (extractAnimatedProperty convert property frameRate = Returned None <->
   propertyValueType property = Some NO_VALUE).
Proof.
  unfold extractAnimatedProperty, extractKeyframes.
  destruct (propertyValueType property) as [[]|];
    destruct (isTimeVarying property) as [[]|];
    destruct (numKeys property) as [n|];
    (split; split; intro H);
    try discriminate H; try reflexivity;
    try (destruct H as (A & B & C);
         first [discriminate B | discriminate C | exfalso; apply A; reflexivity]);
    try (split; [discriminate | split; reflexivity]).
Qed.

End KeyframeProperties.

(** ** The curves the converters return, as the plugin samples them *)

Section MonotoneFacts.

Import BezierMath.

(** The derivative of the abscissa, as a mean of its values at the four
    corners of the unit square of control abscissas. *)
Lemma dxdtAt_corners (a1 a2 t : Q) :
  dxdtAt a1 a2 t
  == 3 * ((1 - a1) * (1 - a2) * (t * t)
          + a1 * (1 - a2) * ((1 - 2 * t) * (1 - 2 * t))
          + (1 - a1) * a2 * (2 * ((1 - t) * t))
          + a1 * a2 * ((1 - t) * (1 - t))).
Proof. unfold dxdtAt. ring. Qed.

(** The growth of the abscissa between two parameters, in the same
    manner. *)
Lemma sample_x_growth (a1 y1 a2 y2 s t : Q) :
  x (sampleCubicBezier a1 y1 a2 y2 t) - x (sampleCubicBezier a1 y1 a2 y2 s)
  == (t - s)
     * ((1 - a1) * (1 - a2) * (t * t + t * s + s * s)
        + a1 * (1 - a2) * (3 * ((1 - (t + s)) * (1 - (t + s))) + (t - s) * (t - s))
        + (1 - a1) * a2 * (2 * (t * (1 - t)) + 2 * (s * (1 - s)) + t * (1 - s) + s * (1 - t))
        + a1 * a2 * ((1 - s) * (1 - s) + (1 - s) * (1 - t) + (1 - t) * (1 - t))).
Proof. unfold sampleCubicBezier. cbn [x]. ring. Qed.

Lemma Qsquare_nonneg (a : Q) : 0 <= a * a.
Proof. nra. Qed.

Lemma weighted_nonneg (w1 w2 g : Q) : 0 <= w1 -> 0 <= w2 -> 0 <= g -> 0 <= w1 * w2 * g.
Proof.
  intros A B C. apply Qmult_le_0_compat; [apply Qmult_le_0_compat; assumption | exact C].
Qed.

Lemma dxdtAt_nonneg (a1 a2 t : Q) :
  0 <= a1 -> a1 <= 1 -> 0 <= a2 -> a2 <= 1 -> 0 <= t -> t <= 1 ->
  0 <= dxdtAt a1 a2 t.
Proof.
  intros A0 A1 B0 B1 T0 T1. rewrite dxdtAt_corners.
  assert (G1 : 0 <= (1 - a1) * (1 - a2) * (t * t))
    by (apply weighted_nonneg; [lra | lra | apply Qsquare_nonneg]).
  assert (G2 : 0 <= a1 * (1 - a2) * ((1 - 2 * t) * (1 - 2 * t)))
    by (apply weighted_nonneg; [lra | lra | apply Qsquare_nonneg]).
  assert (G3 : 0 <= (1 - a1) * a2 * (2 * ((1 - t) * t))).
  { apply weighted_nonneg; [lra | lra |].
    assert (0 <= (1 - t) * t) by (apply Qmult_le_0_compat; lra). lra. }
  assert (G4 : 0 <= a1 * a2 * ((1 - t) * (1 - t)))
    by (apply weighted_nonneg; [lra | lra | apply Qsquare_nonneg]).
  lra.
Qed.

Lemma sample_x_monotone (a1 y1 a2 y2 s t : Q) :
  0 <= a1 -> a1 <= 1 -> 0 <= a2 -> a2 <= 1 -> 0 <= s -> s <= t -> t <= 1 ->
  x (sampleCubicBezier a1 y1 a2 y2 s) <= x (sampleCubicBezier a1 y1 a2 y2 t).
Proof.
  intros A0 A1 B0 B1 S0 ST T1.
  pose proof (sample_x_growth a1 y1 a2 y2 s t) as E.
  assert (P1 : 0 <= t * t) by apply Qsquare_nonneg.
  assert (P2 : 0 <= t * s) by (apply Qmult_le_0_compat; lra).
  assert (P3 : 0 <= s * s) by apply Qsquare_nonneg.
  assert (P4 : 0 <= (1 - (t + s)) * (1 - (t + s))) by apply Qsquare_nonneg.
  assert (P5 : 0 <= (t - s) * (t - s)) by apply Qsquare_nonneg.
  assert (P6 : 0 <= t * (1 - t)) by (apply Qmult_le_0_compat; lra).
  assert (P7 : 0 <= s * (1 - s)) by (apply Qmult_le_0_compat; lra).
  assert (P8 : 0 <= t * (1 - s)) by (apply Qmult_le_0_compat; lra).
  assert (P9 : 0 <= s * (1 - t)) by (apply Qmult_le_0_compat; lra).
  assert (P10 : 0 <= (1 - s) * (1 - s)) by apply Qsquare_nonneg.
  assert (P11 : 0 <= (1 - s) * (1 - t)) by (apply Qmult_le_0_compat; lra).
  assert (P12 : 0 <= (1 - t) * (1 - t)) by apply Qsquare_nonneg.
  assert (G1 : 0 <= (1 - a1) * (1 - a2) * (t * t + t * s + s * s))
    by (apply weighted_nonneg; lra).
  assert (G2 : 0 <= a1 * (1 - a2)
                    * (3 * ((1 - (t + s)) * (1 - (t + s))) + (t - s) * (t - s)))
    by (apply weighted_nonneg; lra).
  assert (G3 : 0 <= (1 - a1) * a2
                    * (2 * (t * (1 - t)) + 2 * (s * (1 - s)) + t * (1 - s) + s * (1 - t)))
    by (apply weighted_nonneg; lra).
  assert (G4 : 0 <= a1 * a2 * ((1 - s) * (1 - s) + (1 - s) * (1 - t) + (1 - t) * (1 - t)))
    by (apply weighted_nonneg; lra).
  set (G := (1 - a1) * (1 - a2) * (t * t + t * s + s * s)
            + a1 * (1 - a2) * (3 * ((1 - (t + s)) * (1 - (t + s))) + (t - s) * (t - s))
            + (1 - a1) * a2
              * (2 * (t * (1 - t)) + 2 * (s * (1 - s)) + t * (1 - s) + s * (1 - t))
            + a1 * a2 * ((1 - s) * (1 - s) + (1 - s) * (1 - t) + (1 - t) * (1 - t))) in *.
  assert (GN : 0 <= G) by (unfold G; lra).
  assert (M : 0 <= (t - s) * G) by (apply Qmult_le_0_compat; lra).
  lra.
Qed.

Lemma in_unit_Fin (a : num) : in_unit a -> exists q, a = Fin q /\ 0 <= q /\ q <= 1.
Proof.
  destruct a as [|q]; [intros []|]. intros [A B]. exists q.
  split; [reflexivity|]. split; assumption.
Qed.

End MonotoneFacts.

Section MonotoneProperties.

Import BezierMath.

(** X18: Every curve a converter returns is the graph of a function of time:
    its control abscissas are numbers in [0, 1], and for such a curve the
    abscissa [sampleCubicBezier] computes never decreases as the
    parameter runs from 0 to 1, whatever the ordinates; the derivative
    [bezierYForX] divides by is never negative there. *)
Theorem converted_curve_abscissa_monotone
    (outEase inEaseNext : list KeyframeEase) (duration : Q)
    (startValue endValue : PropertyValue) (b : CubicBezier) :
  Easing.convertEasingWithValues outEase inEaseNext duration startValue endValue = Some b \/
  EasingFirstDim.convertEasingWithValues outEase inEaseNext duration startValue endValue
  = Some b \/
  convertEasingToCubicBezier outEase inEaseNext duration = Some b ->
  exists a1 a2,
    x1 b = Fin a1 /\ x2 b = Fin a2 /\
    (forall t, 0 <= t -> t <= 1 -> 0 <= dxdtAt a1 a2 t) /\
    (forall y1 y2 s t, 0 <= s -> s <= t -> t <= 1 ->
       x (sampleCubicBezier a1 y1 a2 y2 s) <= x (sampleCubicBezier a1 y1 a2 y2 t)).
Proof.
  intro H.
  assert (U : in_unit (x1 b) /\ in_unit (x2 b)).
  { destruct H as [H | [H | H]].
    - apply (valueAware_x_unit outEase inEaseNext duration startValue endValue). left. exact H.
    - apply (valueAware_x_unit outEase inEaseNext duration startValue endValue). right. exact H.
    - exact (simplified_x_unit _ _ _ _ H). }
  destruct U as [U1 U2].
  destruct (in_unit_Fin _ U1) as (a1 & E1 & A0 & A1).
  destruct (in_unit_Fin _ U2) as (a2 & E2 & B0 & B1).
  exists a1, a2. split; [exact E1|]. split; [exact E2|]. split.
  - intros t T0 T1. apply dxdtAt_nonneg; assumption.
  - intros y1 y2 s t S0 ST T1. apply sample_x_monotone; assumption.
Qed.

Lemma converted_curve_abscissa_monotone_witness :
  exists a1 a2,
    x1 (curveFromHandles (Fin (Qabs (100 / 1))) (mkEase 300 50) (mkEase 300 50)) = Fin a1 /\
    x2 (curveFromHandles (Fin (Qabs (100 / 1))) (mkEase 300 50) (mkEase 300 50)) = Fin a2 /\
    (forall t, 0 <= t -> t <= 1 -> 0 <= dxdtAt a1 a2 t).
Proof.
  destruct (converted_curve_abscissa_monotone [mkEase 300 50] [mkEase 300 50] 1
              (VNum 0) (VNum 100)
              (curveFromHandles (Fin (Qabs (100 / 1))) (mkEase 300 50) (mkEase 300 50))
              (or_introl eq_refl))
    as (a1 & a2 & E1 & E2 & D & _).
  exists a1, a2. split; [exact E1|]. split; [exact E2 | exact D].
Defined.

End MonotoneProperties.

(** ** [extractTransform] and the summary of an extracted layer *)

Section TransformFacts.

Import Keyframes Summary.

Variable convert :
  list KeyframeEase -> list KeyframeEase -> Q ->
  PropertyValue -> PropertyValue -> option CubicBezier.

Lemma slot_extracted (read : option (option Host.HostObject)) (frameRate : Q) :
  extracted (Transform.slot convert read frameRate).
Proof.
  unfold Transform.slot. destruct read as [p|]; [|left; reflexivity].
  destruct (extractAnimatedProperty convert (Transform.argument p) frameRate) as [d|] eqn:E;
    [|left; reflexivity].
  right. exists convert, (Transform.argument p), frameRate. exact E.
Qed.

Lemma extracted_None : extracted None.
Proof. left. reflexivity. Qed.

Lemma extractTransform_extracted (layer : Transform.Layer) (frameRate : Q) :
  forall slot,
    In slot (scannedProperties (Transform.extractTransform convert layer frameRate)) ->
    extracted slot.
Proof.
  intros slot. unfold Transform.extractTransform.
  destruct (Transform.transform layer) as [[tg|]|].
  - cbv zeta.
    destruct (match Transform.propertyNamed tg "ADBE Position" with
              | Some (Some _) =>
                  match Transform.dimensionsSeparated tg with
                  | Some b => b
                  | None => false
                  end
              | _ => false
              end);
      destruct (match Transform.threeDLayer layer with Some b => b | None => false end);
      unfold scannedProperties;
      cbn [anchorPoint position scale rotation opacity rotationX rotationY rotationZ
           positionSeparated sx sy sz app In];
      intro H;
      repeat (destruct H as [<- | H];
              [first [apply slot_extracted | apply extracted_None]|]);
      destruct H.
  - cbn. intro H. repeat (destruct H as [<- | H]; [apply extracted_None|]). destruct H.
  - cbn. intro H. repeat (destruct H as [<- | H]; [apply extracted_None|]). destruct H.
Qed.

(** The summary of a descriptor whose scanned slots are well formed. *)
Lemma summary_of_wellFormed (layerData : LayerData) (t : TransformProperties) :
  transform layerData = Some t ->
  (forall slot, In slot (scannedProperties t) -> wellFormed slot) ->
  properties (computeAnimationSummary layerData)
  = flat_map digest (filter qualifies (scannedProperties t)) /\
  (Summary.isAnimated (computeAnimationSummary layerData) = true <->
   exists slot, In slot (scannedProperties t) /\ qualifies slot = true) /\
  animatedPropertyCount (computeAnimationSummary layerData)
  = List.length (filter qualifies (scannedProperties t)).
Proof.
  intros T W.
  assert (P : properties (computeAnimationSummary layerData)
              = flat_map digest (filter qualifies (scannedProperties t))).
  { rewrite (computeAnimationSummary_fold layerData t T).
    destruct (fold_checkProp_contribution (visited t)) with (s := mkSummary false 0 0 [])
      as [P _].
    { apply Forall_forall. intros x Hx. apply W. apply visited_In. exact Hx. }
    rewrite P. cbn [properties app].
    rewrite visited_contribution. apply contribution_filter. }
  destruct (summary_consistent layerData) as (C1 & _ & C3).
  split; [exact P|]. split.
  - rewrite C3, C1, P, digests_length. apply filter_nonempty.
  - rewrite C1, P. apply digests_length.
Qed.

Lemma filter_step_le {A : Type} (f : A -> bool) (a : A) (l : list A) (n : nat) :
  (List.length (filter f l) <= n)%nat -> (List.length (filter f (a :: l)) <= S n)%nat.
Proof. intro H. cbn [filter]. destruct (f a); cbn [List.length]; lia. Qed.

Lemma filter_step_none (l : list (option AnimatedProperty)) (n : nat) :
  (List.length (filter qualifies l) <= n)%nat ->
  (List.length (filter qualifies (None :: l)) <= n)%nat.
Proof. intro H. exact H. Qed.

Lemma extractTransform_qualifying (layer : Transform.Layer) (frameRate : Q) :
  (List.length (filter qualifies
                  (scannedProperties (Transform.extractTransform convert layer frameRate)))
   <= 9)%nat.
Proof.
  unfold Transform.extractTransform.
  destruct (Transform.transform layer) as [[tg|]|]; [|cbn; lia | cbn; lia].
  cbv zeta.
  destruct (match Transform.propertyNamed tg "ADBE Position" with
            | Some (Some _) =>
                match Transform.dimensionsSeparated tg with
                | Some b => b
                | None => false
                end
            | _ => false
            end);
    destruct (match Transform.threeDLayer layer with Some b => b | None => false end);
    unfold scannedProperties;
    cbn [anchorPoint position scale rotation opacity rotationX rotationY rotationZ
         positionSeparated sx sy sz app];
    repeat first [apply filter_step_none | apply filter_step_le];
    cbn; lia.
Qed.

End TransformFacts.

Section TransformProperties.

Import Keyframes Summary.

(** X19: The descriptor [extractTransform] builds never holds both forms of a
    property: [position] is unset when the position is separated, the 2D
    [rotation] is unset on a 3D layer, and the three rotation axes and
    the orientation are set on a 3D layer only; and every slot the
    summary scans is unset or just what a call of
    [extractAnimatedProperty] returned. *)
Theorem extractTransform_exclusive
    (convert : list KeyframeEase -> list KeyframeEase -> Q ->
               PropertyValue -> PropertyValue -> option CubicBezier)
    (layer : Transform.Layer) (frameRate : Q) :
  let t := Transform.extractTransform convert layer frameRate in
  (positionSeparated t <> None -> position t = None) /\
  (rotation t <> None ->
   rotationX t = None /\ rotationY t = None /\ rotationZ t = None /\ orientation t = None) /\
  (rotationX t <> None \/ rotationY t <> None \/ rotationZ t <> None \/
   orientation t <> None ->
   Transform.threeDLayer layer = Some true /\ rotation t = None) /\
  (forall slot, In slot (scannedProperties t) -> extracted slot).
Proof.
  cbv zeta. split; [|split; [|split]].
  4:{ apply extractTransform_extracted. }
  all: unfold Transform.extractTransform;
    destruct (Transform.transform layer) as [[tg|]|];
    try (cbn; intuition congruence);
    cbv zeta;
    destruct (match Transform.propertyNamed tg "ADBE Position" with
              | Some (Some _) =>
                  match Transform.dimensionsSeparated tg with
                  | Some b => b
                  | None => false
                  end
              | _ => false
              end);
    destruct (Transform.threeDLayer layer) as [[]|];
    cbn [anchorPoint position scale rotation opacity rotationX rotationY rotationZ
         orientation positionSeparated];
    intuition congruence.
Qed.

(** X20: The summary [extractLayer] stores for a layer, computed from the
    transform it has just extracted, lists exactly the digests of the
    scanned slots with at least 2 keyframes, in scan order; it is flagged
    animated exactly when there is one; it counts at most 9 properties
    (anchor point, position or its three dimensions, scale, rotation or
    the three axes, opacity); and it does not depend on the layer's
    orientation property, which is extracted but never scanned. *)
Theorem animationSummaryOf_digests
    (convert : list KeyframeEase -> list KeyframeEase -> Q ->
               PropertyValue -> PropertyValue -> option CubicBezier)
    (frameRate : Q) :
  (forall layer : Transform.Layer,
      let t := Transform.extractTransform convert layer frameRate in
      let s := Transform.animationSummaryOf convert layer frameRate in
      properties s = flat_map digest (filter qualifies (scannedProperties t)) /\
      (Summary.isAnimated s = true <->
       exists slot, In slot (scannedProperties t) /\ qualifies slot = true) /\
      (animatedPropertyCount s <= 9)%nat) /\
  (forall (anchorPoint position scale rotation opacity xRotation yRotation zRotation
           orientation orientation' : option (option Host.HostObject))
          (propertyNamed : string -> option (option Host.HostObject))
          (dimensionsSeparated threeDLayer : option bool),
      Transform.animationSummaryOf convert
        (Transform.mkLayerHost
           (Some (Some (Transform.mkTransformGroup anchorPoint position scale rotation
                          opacity xRotation yRotation zRotation orientation
                          propertyNamed dimensionsSeparated)))
           threeDLayer) frameRate
      = Transform.animationSummaryOf convert
          (Transform.mkLayerHost
             (Some (Some (Transform.mkTransformGroup anchorPoint position scale rotation
                            opacity xRotation yRotation zRotation orientation'
                            propertyNamed dimensionsSeparated)))
             threeDLayer) frameRate).
Proof.
  split.
  - intros layer t s.
    destruct (summary_of_wellFormed
                (mkLayer (Some (Transform.extractTransform convert layer frameRate))) t eq_refl)
      as (P & A & C).
    { intros slot H. apply extracted_wellFormed.
      exact (extractTransform_extracted convert layer frameRate slot H). }
    split; [exact P|]. split; [exact A|].
    unfold s, Transform.animationSummaryOf. rewrite C.
    apply extractTransform_qualifying.
  - intros. unfold Transform.animationSummaryOf, Transform.extractTransform.
    cbn [Transform.transform Transform.threeDLayer Transform.propertyNamed
         Transform.dimensionsSeparated Transform.anchorPoint Transform.position
         Transform.scale Transform.rotation Transform.opacity Transform.xRotation
         Transform.yRotation Transform.zRotation Transform.orientation].
    cbv zeta.
    destruct (match propertyNamed "ADBE Position"%string with
              | Some (Some _) =>
                  match dimensionsSeparated with
                  | Some b => b
                  | None => false
                  end
              | _ => false
              end);
      destruct (match threeDLayer with Some b => b | None => false end);
      reflexivity.
Qed.

End TransformProperties.

(** ** More on the shape-tree extractor *)

Section ShapeItemFacts.

Import Host Keyframes Shape.
Local Open Scope nat_scope.

Variable convert :
  list KeyframeEase -> list KeyframeEase -> Q ->
  PropertyValue -> PropertyValue -> option CubicBezier.
Variable store : Store.

Lemma typed_contents (l : list ShapeGroupData) :
  (fix all (l : list ShapeGroupData) : Prop :=
     match l with
     | [] => True
     | x :: r => typed x /\ all r
     end) l <-> Forall typed l.
Proof.
  induction l as [|x r IH]; split; intro H.
  - constructor.
  - exact I.
  - destruct H as [A B]. constructor; [exact A | apply IH; exact B].
  - apply Forall_cons_iff in H. destruct H as [A B]. split; [exact A | apply IH; exact B].
Qed.

Lemma getShapeType_group (mn : string) :
  getShapeType mn = group <-> mn = "ADBE Vector Group"%string.
Proof.
  unfold getShapeType. split.
  - destruct (String.eqb mn "ADBE Vector Group") eqn:E;
      [intros _; apply String.eqb_eq; exact E|].
    repeat match goal with
           | |- context [if ?c then _ else _] => destruct c
           end; discriminate.
  - intros ->. reflexivity.
Qed.

Lemma extractItem_typed (recurse : Recurse) (frameRate : Q) (prop : ref)
    (item : ShapeGroupData) :
  (forall sub l, recurse sub = Done l -> Forall typed l) ->
  extractItem convert store recurse frameRate prop = Done item ->
  typed item /\ describes store item prop.
Proof.
  intros R. unfold extractItem.
  destruct (name (store prop)) as [nm|] eqn:EN; [|discriminate].
  destruct (matchName (store prop)) as [mn|] eqn:EM; [|discriminate].
  destruct (String.eqb mn "ADBE Vector Group") eqn:G.
  - apply String.eqb_eq in G. subst mn.
    assert (T : forall c p, (match c with Some l => Forall typed l | None => True end) ->
                typed (mkShape nm "ADBE Vector Group"
                         (getShapeType "ADBE Vector Group") c p)).
    { intros c p H. cbn [typed]. split; [reflexivity|].
      split; [split; reflexivity|]. split; [reflexivity|].
      split; [intro N; exfalso; apply N; reflexivity|].
      destruct c as [l|]; [apply typed_contents; exact H | exact I]. }
    destruct (propertyByName (store prop) "ADBE Vectors Group") as [[sub|]|].
    + destruct (recurse sub) as [contents| |] eqn:E; try discriminate;
        intro H; injection H as <-; (split; [|split; [exact EN | exact EM]]); apply T.
      * exact (R sub contents E).
      * constructor.
      * constructor.
    + intro H. injection H as <-. split; [|split; [exact EN | exact EM]]. apply T. exact I.
    + intro H. injection H as <-. split; [|split; [exact EN | exact EM]]. apply T. constructor.
  - intro H. injection H as <-. split; [|split; [exact EN | exact EM]].
    cbn [typed]. split; [reflexivity|].
    assert (N : getShapeType mn <> group).
    { intro E. apply getShapeType_group in E. subst mn. discriminate G. }
    split; [split; [intro E; contradiction | intros ->; discriminate G]|].
    split; [intro C; exfalso; apply C; reflexivity|].
    split; [intros _; discriminate | exact I].
Qed.

Lemma extractItem_threw (recurse : Recurse) (frameRate : Q) (prop : ref) :
  extractItem convert store recurse frameRate prop = Threw ->
  name (store prop) = None \/ matchName (store prop) = None.
Proof.
  unfold extractItem.
  destruct (name (store prop)) as [nm|]; [|left; reflexivity].
  destruct (matchName (store prop)) as [mn|]; [|right; reflexivity].
  destruct (String.eqb mn "ADBE Vector Group"); [|discriminate].
  destruct (propertyByName (store prop) "ADBE Vectors Group") as [[sub|]|]; try discriminate.
  destruct (recurse sub); discriminate.
Qed.

(** The children the loop fetches among the indices [indices]. *)
Let fetchedAt (g : ref) (indices : list nat) : list ref :=
  flat_map (fun i => match property (store g) i with
                     | Some (Some prop) => [prop]
                     | _ => []
                     end) indices.

Lemma shapeChildren_items (recurse : Recurse) (frameRate : Q) (g : ref)
    (indices : list nat) :
  (forall sub l, recurse sub = Done l -> Forall typed l) ->
  forall (result : list ShapeGroupData) (seen : list ref),
    Forall typed result -> Forall2 (describes store) result seen ->
    (forall l, shapeChildren convert store recurse frameRate g indices result = Done l ->
               Forall typed l /\
               Forall2 (describes store) l (seen ++ fetchedAt g indices)) /\
    (shapeChildren convert store recurse frameRate g indices result = Threw ->
     exists prop, In prop (fetchedAt g indices) /\
                  (name (store prop) = None \/ matchName (store prop) = None)).
Proof.
  intro R. induction indices as [|i rest IH]; intros result seen T D.
  - cbn [shapeChildren]. split; [|discriminate].
    intros l H. injection H as <-. unfold fetchedAt. cbn [flat_map].
    rewrite app_nil_r. split; assumption.
  - cbn [shapeChildren]. unfold fetchedAt. cbn [flat_map].
    fold (fetchedAt g rest).
    destruct (property (store g) i) as [[prop|]|]; try (apply IH; assumption).
    destruct (extractItem convert store recurse frameRate prop) as [item| |] eqn:E.
    + destruct (extractItem_typed recurse frameRate prop item R E) as [Ti Di].
      destruct (IH (result ++ [item]) (seen ++ [prop])) as [A B].
      { apply Forall_app. split; [exact T | constructor; [exact Ti | constructor]]. }
      { apply Forall2_app; [exact D | constructor; [exact Di | constructor]]. }
      split.
      * intros l H. destruct (A l H) as [A1 A2]. split; [exact A1|].
        rewrite <- app_assoc in A2. exact A2.
      * intro H. destruct (B H) as (p & I & U). exists p. split; [right; exact I | exact U].
    + split; [discriminate|]. intros _. exists prop.
      split; [left; reflexivity | exact (extractItem_threw recurse frameRate prop E)].
    + split; discriminate.
Qed.

Lemma extractShapeGroup_items (frameRate : Q) (room : nat) :
  forall g,
    (forall l, extractShapeGroup convert store room frameRate g = Done l ->
               Forall typed l /\ Forall2 (describes store) l (fetched store g)) /\
    (extractShapeGroup convert store room frameRate g = Threw ->
     exists prop, In prop (fetched store g) /\
                  (name (store prop) = None \/ matchName (store prop) = None)).
Proof.
  induction room as [|room IH]; intro g; [split; discriminate|].
  rewrite extractShapeGroup_step. unfold fetched.
  destruct (childCount (store g)) as [n|].
  - apply (shapeChildren_items (extractShapeGroup convert store room frameRate)
             frameRate g (seq 1 n)) with (result := []) (seen := []).
    + intros sub l H. exact (proj1 (proj1 (IH sub) l H)).
    + constructor.
    + constructor.
  - split; [|discriminate]. intros l H. injection H as <-. split; constructor.
Qed.

Lemma extractAnimatedProperty_not_null (property : HostObject) (frameRate : Q) :
  propertyValueType property <> Some NO_VALUE ->
  extractAnimatedProperty convert property frameRate <> Returned None.
Proof.
  intro N. unfold extractAnimatedProperty.
  destruct (propertyValueType property) as [[]|]; try (exfalso; apply N; reflexivity);
    (destruct (match isTimeVarying property with Some b => b | None => false end);
     [destruct (extractKeyframes convert property frameRate)|]); discriminate.
Qed.

Lemma valueProperty_entries (frameRate : Q) (owner : HostObject) (i : nat) :
  List.length (valueProperty convert store frameRate owner i) <= 1 /\
  Forall (fun d => d <> None) (valueProperty convert store frameRate owner i).
Proof.
  unfold valueProperty.
  destruct (property owner i) as [[sub|]|]; try (split; [cbn; lia | constructor]).
  destruct (propertyValueType (store sub)) as [t|] eqn:T; [|split; [cbn; lia | constructor]].
  assert (R : t <> NO_VALUE ->
              List.length
                (match extractAnimatedProperty convert (store sub) frameRate with
                 | Returned d => [d]
                 | Thrown => []
                 end) <= 1 /\
              Forall (fun d => d <> None)
                (match extractAnimatedProperty convert (store sub) frameRate with
                 | Returned d => [d]
                 | Thrown => []
                 end)).
  { intro N.
    assert (N' : propertyValueType (store sub) <> Some NO_VALUE) by congruence.
    pose proof (extractAnimatedProperty_not_null (store sub) frameRate N') as X.
    destruct (extractAnimatedProperty convert (store sub) frameRate) as [d|];
      [|split; [cbn; lia | constructor]].
    split; [cbn; lia|]. constructor; [|constructor]. intros ->. apply X. reflexivity. }
  destruct t; try (apply R; discriminate); split; try (cbn; lia); constructor.
Qed.

Lemma flat_map_entries {A B : Type} (f : A -> list B) (P : B -> Prop) (l : list A) :
  (forall a, List.length (f a) <= 1 /\ Forall P (f a)) ->
  List.length (flat_map f l) <= List.length l /\ Forall P (flat_map f l).
Proof.
  intro H. induction l as [|a l [IL IF]]; [split; [cbn; lia | constructor]|].
  cbn [flat_map List.length]. destruct (H a) as [L F]. split.
  - rewrite length_app. lia.
  - apply Forall_app. split; assumption.
Qed.

End ShapeItemFacts.

Section FrameRateFacts.

Import Shape.

Lemma frameRateAfter_app (calls : list (option Q)) (frameRate : option Q) (current : Q) :
  frameRateAfter (calls ++ [frameRate]) current
  = match frameRate with
    | Some f => if Qltb 0 f then f else frameRateAfter calls current
    | None => frameRateAfter calls current
    end.
Proof. unfold frameRateAfter. rewrite fold_left_app. reflexivity. Qed.

Lemma frameRateAfter_last (calls : list (option Q)) (current : Q) :
  frameRateAfter calls current = last (positiveRates calls) current.
Proof.
  induction calls as [|frameRate calls IH] using rev_ind; [reflexivity|].
  rewrite frameRateAfter_app. unfold positiveRates in *. rewrite flat_map_app.
  cbn [flat_map]. rewrite app_nil_r.
  destruct frameRate as [f|]; [destruct (Qltb 0 f)|];
    rewrite ?app_nil_r, ?last_last; try exact IH; reflexivity.
Qed.

Lemma frameRateAfter_positive (calls : list (option Q)) (current : Q) :
  0 < current -> 0 < frameRateAfter calls current.
Proof.
  induction calls as [|frameRate calls IH] using rev_ind; intro P; [exact P|].
  rewrite frameRateAfter_app.
  destruct frameRate as [f|]; [|apply IH; exact P].
  destruct (Qltb 0 f) eqn:E; [apply Qltb_lt; exact E | apply IH; exact P].
Qed.

End FrameRateFacts.

Section ShapeProperties.

Import Host Keyframes Shape.
Local Open Scope nat_scope.

(** X21: Every item [extractShapeGroup] reports, at every depth, is typed by
    its match name: [type] is [getShapeType] of the match name; the item
    is of type "group" exactly when its match name is
    "ADBE Vector Group"; only groups carry [contents]; and an item that
    is no group always carries [properties]. *)
Theorem extractShapeGroup_typed
    (convert : list KeyframeEase -> list KeyframeEase -> Q ->
               PropertyValue -> PropertyValue -> option CubicBezier)
    (store : Store) (room : nat) (frameRate : Q) (propertyGroup : ref)
    (items : list ShapeGroupData) :
  extractShapeGroup convert store room frameRate propertyGroup = Done items ->
  Forall typed items.
Proof.
  intro H. exact (proj1 (proj1 (extractShapeGroup_items convert store frameRate room
                                  propertyGroup) items H)).
Qed.

Lemma extractShapeGroup_typed_witness :
  Forall typed (nestedReport 3).
Proof.
  apply (extractShapeGroup_typed Easing.convertEasingWithValues (nestedGroups 3) 4 30%Q 0).
  apply (extractShapeGroup_nested Easing.convertEasingWithValues 3 30%Q 3 0). lia.
Defined.

(** X22: [extractShapeGroup] reports one item for each child it fetches, in
    index order, under the child's name and match name; and it throws
    only when the name or the match name of a fetched child cannot be
    read: one such child makes the whole call fail, with no item
    returned for the others. *)
Theorem extractShapeGroup_children
    (convert : list KeyframeEase -> list KeyframeEase -> Q ->
               PropertyValue -> PropertyValue -> option CubicBezier)
    (store : Store) (room : nat) (frameRate : Q) (propertyGroup : ref) :
  (forall items,
      extractShapeGroup convert store room frameRate propertyGroup = Done items ->
      Forall2 (describes store) items (fetched store propertyGroup)) /\
  (extractShapeGroup convert store room frameRate propertyGroup = Threw ->
   exists prop, In prop (fetched store propertyGroup) /\
                (name (store prop) = None \/ matchName (store prop) = None)).
Proof.
  destruct (extractShapeGroup_items convert store frameRate room propertyGroup) as [A B].
  split; [|exact B]. intros items H. exact (proj2 (A items H)).
Qed.

(** X23: The property lists of the shape extractor hold no null: a
    sub-property enters [extractShapeElementProperties] (and
    [extractGroupProperties], whose text is the same) only with a value
    type that was read and is neither [NO_VALUE] nor [CUSTOM_VALUE], and
    for such a property [extractAnimatedProperty] returns a descriptor or
    throws; the list has at most one entry per sub-property and is empty
    for an element that counts none. *)
Theorem shape_properties_no_null
    (convert : list KeyframeEase -> list KeyframeEase -> Q ->
               PropertyValue -> PropertyValue -> option CubicBezier)
    (store : Store) (frameRate : Q) (shapeElement : HostObject) :
  let results := extractShapeElementProperties convert store frameRate shapeElement in
  extractGroupProperties convert store frameRate shapeElement = results /\
  Forall (fun d => exists descriptor, d = Some descriptor) results /\
  (forall numProps, childCount shapeElement = Some numProps ->
                    List.length results <= numProps) /\
  (childCount shapeElement = None -> results = []).
Proof.
  cbv zeta. split; [reflexivity|]. unfold extractShapeElementProperties.
  destruct (childCount shapeElement) as [n|].
  - destruct (flat_map_entries (valueProperty convert store frameRate shapeElement)
                (fun d => d <> None) (seq 1 n)
                (valueProperty_entries convert store frameRate shapeElement)) as [L F].
    split; [|split].
    + eapply Forall_impl; [|exact F]. cbv beta.
      intros [d|] H; [exists d; reflexivity | contradiction].
    + intros m E. injection E as <-. rewrite length_seq in L. exact L.
    + discriminate.
  - split; [constructor|]. split; [discriminate | reflexivity].
Qed.

(** X24: [_shapeExtractFrameRate] is positive after every run of calls of
    [extractShapeData]: it is the last positive frame rate passed to a
    call, or the initial 30 when there was none; a call without a
    positive frame rate extracts with the rate the earlier calls left. *)
Theorem extractShapeData_frame_rate
    (convert : list KeyframeEase -> list KeyframeEase -> Q ->
               PropertyValue -> PropertyValue -> option CubicBezier)
    (store : Store) (room : nat) :
  (forall (current : Q) (shapeLayer : HostObject) (frameRate : option Q),
      fst (extractShapeData convert store room current shapeLayer frameRate)
      = frameRateAfter [frameRate] current) /\
  (forall calls : list (option Q),
      (0 < frameRateAfter calls initialFrameRate)%Q /\
      frameRateAfter calls initialFrameRate = last (positiveRates calls) initialFrameRate) /\
  (forall (calls : list (option Q)) (shapeLayer : HostObject) (frameRate : option Q),
      positiveRates [frameRate] = [] ->
      extractShapeData convert store room (frameRateAfter calls initialFrameRate)
        shapeLayer frameRate
      = extractShapeData convert store room (frameRateAfter calls initialFrameRate)
          shapeLayer (Some (frameRateAfter calls initialFrameRate))).
Proof.
  split; [|split].
  - intros current shapeLayer frameRate. unfold extractShapeData. cbn [frameRateAfter fold_left].
    destruct (propertyByName shapeLayer "ADBE Root Vectors Group") as [[c|]|]; reflexivity.
  - intro calls. split.
    + apply frameRateAfter_positive. reflexivity.
    + apply frameRateAfter_last.
  - intros calls shapeLayer frameRate N.
    pose proof (frameRateAfter_positive calls initialFrameRate eq_refl) as P.
    apply Qltb_lt in P.
    unfold extractShapeData. rewrite P.
    unfold positiveRates in N. cbn [flat_map] in N. rewrite app_nil_r in N.
    destruct frameRate as [f|]; [|reflexivity].
    destruct (Qltb 0 f); [discriminate N | reflexivity].
Qed.

End ShapeProperties.

(** ** The plugin's readers against the summary *)

Section ReaderFacts.

Import Keyframes Summary Readers.
Local Open Scope nat_scope.

Lemma checkProp_entry (s : AnimationSummary) (slot : option AnimatedProperty)
    (entry : PropertySummary) :
  In entry (properties (checkProp s slot)) ->
  In entry (properties s) \/ exists prop, slot = Some prop /\ sourceOf entry prop.
Proof.
  unfold checkProp. destruct slot as [prop|]; [|left; assumption].
  destruct (Keyframes.isAnimated prop) eqn:A; cbn [negb]; [|left; assumption].
  destruct (keyframes prop) as [kfs|] eqn:K; [|left; assumption].
  destruct (List.length kfs <? 2) eqn:L; [left; assumption|].
  apply Nat.ltb_ge in L.
  destruct kfs as [|firstKf rest]; [left; assumption|].
  cbn [properties]. intro H. apply in_app_or in H. destruct H as [H | [<- | []]].
  - left. exact H.
  - right. exists prop. split; [reflexivity|]. split; [exact A|]. split; [reflexivity|].
    exists (firstKf :: rest). split; [exact K|]. split; [exact L | reflexivity].
Qed.

Lemma fold_checkProp_entry (l : list (option AnimatedProperty)) (entry : PropertySummary) :
  forall s,
    In entry (properties (fold_left checkProp l s)) ->
    In entry (properties s) \/ exists prop, In (Some prop) l /\ sourceOf entry prop.
Proof.
  induction l as [|slot l IH]; intros s H; [left; exact H|].
  cbn [fold_left] in H. destruct (IH _ H) as [H1 | (prop & I & S)].
  - destruct (checkProp_entry s slot entry H1) as [H2 | (prop & -> & S)].
    + left. exact H2.
    + right. exists prop. split; [left; reflexivity | exact S].
  - right. exists prop. split; [right; exact I | exact S].
Qed.

Lemma summary_entry (layerData : LayerData) (entry : PropertySummary) :
  In entry (properties (computeAnimationSummary layerData)) ->
  exists t prop,
    transform layerData = Some t /\ In (Some prop) (visited t) /\ sourceOf entry prop.
Proof.
  destruct (transform layerData) as [t|] eqn:T.
  - rewrite (computeAnimationSummary_fold layerData t T). intro H.
    destruct (fold_checkProp_entry _ _ _ H) as [[] | (prop & I & S)].
    exists t, prop. split; [reflexivity|]. split; assumption.
  - unfold computeAnimationSummary. rewrite T. intros [].
Qed.

Lemma option_slot_Some (o : option AnimatedProperty) (prop : AnimatedProperty) :
  In (Some prop) (match o with Some p => [Some p] | None => [] end) <-> o = Some prop.
Proof.
  destruct o as [p|]; cbn; split.
  - intros [H | []]. exact H.
  - intro H. left. exact H.
  - intros [].
  - discriminate.
Qed.

(** The array of the readers and the slots the summary visits hold the
    same properties, in another order. *)
Lemma allProps_visited (t : TransformProperties) (prop : AnimatedProperty) :
  In (Some prop) (allProps t) <-> In (Some prop) (visited t).
Proof.
  unfold allProps, visited, propsToCheck. rewrite !in_app_iff, !option_slot_Some.
  tauto.
Qed.

Lemma visited_scanned (t : TransformProperties) (prop : AnimatedProperty) :
  In (Some prop) (visited t) <-> In (Some prop) (scannedProperties t).
Proof.
  split; [apply visited_In|].
  unfold visited, propsToCheck, scannedProperties.
  rewrite !in_app_iff, !option_slot_Some.
  cbn [In]. destruct (positionSeparated t) as [sep|].
  - cbn [In app]. rewrite option_slot_Some. intuition.
  - cbn [In]. intuition.
Qed.

Lemma option_string_eqb_eq (a b : option string) :
  option_string_eqb a b = true <-> a = b.
Proof.
  destruct a as [x|], b as [y|]; cbn; split; intro H;
    try discriminate; try reflexivity.
  - apply String.eqb_eq in H. congruence.
  - injection H as ->. apply String.eqb_refl.
Qed.

Lemma atTime_iff (t : Q) (kf : Keyframe) :
  atTime t kf = true <-> (Qabs (time kf - t) < timeTolerance)%Q.
Proof. unfold atTime. apply Qltb_lt. Qed.

End ReaderFacts.

Section ReaderProperties.

Import Keyframes Summary Readers.
Local Open Scope nat_scope.

(** X25: The look-up [createStepChart] makes for every entry of a layer's
    summary succeeds: [findAnimatedProperty] returns a property of that
    name (it does not throw, the layer having a transform); and when no
    two properties of the layer share a name, the property returned is
    the one summarised, with the keyframe count of the entry. *)
Theorem findAnimatedProperty_finds (layerData : LayerData) (entry : PropertySummary) :
  In entry (properties (computeAnimationSummary layerData)) ->
  exists t prop,
    transform layerData = Some t /\
    findAnimatedProperty layerData (Summary.name entry) = Some (Some prop) /\
    In (Some prop) (allProps t) /\
    pname prop = Summary.name entry /\
    ((forall p q, In (Some p) (allProps t) -> In (Some q) (allProps t) ->
                  pname p = pname q -> p = q) ->
     exists kfs, keyframes prop = Some kfs /\ List.length kfs = keyframeCount entry).
Proof.
  intro H. destruct (summary_entry layerData entry H) as (t & src & T & I & S).
  apply allProps_visited in I.
  unfold findAnimatedProperty. rewrite T.
  set (test := fun p : option AnimatedProperty =>
                 match p with
                 | Some d => option_string_eqb (pname d) (Summary.name entry)
                 | None => false
                 end).
  destruct (find test (allProps t)) as [found|] eqn:F.
  - destruct (find_some _ _ F) as [FI FT].
    destruct found as [prop|]; [|discriminate FT].
    cbn [test] in FT. apply option_string_eqb_eq in FT.
    exists t, prop. split; [reflexivity|]. split; [reflexivity|].
    split; [exact FI|]. split; [exact FT|].
    intro U. destruct S as (_ & N & kfs & K & _ & C).
    assert (E : prop = src) by (apply U; [exact FI | exact I | congruence]).
    subst prop. exists kfs. split; [exact K | symmetry; exact C].
  - exfalso. pose proof (find_none _ _ F (Some src) I) as N.
    cbn [test] in N. destruct S as (_ & E & _).
    assert (T' : option_string_eqb (pname src) (Summary.name entry) = true)
      by (apply option_string_eqb_eq; symmetry; exact E).
    congruence.
Qed.

Lemma findAnimatedProperty_finds_witness :
  exists t prop,
    transform Examples.fadeLayer = Some t /\
    findAnimatedProperty Examples.fadeLayer (Some "Opacity"%string) = Some (Some prop) /\
    In (Some prop) (allProps t) /\
    pname prop = Some "Opacity"%string.
Proof.
  destruct (findAnimatedProperty_finds Examples.fadeLayer
              (mkPropertySummary (Some "Opacity"%string) 2 (VNum 0) (VNum 100) (1 - 0) 0
                 (Some (mkBezier (Fin (3333 # 10000)) (Fin (0 # 10000))
                          (Fin (6667 # 10000)) (Fin (10000 # 10000)))))
              ltac:(left; vm_compute; reflexivity))
    as (t & prop & T & F & I & N & _).
  exists t, prop. split; [exact T|]. split; [exact F|]. split; [exact I | exact N].
Defined.

(** X26: Behind the guard of [generateCSSKeyframes] (the summary is flagged
    animated) [getAnimatedTransformProps] does not throw and returns at
    least one property; the properties it returns are exactly the
    animated ones among the slots the summary scans; and every entry of
    the summary is the digest of one of them. *)
Theorem getAnimatedTransformProps_covers (layerData : LayerData) :
  Summary.isAnimated (computeAnimationSummary layerData) = true ->
  exists t props,
    transform layerData = Some t /\
    getAnimatedTransformProps layerData = Some props /\
    props <> [] /\
    (forall prop, In prop props <->
                  In (Some prop) (scannedProperties t) /\ Keyframes.isAnimated prop = true) /\
    (forall entry, In entry (properties (computeAnimationSummary layerData)) ->
       exists prop kfs,
         In prop props /\ pname prop = Summary.name entry /\
         keyframes prop = Some kfs /\ List.length kfs = keyframeCount entry).
Proof.
  intro A.
  destruct (summary_consistent layerData) as (C1 & _ & C3).
  apply C3 in A. rewrite C1 in A.
  destruct (properties (computeAnimationSummary layerData)) as [|entry0 rest] eqn:P;
    [cbn in A; lia|].
  destruct (summary_entry layerData entry0) as (t & src & T & I0 & S0);
    [rewrite P; left; reflexivity|].
  unfold getAnimatedTransformProps. rewrite T.
  set (keep := fun p : option AnimatedProperty =>
                 match p with
                 | Some d => if Keyframes.isAnimated d then [d] else []
                 | None => []
                 end).
  assert (M : forall prop, In prop (flat_map keep (allProps t)) <->
                           In (Some prop) (allProps t) /\ Keyframes.isAnimated prop = true).
  { intro prop. rewrite in_flat_map. split.
    - intros ([d|] & I & K); [|destruct K]. cbn [keep] in K.
      destruct (Keyframes.isAnimated d) eqn:E; [|destruct K].
      destruct K as [<- | []]. split; assumption.
    - intros [I E]. exists (Some prop). split; [exact I|]. cbn [keep]. rewrite E.
      left. reflexivity. }
  exists t, (flat_map keep (allProps t)).
  split; [reflexivity|]. split; [reflexivity|]. split; [|split].
  - intro E.
    assert (X : In src (flat_map keep (allProps t))).
    { apply M. split; [apply allProps_visited; exact I0 | exact (proj1 S0)]. }
    rewrite E in X. destruct X.
  - intro prop. rewrite M, allProps_visited, visited_scanned. reflexivity.
  - intros entry I.
    assert (I' : In entry (properties (computeAnimationSummary layerData)))
      by (rewrite P; exact I).
    destruct (summary_entry layerData entry I') as (t' & prop & T' & V & S).
    assert (t' = t) by congruence. subst t'.
    destruct S as (An & N & kfs & K & _ & C).
    exists prop, kfs. split; [|split; [symmetry; exact N | split; [exact K | symmetry; exact C]]].
    apply M. split; [apply allProps_visited; exact V | exact An].
Qed.

Lemma getAnimatedTransformProps_covers_witness :
  exists t props,
    transform Examples.fadeLayer = Some t /\
    getAnimatedTransformProps Examples.fadeLayer = Some props /\
    props <> [].
Proof.
  destruct (getAnimatedTransformProps_covers Examples.fadeLayer eq_refl)
    as (t & props & T & G & N & _).
  exists t, props. split; [exact T|]. split; [exact G | exact N].
Defined.


End ReaderProperties.

(** ** The time range of the animations *)

Section TimeRangeFacts.

Import Summary TimeRange.

Lemma scanProperty_fits (bounds : Bounds) (l : list PropertySummary) (prop : PropertySummary) :
  fits bounds l -> fits (scanProperty bounds prop) (l ++ [prop]).
Proof.
  unfold fits, scanProperty. cbv zeta. destruct bounds as [[lo hi]|].
  - intros (A & (pl & Il & El) & (ph & Ih & Eh)).
    destruct (Qltb (delay prop) lo) eqn:L; destruct (Qltb hi (delay prop + duration prop)) eqn:H;
      try apply Qltb_lt in L; try apply Qltb_ge in L;
      try apply Qltb_lt in H; try apply Qltb_ge in H.
    all: split; [intros p I; apply in_app_or in I; destruct I as [I | [<- | []]];
                 [destruct (A p I); split; lra | split; lra]|].
    all: split.
    all: first [ exists prop; split; [apply in_or_app; right; left; reflexivity | reflexivity]
               | exists pl; split; [apply in_or_app; left; exact Il | exact El]
               | exists ph; split; [apply in_or_app; left; exact Ih | exact Eh] ].
  - intros ->. cbn [app]. split; [|split].
    + intros p [<- | []]. split; lra.
    + exists prop. split; [left; reflexivity | reflexivity].
    + exists prop. split; [left; reflexivity | reflexivity].
Qed.

Lemma fold_scanProperty_fits (props : list PropertySummary) :
  forall (bounds : Bounds) (l : list PropertySummary),
    fits bounds l -> fits (fold_left scanProperty props bounds) (l ++ props).
Proof.
  induction props as [|p props IH]; intros bounds l F.
  - rewrite app_nil_r. exact F.
  - cbn [fold_left]. replace (l ++ p :: props) with ((l ++ [p]) ++ props)
      by (rewrite <- app_assoc; reflexivity).
    apply IH. apply scanProperty_fits. exact F.
Qed.

Lemma scanLayer_fits (bounds : Bounds) (l : list PropertySummary) (layer : AnimationSummary) :
  fits bounds l ->
  fits (scanLayer bounds layer) (l ++ (if isAnimated layer then properties layer else [])).
Proof.
  intro F. unfold scanLayer. destruct (isAnimated layer).
  - apply fold_scanProperty_fits. exact F.
  - rewrite app_nil_r. exact F.
Qed.

Lemma fold_scanLayer_fits (ls : list AnimationSummary) :
  forall (bounds : Bounds) (l : list PropertySummary),
    fits bounds l ->
    fits (fold_left scanLayer ls bounds)
         (l ++ flat_map (fun layer => if isAnimated layer then properties layer else []) ls).
Proof.
  induction ls as [|layer ls IH]; intros bounds l F.
  - cbn. rewrite app_nil_r. exact F.
  - cbn [fold_left flat_map]. rewrite app_assoc. apply IH. apply scanLayer_fits. exact F.
Qed.

Lemma scanLayers_fits (comp : Composition) : fits (scanLayers (layers comp)) (scanned comp).
Proof.
  unfold scanLayers, scanned.
  apply (fold_scanLayer_fits (layers comp) None []). reflexivity.
Qed.

End TimeRangeFacts.

Section TimeRangeProperties.

Import Summary TimeRange.

(** X28: [getCompositionAnimationRange] returns null exactly when no layer
    flagged as animated lists a property; otherwise the range it returns
    starts at the earliest delay and ends at the latest end
    (delay + duration) among the properties of those layers. *)
Theorem getCompositionAnimationRange_tight (comp : Composition) :
  (getCompositionAnimationRange comp = None <-> scanned comp = []) /\
  (forall start finish : Q,
      getCompositionAnimationRange comp = Some (start, finish) ->
      (forall p, In p (scanned comp) ->
                 start <= delay p /\ delay p + duration p <= finish) /\
      (exists p, In p (scanned comp) /\ start = delay p) /\
      (exists p, In p (scanned comp) /\ finish = delay p + duration p)).
Proof.
  pose proof (scanLayers_fits comp) as F. unfold getCompositionAnimationRange.
  destruct (scanLayers (layers comp)) as [[lo hi]|]; cbn [fits] in F.
  - split.
    + split; [discriminate|]. intro E. destruct F as (_ & (p & I & _) & _).
      rewrite E in I. destruct I.
    + intros start finish H. injection H as <- <-. exact F.
  - split; [split; [intros _; exact F | reflexivity]|].
    intros start finish H. discriminate H.
Qed.

(** X29: The window [getEffectiveTimeRange] returns lies inside the
    composition, [0, duration]; it is the whole composition when nothing
    is animated; otherwise it leaves at least 0.2 s before the start and
    after the end of every animated property, except where the
    composition cuts it; so it contains every animated property that
    lies inside the composition. *)
Theorem getEffectiveTimeRange_window (comp : Composition) :
  let window := getEffectiveTimeRange comp in
  (scanned comp = [] -> window = (0, compDuration comp)) /\
  0 <= fst window /\ snd window <= compDuration comp /\
  (forall p, In p (scanned comp) ->
     fst window <= Qmax 0 (delay p - (2 # 10)) /\
     Qmin (compDuration comp) (delay p + duration p + (2 # 10)) <= snd window /\
     (0 <= delay p -> fst window <= delay p) /\
     (delay p + duration p <= compDuration comp -> delay p + duration p <= snd window)).
Proof.
  cbv zeta. pose proof (scanLayers_fits comp) as F. unfold getEffectiveTimeRange.
  destruct (scanLayers (layers comp)) as [[lo hi]|]; cbn [fits] in F.
  - cbv zeta. cbn [fst snd].
    set (padding := Qmax ((hi - lo) * (15 # 100)) (2 # 10)).
    assert (P : (2 # 10) <= padding) by apply Q.le_max_r.
    destruct F as (A & (p0 & I0 & _) & _).
    split; [intro E; rewrite E in I0; destruct I0|].
    split; [apply Q.le_max_l|]. split; [apply Q.le_min_l|].
    intros p I. destruct (A p I) as [L H].
    assert (S1 : Qmax 0 (lo - padding) <= Qmax 0 (delay p - (2 # 10))).
    { apply Q.max_lub; [apply Q.le_max_l|].
      apply Qle_trans with (delay p - (2 # 10)); [lra | apply Q.le_max_r]. }
    assert (S2 : Qmin (compDuration comp) (delay p + duration p + (2 # 10))
                 <= Qmin (compDuration comp) (hi + padding)).
    { apply Q.min_glb; [apply Q.le_min_l|].
      apply Qle_trans with (delay p + duration p + (2 # 10)); [apply Q.le_min_r | lra]. }
    split; [exact S1|]. split; [exact S2|]. split.
    + intro D. apply Qle_trans with (Qmax 0 (delay p - (2 # 10))); [exact S1|].
      apply Q.max_lub; lra.
    + intro D. apply Qle_trans with (Qmin (compDuration comp) (delay p + duration p + (2 # 10)));
        [|exact S2].
      apply Q.min_glb; lra.
  - cbn [fst snd]. split; [reflexivity|]. split; [lra|]. split; [lra|].
    intros p I. rewrite F in I. destruct I.
Qed.

End TimeRangeProperties.
